(** * Redux store engine, reducer combinator and middleware pipeline

    A shallow embedding of [createStore.js], [combineReducers.js],
    [applyMiddleware.js], [bindActionCreators.js], [compose.js],
    [utils/isPlainObject.js] and [utils/actionTypes.js].

    - JavaScript values are a small tagged union; objects live in a heap and
      are compared by reference ([VObj l]).
    - User code (reducers, listeners, middleware) is a tree of calls into the
      store API ([prog]); the library runs it with [interp].
    - The closure variables of [createStore] ([currentReducer], [currentState],
      [currentListeners], [nextListeners], [isDispatching]) are fields of the
      [world]; listener arrays are heap-allocated so that the aliasing between
      [currentListeners] and [nextListeners] is visible.
    - Re-entrancy (a listener that dispatches, a reducer that calls the store)
      is bounded by a fuel argument; running out of fuel is the outcome
      [Diverge].

    [process.env.NODE_ENV] is the parameter [production] of the reducer
    combinator. Warnings go to the list [warnings] of the world; each
    [unexpectedKeyCache] is modelled by the list of its own keys, and reads
    of it also see what it inherits from [Object.prototype].
    The world holds the closure of one store and the [dispatch] variable of
    one call of [applyMiddleware].
    [bindActionCreators.js] and the observable adapter of the store come
    after the store and the combinator; [this] is not modelled. *)

From stdpp Require Import gmap strings list fin_maps pretty.
From Stdlib Require Import ZArith Ascii.

Open Scope Z_scope.

(** ** JavaScript values *)

Definition loc := positive.
Definition fid := nat.

Inductive value : Type :=
| VUndef
| VNull
| VBool (b : bool)
| VNum (n : Z)
| VStr (s : string)
| VFun (f : fid)
| VObj (l : loc).

#[global] Instance value_eq_dec : EqDecision value.
Proof. solve_decision. Defined.

#[global] Instance value_inhabited : Inhabited value := populate VUndef.

(** An object: its prototype ([None] is [null]) and its own enumerable
    properties in enumeration order. *)
Record object : Type := Object {
  proto : option loc;
  props : list (string * value)
}.

#[global] Instance object_eq_dec : EqDecision object.
Proof. solve_decision. Defined.

(** What a [throw] carries. [Error msg] is [new Error(msg)], [TypeError msg] is
    [new TypeError(msg)] or an engine-raised type error, [Thrown v] any other
    thrown value. *)
Inductive exn : Type :=
| Error (msg : string)
| TypeError (msg : string)
| Thrown (v : value).

#[global] Instance exn_eq_dec : EqDecision exn.
Proof. solve_decision. Defined.

Inductive outcome (A : Type) : Type :=
| Ok (a : A)
| Raise (e : exn)
| Diverge.
Arguments Ok {A} a.
Arguments Raise {A} e.
Arguments Diverge {A}.

(** [typeof v] *)
Definition typeof (v : value) : string :=
  match v with
  | VUndef => "undefined"
  | VNull => "object"
  | VBool _ => "boolean"
  | VNum _ => "number"
  | VStr _ => "string"
  | VFun _ => "function"
  | VObj _ => "object"
  end.

(** [a === b]; the value domain has no NaN, so this is equality. *)
Definition strict_eq (a b : value) : bool := bool_decide (a = b).

(** Truthiness, as tested by [if (v)], [v && _], [v || _]. *)
Definition truthy (v : value) : bool :=
  match v with
  | VUndef | VNull => false
  | VBool b => b
  | VNum n => negb (n =? 0)
  | VStr s => negb (String.eqb s "")
  | VFun _ | VObj _ => true
  end.

(** [String(v)], used for the type of an action in one error message.
    Objects print with the default [Object.prototype.toString]. Two cases
    are approximate: a number prints with all its digits (as [String] does
    for an integer below 10^21, not in exponent form above), and a function
    prints as a fixed word, not as its source text. *)
Definition String_ (v : value) : string :=
  match v with
  | VUndef => "undefined"
  | VNull => "null"
  | VBool true => "true"
  | VBool false => "false"
  | VNum n => pretty n
  | VStr s => s
  | VFun _ => "function"
  | VObj _ => "[object Object]"
  end.

Definition dquote : string := String "034"%char EmptyString.

(** ** The heap *)

Definition ObjectPrototype : loc := 1%positive.

(** [Object.getPrototypeOf(l)]; [None] is [null]. *)
Definition getPrototypeOf (h : gmap loc object) (l : loc) : option loc :=
  match h !! l with
  | Some o => proto o
  | None => None
  end.

Fixpoint assoc (key : string) (ps : list (string * value)) : option value :=
  match ps with
  | [] => None
  | (k, v) :: ps' => if String.eqb k key then Some v else assoc key ps'
  end.

(** Property read along the prototype chain; the fuel bounds the length of
    the chain. *)
Fixpoint get_chain (fuel : nat) (h : gmap loc object) (l : loc) (key : string)
  : outcome value :=
  match fuel with
  | O => Diverge
  | S fuel' =>
      match h !! l with
      | None => Ok VUndef
      | Some o =>
          match assoc key (props o) with
          | Some v => Ok v
          | None =>
              match proto o with
              | None => Ok VUndef
              | Some p => get_chain fuel' h p key
              end
          end
      end
  end.

(** [v[key]]. Reading a property of [undefined] or [null] is a type error;
    the built-in properties of primitives and functions are not modelled. *)
Definition Get (h : gmap loc object) (v : value) (key : string) : outcome value :=
  match v with
  | VUndef => Raise (TypeError "Cannot read properties of undefined")
  | VNull => Raise (TypeError "Cannot read properties of null")
  | VObj l => get_chain (S (size h)) h l key
  | _ => Ok VUndef
  end.

(** [Object.keys(v)], for an object: its own properties, in order. *)
Definition Object_keys (h : gmap loc object) (v : value) : list string :=
  match v with
  | VObj l =>
      match h !! l with
      | Some o => map fst (props o)
      | None => []
      end
  | _ => []
  end.

(** The properties that [Object.prototype] has from the start (ECMAScript,
    annex B included), which every object literal inherits. They are not
    enumerable, so [props] does not list them; each holds a function, but
    [__proto__], which reads as the prototype: all are truthy. *)
Definition ObjectPrototype_builtins : list string :=
  ["constructor"; "hasOwnProperty"; "isPrototypeOf"; "propertyIsEnumerable";
   "toLocaleString"; "toString"; "valueOf";
   "__defineGetter__"; "__defineSetter__"; "__lookupGetter__"; "__lookupSetter__";
   "__proto__"].

(** [if ({}[key])] for an object literal that has no own property [key]:
    whether it inherits a truthy one from [Object.prototype] (which has no
    prototype itself), built-in or added by the program. *)
Definition inherited (h : gmap loc object) (key : string) : bool :=
  existsb (String.eqb key) ObjectPrototype_builtins
  || match h !! ObjectPrototype with
     | Some o =>
         match assoc key (props o) with
         | Some v => truthy v
         | None => false
         end
     | None => false
     end.
Arguments inherited : simpl never.

(** ** utils/isPlainObject.js *)

(** The [while] loop: climbs from [p] to the last object of the chain. *)
Fixpoint proto_end (fuel : nat) (h : gmap loc object) (p : loc) : outcome loc :=
  match fuel with
  | O => Diverge
  | S fuel' =>
      match getPrototypeOf h p with
      | None => Ok p
      | Some q => proto_end fuel' h q
      end
  end.

Definition isPlainObject (h : gmap loc object) (obj : value) : outcome bool :=
  if negb (String.eqb (typeof obj) "object") || bool_decide (obj = VNull)
  then Ok false
  else
    match obj with
    | VObj l =>
        match proto_end (S (size h)) h l with
        | Ok p => Ok (bool_decide (getPrototypeOf h l = Some p))
        | Raise e => Raise e
        | Diverge => Diverge
        end
    | _ => Ok false
    end.

(** ** compose.js *)

Definition compose {A : Type} (funcs : list (A -> A)) : A -> A :=
  match funcs with
  | [] => fun arg => arg
  | [f] => f
  | f :: rest => fold_left (fun a b => fun args => a (b args)) rest f
  end.

(** ** User code as trees of store calls *)

Inductive storeE : Type -> Type :=
| EGetState : storeE value                      (* store.getState() *)
| EDispatch (action : value) : storeE value     (* store.dispatch(action) *)
| ESubscribe (listener : value) : storeE nat    (* store.subscribe(listener) *)
| EUnsubscribe (token : nat) : storeE unit      (* the closure it returned *)
| EReplaceReducer (nextReducer : value) : storeE unit
| EApiDispatch (action : value) : storeE value  (* middlewareAPI.dispatch *)
| EAlloc (o : object) : storeE loc              (* an object literal / new *)
| EGet (v : value) (key : string) : storeE value (* v[key] *)
| EHeap : storeE (gmap loc object)              (* reading objects *)
| EIsPlainObject (v : value) : storeE bool      (* isPlainObject(v) *)
| EKeys (v : value) : storeE (list string)      (* Object.keys(v) *)
| ELog (v : value) : storeE unit                (* an external array.push(v) *)
| ERandomString : storeE string                 (* randomString() *)
| EWarning (message : string) : storeE unit     (* warning(message) *)
| ECacheNew : storeE nat                        (* unexpectedKeyCache = {} *)
| ECacheGet (cache : nat) (key : string) : storeE bool  (* if (cache[key]) *)
| ECacheSet (cache : nat) (key : string) : storeE unit. (* cache[key] = true *)

(** A program returns, throws, or calls the store and continues with the
    result of the call, or with the exception it caught. *)
Inductive prog (R : Type) : Type :=
| Ret (r : R)
| Throw (e : exn)
| Vis {X : Type} (e : storeE X) (k : exn + X -> prog R).
Arguments Ret {R} r.
Arguments Throw {R} e.
Arguments Vis {R X} e k.

Fixpoint bind {A B : Type} (p : prog A) (f : A -> prog B) : prog B :=
  match p with
  | Ret r => f r
  | Throw e => Throw e
  | Vis e k => Vis e (fun r => bind (k r) f)
  end.

(** [try { p } catch (e) { h e }] *)
Fixpoint try_catch {A : Type} (p : prog A) (h : exn -> prog A) : prog A :=
  match p with
  | Ret r => Ret r
  | Throw e => h e
  | Vis e k => Vis e (fun r => try_catch (k r) h)
  end.

(** A call whose exception is not caught. *)
Definition trigger {X : Type} (e : storeE X) : prog X :=
  Vis e (fun r => match r with inl err => Throw err | inr x => Ret x end).

Notation "'let*' x := p 'in' k" := (bind p (fun x => k))
  (at level 10, x pattern, p at level 100, k at level 200).

(** [xs.forEach(f)] *)
Fixpoint forEach {A : Type} (xs : list A) (f : A -> prog unit) : prog unit :=
  match xs with
  | [] => Ret tt
  | x :: xs' => let* _ := f x in forEach xs' f
  end.

(** ** The world: heap, listener arrays and the closure of [createStore] *)

Record world : Type := World {
  heap : gmap loc object;
  arrays : gmap loc (list value);                (* listener arrays, by reference *)
  subs : list (value * bool);                    (* per subscription: listener, isSubscribed *)
  log : list value;                              (* what [ELog] recorded *)
  rng : nat;                                     (* draws of randomString() so far *)
  warnings : list string;                        (* what [warning] printed *)
  caches : list (list string);                   (* the keys of each unexpectedKeyCache *)
  mw_dispatch : option (value -> prog value);    (* applyMiddleware's [dispatch] *)
  currentReducer : value;
  currentState : value;
  currentListeners : option loc;                 (* [None] is [null] *)
  nextListeners : loc;
  isDispatching : bool
}.

Definition M (A : Type) : Type := world -> outcome A * world.

Definition set_heap (x : gmap loc object) (w : world) : world :=
  World x (arrays w) (subs w) (log w) (rng w) (warnings w) (caches w)
        (mw_dispatch w) (currentReducer w) (currentState w)
        (currentListeners w) (nextListeners w) (isDispatching w).
Definition set_arrays (x : gmap loc (list value)) (w : world) : world :=
  World (heap w) x (subs w) (log w) (rng w) (warnings w) (caches w)
        (mw_dispatch w) (currentReducer w) (currentState w)
        (currentListeners w) (nextListeners w) (isDispatching w).
Definition set_subs (x : list (value * bool)) (w : world) : world :=
  World (heap w) (arrays w) x (log w) (rng w) (warnings w) (caches w)
        (mw_dispatch w) (currentReducer w) (currentState w)
        (currentListeners w) (nextListeners w) (isDispatching w).
Definition set_log (x : list value) (w : world) : world :=
  World (heap w) (arrays w) (subs w) x (rng w) (warnings w) (caches w)
        (mw_dispatch w) (currentReducer w) (currentState w)
        (currentListeners w) (nextListeners w) (isDispatching w).
Definition set_rng (x : nat) (w : world) : world :=
  World (heap w) (arrays w) (subs w) (log w) x (warnings w) (caches w)
        (mw_dispatch w) (currentReducer w) (currentState w)
        (currentListeners w) (nextListeners w) (isDispatching w).
Definition set_warnings (x : list string) (w : world) : world :=
  World (heap w) (arrays w) (subs w) (log w) (rng w) x (caches w)
        (mw_dispatch w) (currentReducer w) (currentState w)
        (currentListeners w) (nextListeners w) (isDispatching w).
Definition set_caches (x : list (list string)) (w : world) : world :=
  World (heap w) (arrays w) (subs w) (log w) (rng w) (warnings w) x
        (mw_dispatch w) (currentReducer w) (currentState w)
        (currentListeners w) (nextListeners w) (isDispatching w).
Definition set_mw_dispatch (x : option (value -> prog value)) (w : world) : world :=
  World (heap w) (arrays w) (subs w) (log w) (rng w) (warnings w) (caches w) x
        (currentReducer w) (currentState w) (currentListeners w)
        (nextListeners w) (isDispatching w).
Definition set_currentReducer (x : value) (w : world) : world :=
  World (heap w) (arrays w) (subs w) (log w) (rng w) (warnings w) (caches w)
        (mw_dispatch w) x (currentState w) (currentListeners w)
        (nextListeners w) (isDispatching w).
Definition set_currentState (x : value) (w : world) : world :=
  World (heap w) (arrays w) (subs w) (log w) (rng w) (warnings w) (caches w)
        (mw_dispatch w) (currentReducer w) x (currentListeners w)
        (nextListeners w) (isDispatching w).
Definition set_currentListeners (x : option loc) (w : world) : world :=
  World (heap w) (arrays w) (subs w) (log w) (rng w) (warnings w) (caches w)
        (mw_dispatch w) (currentReducer w) (currentState w) x
        (nextListeners w) (isDispatching w).
Definition set_nextListeners (x : loc) (w : world) : world :=
  World (heap w) (arrays w) (subs w) (log w) (rng w) (warnings w) (caches w)
        (mw_dispatch w) (currentReducer w) (currentState w)
        (currentListeners w) x (isDispatching w).
Definition set_isDispatching (x : bool) (w : world) : world :=
  World (heap w) (arrays w) (subs w) (log w) (rng w) (warnings w) (caches w)
        (mw_dispatch w) (currentReducer w) (currentState w)
        (currentListeners w) (nextListeners w) x.

(** Allocation of an object and of an array. *)
Definition alloc (o : object) (w : world) : loc * world :=
  let l := fresh (dom (heap w)) in (l, set_heap (<[l := o]> (heap w)) w).

Definition alloc_array (xs : list value) (w : world) : loc * world :=
  let a := fresh (dom (arrays w)) in (a, set_arrays (<[a := xs]> (arrays w)) w).

(** ** Running user code *)

Section Interp.
Context (perform : forall X : Type, storeE X -> M X).

Fixpoint interp {R : Type} (p : prog R) (w : world) : outcome R * world :=
  match p with
  | Ret r => (Ok r, w)
  | Throw e => (Raise e, w)
  | Vis e k =>
      match perform _ e w with
      | (Ok x, w') => interp (k (inr x)) w'
      | (Raise err, w') => interp (k (inl err)) w'
      | (Diverge, w') => (Diverge, w')
      end
  end.

End Interp.

(** ** Error messages of the source *)

Definition msg_several_enhancers : string :=
  "It looks like you are passing several store enhancers to " +:+
  "createStore(). This is not supported. Instead, compose them " +:+
  "together to a single function.".
Definition msg_enhancer_not_function : string :=
  "Expected the enhancer to be a function.".
Definition msg_reducer_not_function : string :=
  "Expected the reducer to be a function.".
Definition msg_getState_while_dispatching : string :=
  "You may not call store.getState() while the reducer is executing. " +:+
  "The reducer has already received the state as an argument. " +:+
  "Pass it down from the top reducer instead of reading it from the store.".
Definition msg_listener_not_function : string :=
  "Expected the listener to be a function.".
Definition msg_subscribe_while_dispatching : string :=
  "You may not call store.subscribe() while the reducer is executing. " +:+
  "If you would like to be notified after the store has been updated, subscribe from a " +:+
  "component and invoke store.getState() in the callback to access the latest state. " +:+
  "See https://redux.js.org/api-reference/store#subscribe(listener) for more details.".
Definition msg_unsubscribe_while_dispatching : string :=
  "You may not unsubscribe from a store listener while the reducer is executing. " +:+
  "See https://redux.js.org/api-reference/store#subscribe(listener) for more details.".
Definition msg_action_not_plain : string :=
  "Actions must be plain objects. " +:+
  "Use custom middleware for async actions.".
Definition msg_action_type_undefined : string :=
  "Actions may not have an undefined " +:+ dquote +:+ "type" +:+ dquote +:+
  " property. " +:+ "Have you misspelled a constant?".
Definition msg_reducers_may_not_dispatch : string :=
  "Reducers may not dispatch actions.".
Definition msg_nextReducer_not_function : string :=
  "Expected the nextReducer to be a function.".
Definition msg_dispatch_while_constructing : string :=
  "Dispatching while constructing your middleware is not allowed. " +:+
  "Other middleware would not be applied to this dispatch.".

(** ** Array helpers *)

Fixpoint indexOf_from (x : value) (l : list value) (i : Z) : Z :=
  match l with
  | [] => -1
  | y :: l' => if strict_eq y x then i else indexOf_from x l' (i + 1)
  end.

(** [l.indexOf(x)] *)
Definition indexOf (x : value) (l : list value) : Z := indexOf_from x l 0.

(** [l.splice(index, 1)]: a negative index counts from the end. *)
Definition splice1 (index : Z) (l : list value) : list value :=
  let len := Z.of_nat (length l) in
  let start := if index <? 0 then Z.max (len + index) 0 else Z.min index len in
  delete (Z.to_nat start) l.

Definition is_function (v : value) : bool := String.eqb (typeof v) "function".
Definition is_undefined (v : value) : bool := String.eqb (typeof v) "undefined".

(** [arguments[i]] *)
Definition arg (i : nat) (args : list value) : value := nth i args VUndef.

(** ** createStore.js *)

(** The store object returned by [createStore]: its methods, as user code
    sees them. (The observable adapter is modelled apart.) *)
Record Store : Type := {
  store_dispatch : value -> prog value;
  store_subscribe : value -> prog nat;
  store_getState : prog value;
  store_replaceReducer : value -> prog unit
}.

Section Engine.

(** What each function value does when it is called. *)
Context (fn : fid -> list value -> prog value).
(** utils/actionTypes.js: the successive results of [randomString()]. *)
Context (randomString : nat -> string).

Definition ActionTypes_INIT : string := "@@redux/INIT" +:+ randomString 0.
Definition ActionTypes_REPLACE : string := "@@redux/REPLACE" +:+ randomString 1.

(** [{ type: t }] *)
Definition action_of_type (t : string) : object :=
  Object (Some ObjectPrototype) [("type", VStr t)].

Section Handlers.

(** [budget] bounds the iterations of the notification loop; [call] runs
    user code. *)
Context (budget : nat).
Context (call : forall R : Type, prog R -> M R).

Definition call_function (f : value) (args : list value) : M value :=
  fun w =>
    match f with
    | VFun id => call _ (fn id args) w
    | _ => (Raise (TypeError "is not a function"), w)
    end.

Definition ensureCanMutateNextListeners (w : world) : world :=
  if bool_decide (Some (nextListeners w) = currentListeners w) then
    let '(a, w') := alloc_array (arrays w !!! nextListeners w) w in
    set_nextListeners a w'
  else w.

Definition getState : M value :=
  fun w =>
    if isDispatching w then (Raise (Error msg_getState_while_dispatching), w)
    else (Ok (currentState w), w).

(** The closure returned by [subscribe]; [token] selects its [isSubscribed]
    and [listener]. *)
Definition unsubscribe (token : nat) : M unit :=
  fun w =>
    match subs w !! token with
    | None => (Raise (TypeError "is not a function"), w)
    | Some (listener, isSubscribed) =>
        if negb isSubscribed then (Ok tt, w)
        else if isDispatching w
        then (Raise (Error msg_unsubscribe_while_dispatching), w)
        else
          let w1 := set_subs (<[token := (listener, false)]> (subs w)) w in
          let w2 := ensureCanMutateNextListeners w1 in
          let nl := arrays w2 !!! nextListeners w2 in
          let index := indexOf listener nl in
          let w3 := set_arrays (<[nextListeners w2 := splice1 index nl]> (arrays w2)) w2 in
          (Ok tt, set_currentListeners None w3)
    end.

Definition subscribe (listener : value) : M nat :=
  fun w =>
    if negb (is_function listener)
    then (Raise (Error msg_listener_not_function), w)
    else if isDispatching w
    then (Raise (Error msg_subscribe_while_dispatching), w)
    else
      let token := length (subs w) in
      let w1 := set_subs (subs w ++ [(listener, true)]) w in
      let w2 := ensureCanMutateNextListeners w1 in
      let nl := arrays w2 !!! nextListeners w2 in
      (Ok token, set_arrays (<[nextListeners w2 := nl ++ [listener]]> (arrays w2)) w2).

(** [for (let i = 0; i < listeners.length; i++) { listeners[i]() }], reading
    the array afresh at every iteration. *)
Fixpoint notify (b : nat) (listeners : loc) (i : nat) (w : world)
  : outcome unit * world :=
  match b with
  | O => (Diverge, w)
  | S b' =>
      match (arrays w !!! listeners) !! i with
      | None => (Ok tt, w)
      | Some listener =>
          match call_function listener [] w with
          | (Ok _, w') => notify b' listeners (S i) w'
          | (Raise e, w') => (Raise e, w')
          | (Diverge, w') => (Diverge, w')
          end
      end
  end.

(** The [try { ... } finally { ... }] of [dispatch] and what follows it. *)
Definition dispatch_reduce (action : value) : M value :=
  fun w =>
    let w1 := set_isDispatching true w in
    match call_function (currentReducer w1) [currentState w1; action] w1 with
    | (Ok s, w2) =>
        let w3 := set_isDispatching false (set_currentState s w2) in
        let listeners := nextListeners w3 in
        let w4 := set_currentListeners (Some listeners) w3 in
        match notify budget listeners 0 w4 with
        | (Ok _, w5) => (Ok action, w5)
        | (Raise e, w5) => (Raise e, w5)
        | (Diverge, w5) => (Diverge, w5)
        end
    | (Raise e, w2) => (Raise e, set_isDispatching false w2)
    | (Diverge, w2) => (Diverge, w2)
    end.

Definition dispatch (action : value) : M value :=
  fun w =>
    match isPlainObject (heap w) action with
    | Ok false => (Raise (Error msg_action_not_plain), w)
    | Ok true =>
        match Get (heap w) action "type" with
        | Ok t =>
            if is_undefined t
            then (Raise (Error msg_action_type_undefined), w)
            else if isDispatching w
            then (Raise (Error msg_reducers_may_not_dispatch), w)
            else dispatch_reduce action w
        | Raise e => (Raise e, w)
        | Diverge => (Diverge, w)
        end
    | Raise e => (Raise e, w)
    | Diverge => (Diverge, w)
    end.

Definition replaceReducer (nextReducer : value) : M unit :=
  fun w =>
    if negb (is_function nextReducer)
    then (Raise (Error msg_nextReducer_not_function), w)
    else
      let w1 := set_currentReducer nextReducer w in
      let '(l, w2) := alloc (action_of_type ActionTypes_REPLACE) w1 in
      match dispatch (VObj l) w2 with
      | (Ok _, w3) => (Ok tt, w3)
      | (Raise e, w3) => (Raise e, w3)
      | (Diverge, w3) => (Diverge, w3)
      end.

(** [middlewareAPI.dispatch]: [(...args) => dispatch(...args)], where
    [dispatch] is the variable of [applyMiddleware]. The source has one such
    variable for each call of [applyMiddleware]; the world has one, as it
    has one store: [EApiDispatch] is the API of the one call of
    [applyMiddleware] that built the store of this world (an enhancer chain
    that calls [applyMiddleware] more than once is outside the model). *)
Definition api_dispatch (action : value) : M value :=
  fun w =>
    match mw_dispatch w with
    | None => (Raise (Error msg_dispatch_while_constructing), w)
    | Some d => call _ (d action) w
    end.

Definition handle {X : Type} (e : storeE X) : M X :=
  match e in storeE X return M X with
  | EGetState => getState
  | EDispatch action => dispatch action
  | ESubscribe listener => subscribe listener
  | EUnsubscribe token => unsubscribe token
  | EReplaceReducer nextReducer => replaceReducer nextReducer
  | EApiDispatch action => api_dispatch action
  | EAlloc o => fun w => let '(l, w') := alloc o w in (Ok l, w')
  | EGet v key => fun w => (Get (heap w) v key, w)
  | EHeap => fun w => (Ok (heap w), w)
  | EIsPlainObject v => fun w => (isPlainObject (heap w) v, w)
  | EKeys v => fun w => (Ok (Object_keys (heap w) v), w)
  | ELog v => fun w => (Ok tt, set_log (log w ++ [v]) w)
  | ERandomString => fun w => (Ok (randomString (rng w)), set_rng (S (rng w)) w)
  | EWarning message => fun w => (Ok tt, set_warnings (warnings w ++ [message]) w)
  | ECacheNew => fun w => (Ok (length (caches w)), set_caches (caches w ++ [[]]) w)
  | ECacheGet cache key =>
      fun w => (Ok (existsb (String.eqb key) (caches w !!! cache)
                    || inherited (heap w) key), w)
  | ECacheSet cache key =>
      fun w => (Ok tt, set_caches (<[cache := (caches w !!! cache) ++ [key]]> (caches w)) w)
  end.

End Handlers.

(** User code nested [n] calls deep. *)
Fixpoint perform (n : nat) {X : Type} (e : storeE X) : M X :=
  match n with
  | O => fun w => (Diverge, w)
  | S n' => handle n' (fun R => interp (@perform n')) e
  end.

Definition run (n : nat) {R : Type} (p : prog R) : M R := interp (@perform n) p.

(** The store object of a store without enhancer. *)
Definition base_store : Store := {|
  store_dispatch := fun action => trigger (EDispatch action);
  store_subscribe := fun listener => trigger (ESubscribe listener);
  store_getState := trigger EGetState;
  store_replaceReducer := fun nextReducer => trigger (EReplaceReducer nextReducer)
|}.

(** What a function value does when it is called as a store enhancer:
    [enhancer(createStore)(...args)]. *)
Context (enhancers : fid -> nat -> (list value -> M Store) -> list value -> M Store).

Fixpoint createStore (n : nat) (args : list value) (w : world)
  : outcome Store * world :=
  let reducer := arg 0 args in
  let preloadedState := arg 1 args in
  let enhancer := arg 2 args in
  if (is_function preloadedState && is_function enhancer)
     || (is_function enhancer && is_function (arg 3 args))
  then (Raise (Error msg_several_enhancers), w)
  else
    let '(preloadedState, enhancer) :=
      if is_function preloadedState && is_undefined enhancer
      then (VUndef, preloadedState)
      else (preloadedState, enhancer) in
    if negb (is_undefined enhancer) then
      if negb (is_function enhancer)
      then (Raise (Error msg_enhancer_not_function), w)
      else
        match enhancer, n with
        | VFun f, S n' => enhancers f n' (createStore n') [reducer; preloadedState] w
        | _, _ => (Diverge, w)
        end
    else if negb (is_function reducer)
    then (Raise (Error msg_reducer_not_function), w)
    else
      let w1 := set_currentState preloadedState (set_currentReducer reducer w) in
      let '(a, w2) := alloc_array [] w1 in
      let w3 := set_isDispatching false
                  (set_nextListeners a (set_currentListeners (Some a) w2)) in
      let '(l, w4) := alloc (action_of_type ActionTypes_INIT) w3 in
      match perform n (EDispatch (VObj l)) w4 with
      | (Ok _, w5) => (Ok base_store, w5)
      | (Raise e, w5) => (Raise e, w5)
      | (Diverge, w5) => (Diverge, w5)
      end.

(** ** applyMiddleware.js *)

Definition dispatcher : Type := value -> prog value.

(** A middleware [middlewareAPI => next => action => ...]: applied to the
    API it may run code, and yields the function of [next]. *)
Definition middleware : Type := prog (dispatcher -> dispatcher).

(** [middlewares.map(middleware => middleware(middlewareAPI))] *)
Fixpoint map_middlewares (n : nat) (middlewares : list middleware) (w : world)
  : outcome (list (dispatcher -> dispatcher)) * world :=
  match middlewares with
  | [] => (Ok [], w)
  | m :: ms =>
      match run n m w with
      | (Ok c, w1) =>
          match map_middlewares n ms w1 with
          | (Ok cs, w2) => (Ok (c :: cs), w2)
          | (Raise e, w2) => (Raise e, w2)
          | (Diverge, w2) => (Diverge, w2)
          end
      | (Raise e, w1) => (Raise e, w1)
      | (Diverge, w1) => (Diverge, w1)
      end
  end.

Definition applyMiddleware (n : nat) (middlewares : list middleware)
    (createStore : list value -> M Store) (args : list value) : M Store :=
  fun w =>
    match createStore args w with
    | (Ok store, w1) =>
        let w2 := set_mw_dispatch None w1 in
        match map_middlewares n middlewares w2 with
        | (Ok chain, w3) =>
            let dispatch := compose chain (store_dispatch store) in
            (Ok {| store_dispatch := dispatch;
                   store_subscribe := store_subscribe store;
                   store_getState := store_getState store;
                   store_replaceReducer := store_replaceReducer store |},
             set_mw_dispatch (Some dispatch) w3)
        | (Raise e, w3) => (Raise e, w3)
        | (Diverge, w3) => (Diverge, w3)
        end
    | (Raise e, w1) => (Raise e, w1)
    | (Diverge, w1) => (Diverge, w1)
    end.

End Engine.

(** ** combineReducers.js *)

(** [obj[key] = v] on a property list. *)
Fixpoint set_prop (key : string) (v : value) (ps : list (string * value))
  : list (string * value) :=
  match ps with
  | [] => [(key, v)]
  | (k, x) :: ps' =>
      if String.eqb k key then (k, v) :: ps' else (k, x) :: set_prop key v ps'
  end.

(** [obj[key]] on a property list. *)
Definition prop (key : string) (ps : list (string * value)) : value :=
  match assoc key ps with
  | Some v => v
  | None => VUndef
  end.

(** The closure of [combination]. *)
Record combined : Type := Combined {
  finalReducers : list (string * value);
  finalReducerKeys : list string;
  unexpectedKeyCache : option nat;     (* [None]: never assigned *)
  shapeAssertionError : option exn     (* [None]: never assigned *)
}.

Definition msg_undefined_during_initialization (key : string) : string :=
  "Reducer " +:+ dquote +:+ key +:+ dquote +:+ " returned undefined during initialization. " +:+
  "If the state passed to the reducer is undefined, you must " +:+
  "explicitly return the initial state. The initial state may " +:+
  "not be undefined. If you don't want to set a value for this reducer, " +:+
  "you can use null instead of undefined.".

Definition msg_undefined_when_probed (INIT key : string) : string :=
  "Reducer " +:+ dquote +:+ key +:+ dquote +:+ " returned undefined when probed with a random type. " +:+
  "Don't try to handle " +:+ INIT +:+ " or other actions in " +:+ dquote +:+ "redux/*" +:+ dquote +:+ " " +:+
  "namespace. They are considered private. Instead, you must return the " +:+
  "current state for any unknown actions, unless it is undefined, " +:+
  "in which case you must return the initial state, regardless of the " +:+
  "action type. The initial state may not be undefined, but can be null.".

Definition msg_undefined_state (actionDescription key : string) : string :=
  "Given " +:+ actionDescription +:+ ", reducer " +:+ dquote +:+ key +:+ dquote +:+ " returned undefined. " +:+
  "To ignore an action, you must explicitly return the previous state. " +:+
  "If you want this reducer to hold no value, you can return null instead of undefined.".

Definition msg_no_reducer_provided (key : string) : string :=
  "No reducer provided for key " +:+ dquote +:+ key +:+ dquote.

Definition msg_no_valid_reducer : string :=
  "Store does not have a valid reducer. Make sure the argument passed " +:+
  "to combineReducers is an object whose values are reducers.".

(** [xs.join(sep)] *)
Fixpoint join (sep : string) (xs : list string) : string :=
  match xs with
  | [] => ""
  | [x] => x
  | x :: xs' => x +:+ sep +:+ join sep xs'
  end.

Definition quoted_list (xs : list string) : string :=
  dquote +:+ join (dquote +:+ ", " +:+ dquote) xs +:+ dquote.

Definition msg_unexpected_type (argumentName tag : string) (reducerKeys : list string)
  : string :=
  "The " +:+ argumentName +:+ " has unexpected type of " +:+ dquote +:+
  tag +:+
  dquote +:+ ". Expected argument to be an object with the following " +:+
  "keys: " +:+ quoted_list reducerKeys.

Definition msg_unexpected_keys (argumentName : string)
    (unexpectedKeys reducerKeys : list string) : string :=
  "Unexpected " +:+ (if (1 <? length unexpectedKeys)%nat then "keys" else "key") +:+ " " +:+
  quoted_list unexpectedKeys +:+ " found in " +:+ argumentName +:+ ". " +:+
  "Expected to find one of the known reducer keys instead: " +:+
  quoted_list reducerKeys +:+ ". Unexpected keys will be ignored.".

(** [{}.toString.call(v).match(/\s([a-z|A-Z]+)/)[1]] *)
Definition toString_tag (v : value) : string :=
  match v with
  | VUndef => "Undefined"
  | VNull => "Null"
  | VBool _ => "Boolean"
  | VNum _ => "Number"
  | VStr _ => "String"
  | VFun _ => "Function"
  | VObj _ => "Object"
  end.

(** [if (e)] on a caught exception: error objects are truthy. *)
Definition exn_truthy (e : exn) : bool :=
  match e with
  | Error _ | TypeError _ => true
  | Thrown v => truthy v
  end.

Section Combinator.

Context (fn : fid -> list value -> prog value).
Context (randomString : nat -> string).
(** [process.env.NODE_ENV === 'production'] *)
Context (production : bool).

(** [f(...args)] inside user code. *)
Definition call_fn (f : value) (args : list value) : prog value :=
  match f with
  | VFun id => fn id args
  | _ => Throw (TypeError "is not a function")
  end.

(** [action && action.type === t] *)
Definition action_has_type (action : value) (t : string) : prog bool :=
  if truthy action
  then let* actionType := trigger (EGet action "type") in
       Ret (strict_eq actionType (VStr t))
  else Ret false.

Definition getUndefinedStateErrorMessage (key : string) (action : value)
  : prog string :=
  let* actionType :=
    if truthy action then trigger (EGet action "type") else Ret action in
  let actionDescription :=
    if truthy actionType
    then "action " +:+ dquote +:+ String_ actionType +:+ dquote
    else "an action" in
  Ret (msg_undefined_state actionDescription key).

(** [unexpectedKeyCache[key]] and [unexpectedKeyCache[key] = true]; the cache
    is undefined in the production build. The cache is an object literal:
    reading [key] from it finds the key it was given or the property of
    that name of [Object.prototype]. *)
Definition cache_get (unexpectedKeyCache : option nat) (key : string) : prog bool :=
  match unexpectedKeyCache with
  | Some cache => trigger (ECacheGet cache key)
  | None => Throw (TypeError "Cannot read properties of undefined")
  end.

Definition cache_set (unexpectedKeyCache : option nat) (key : string) : prog unit :=
  match unexpectedKeyCache with
  | Some cache => trigger (ECacheSet cache key)
  | None => Throw (TypeError "Cannot set properties of undefined")
  end.

(** [keys.filter(key => !reducers.hasOwnProperty(key) && !unexpectedKeyCache[key])] *)
Fixpoint filter_unexpected (reducers : list (string * value))
    (unexpectedKeyCache : option nat) (keys : list string) : prog (list string) :=
  match keys with
  | [] => Ret []
  | key :: keys' =>
      let* keep :=
        if existsb (String.eqb key) (map fst reducers) then Ret false
        else let* cached := cache_get unexpectedKeyCache key in Ret (negb cached) in
      let* rest := filter_unexpected reducers unexpectedKeyCache keys' in
      Ret (if keep : bool then key :: rest else rest)
  end.

(** [None] is the result [undefined]. *)
Definition getUnexpectedStateShapeWarningMessage (inputState : value)
    (reducers : list (string * value)) (action : value)
    (unexpectedKeyCache : option nat) : prog (option string) :=
  let reducerKeys := map fst reducers in
  let* isInit := action_has_type action (ActionTypes_INIT randomString) in
  let argumentName :=
    if isInit : bool
    then "preloadedState argument passed to createStore"
    else "previous state received by the reducer" in
  if (length reducerKeys =? 0)%nat
  then Ret (Some msg_no_valid_reducer)
  else
    let* plain := trigger (EIsPlainObject inputState) in
    if negb plain
    then Ret (Some (msg_unexpected_type argumentName (toString_tag inputState) reducerKeys))
    else
      let* keys := trigger (EKeys inputState) in
      let* unexpectedKeys := filter_unexpected reducers unexpectedKeyCache keys in
      let* _ := forEach unexpectedKeys (cache_set unexpectedKeyCache) in
      let* isReplace := action_has_type action (ActionTypes_REPLACE randomString) in
      if isReplace : bool
      then Ret None
      else if (0 <? length unexpectedKeys)%nat
      then Ret (Some (msg_unexpected_keys argumentName unexpectedKeys reducerKeys))
      else Ret None.

(** The callback of [Object.keys(reducers).forEach] in [assertReducerShape]. *)
Definition assertReducerShape_body (reducers : list (string * value))
    (key : string) : prog unit :=
  let reducer := prop key reducers in
  let* a := trigger (EAlloc (action_of_type (ActionTypes_INIT randomString))) in
  let* initialState := call_fn reducer [VUndef; VObj a] in
  if is_undefined initialState
  then Throw (Error (msg_undefined_during_initialization key))
  else
    let* r := trigger ERandomString in
    let* b := trigger (EAlloc (action_of_type ("@@redux/PROBE_UNKNOWN_ACTION" +:+ r))) in
    let* probed := call_fn reducer [VUndef; VObj b] in
    if is_undefined probed
    then Throw (Error (msg_undefined_when_probed (ActionTypes_INIT randomString) key))
    else Ret tt.

Definition assertReducerShape (reducers : list (string * value)) : prog unit :=
  forEach (map fst reducers) (assertReducerShape_body reducers).

(** The [for] loop of [combination]: [hasChanged] and the properties of
    [nextState] so far. *)
Fixpoint combination_loop (c : combined) (state action : value)
    (keys : list string) (hasChanged : bool) (nextState : list (string * value))
  : prog (bool * list (string * value)) :=
  match keys with
  | [] => Ret (hasChanged, nextState)
  | key :: keys' =>
      let reducer := prop key (finalReducers c) in
      let* previousStateForKey := trigger (EGet state key) in
      let* nextStateForKey := call_fn reducer [previousStateForKey; action] in
      if is_undefined nextStateForKey
      then let* errorMessage := getUndefinedStateErrorMessage key action in
           Throw (Error errorMessage)
      else combination_loop c state action keys'
             (hasChanged || negb (strict_eq nextStateForKey previousStateForKey))
             (set_prop key nextStateForKey nextState)
  end.

(** The default parameter [state = {}]. *)
Definition combination_state (state : value) : prog value :=
  if strict_eq state VUndef
  then let* l := trigger (EAlloc (Object (Some ObjectPrototype) [])) in Ret (VObj l)
  else Ret state.

(** [if (shapeAssertionError) { throw shapeAssertionError }] *)
Definition combination_rethrow (c : combined) : prog unit :=
  match shapeAssertionError c with
  | Some e => if exn_truthy e then Throw e else Ret tt
  | None => Ret tt
  end.

(** The block [if (process.env.NODE_ENV !== 'production')] of [combination]. *)
Definition combination_warn (c : combined) (state action : value) : prog unit :=
  if production then Ret tt
  else
    let* warningMessage :=
      getUnexpectedStateShapeWarningMessage state (finalReducers c) action
        (unexpectedKeyCache c) in
    match warningMessage with
    | Some message => trigger (EWarning message)
    | None => Ret tt
    end.

(** [nextState] is local to the call until it is returned; it is put in the
    heap when it escapes. *)
Definition combination (c : combined) (state action : value) : prog value :=
  let* state := combination_state state in
  let* _ := combination_rethrow c in
  let* _ := combination_warn c state action in
  let* r := combination_loop c state action (finalReducerKeys c) false [] in
  if fst r
  then let* l := trigger (EAlloc (Object (Some ObjectPrototype) (snd r))) in Ret (VObj l)
  else Ret state.

(** The first loop of [combineReducers]: warns about the keys without value
    and keeps the keys whose value is a function. *)
Fixpoint filter_reducers (reducers : list (string * value)) (keys : list string)
    (finalReducers : list (string * value)) : prog (list (string * value)) :=
  match keys with
  | [] => Ret finalReducers
  | key :: keys' =>
      let* _ :=
        if negb production && is_undefined (prop key reducers)
        then trigger (EWarning (msg_no_reducer_provided key))
        else Ret tt in
      filter_reducers reducers keys'
        (if is_function (prop key reducers)
         then set_prop key (prop key reducers) finalReducers
         else finalReducers)
  end.

Definition combineReducers (reducers : list (string * value)) : prog combined :=
  let reducerKeys := map fst reducers in
  let* finalReducers := filter_reducers reducers reducerKeys [] in
  let finalReducerKeys := map fst finalReducers in
  let* unexpectedKeyCache :=
    if negb production
    then let* cache := trigger ECacheNew in Ret (Some cache)
    else Ret None in
  let* shapeAssertionError :=
    try_catch (let* _ := assertReducerShape finalReducers in Ret None)
              (fun e => Ret (Some e)) in
  Ret (Combined finalReducers finalReducerKeys unexpectedKeyCache shapeAssertionError).

End Combinator.

(** ** Notions used to state the properties *)

(** An action that passes the two checks at the head of [dispatch]. *)
Definition valid_action (h : gmap loc object) (a : value) : Prop :=
  isPlainObject h a = Ok true /\
  exists t, Get h a "type" = Ok t /\ is_undefined t = false.

(** A pass-through middleware that records [tag] before calling [next]. *)
Definition tag_middleware (tag : value) : middleware :=
  Ret (fun (next : dispatcher) (action : value) =>
         let* _ := trigger (ELog tag) in next action).

(** The store constructor of a store without enhancers, and the enhancer
    [createStore => createStore]. *)
Definition identity_enhancer : fid -> nat -> (list value -> M Store) -> list value -> M Store :=
  fun _ _ createStore => createStore.

(** ** Sample programs and worlds, for concrete runs *)

Definition sample_randomString (n : nat) : string := "." +:+ pretty n.

(** What a caught exception prints as. *)
Definition exn_message (e : exn) : value :=
  match e with
  | Error msg | TypeError msg => VStr msg
  | Thrown v => v
  end.

(** A counter, as a function of the heap, the state and the action. *)
Definition sample_counter (h : gmap loc object) (s a : value) : value :=
  match s with
  | VUndef => VNum 0
  | VNum n =>
      match Get h a "type" with
      | Ok (VStr "inc") => VNum (n + 1)
      | _ => VNum n
      end
  | v => v
  end.

(** 0: a counter reducer; 1: a listener that records "L1"; 2: a listener that
    subscribes listener 1 and records "L2"; 3: a listener that calls the
    [unsubscribe] of the second subscription and records "L3"; 4: a reducer
    that calls [getState] and [dispatch], records what they threw and
    returns its state; 5: a reducer that throws; 6: the reducer
    [sample_counter]; 10: a reducer with initial state 1 that ignores every
    action; 11: the counter again, with initial state 2; 13: a reducer that
    returns undefined for the action type "inc"; 14: a reducer that reads
    the state with [getState]; 15: a reducer that dispatches its action
    again; other numbers: a function that returns undefined. *)
Definition sample_fn (f : fid) (args : list value) : prog value :=
  match f with
  | 0%nat =>
      let* t := trigger (EGet (arg 1 args) "type") in
      match arg 0 args with
      | VUndef => Ret (VNum 0)
      | VNum n => if strict_eq t (VStr "inc") then Ret (VNum (n + 1)) else Ret (VNum n)
      | v => Ret v
      end
  | 1%nat => let* _ := trigger (ELog (VStr "L1")) in Ret VUndef
  | 2%nat =>
      let* _ := trigger (ESubscribe (VFun 1%nat)) in
      let* _ := trigger (ELog (VStr "L2")) in Ret VUndef
  | 3%nat =>
      let* _ := trigger (EUnsubscribe 1%nat) in
      let* _ := trigger (ELog (VStr "L3")) in Ret VUndef
  | 4%nat =>
      Vis EGetState (fun r1 =>
      let* _ := match r1 with
                | inl e => trigger (ELog (exn_message e))
                | inr _ => Ret tt
                end in
      Vis (EDispatch (arg 1 args)) (fun r2 =>
      let* _ := match r2 with
                | inl e => trigger (ELog (exn_message e))
                | inr _ => Ret tt
                end in
      Ret (VNum 0)))
  | 5%nat => Throw (Error "boom")
  | 6%nat => let* h := trigger EHeap in Ret (sample_counter h (arg 0 args) (arg 1 args))
  | 10%nat =>
      match arg 0 args with
      | VUndef => Ret (VNum 1)
      | v => Ret v
      end
  | 11%nat =>
      let* t := trigger (EGet (arg 1 args) "type") in
      match arg 0 args with
      | VUndef => Ret (VNum 2)
      | VNum n => if strict_eq t (VStr "inc") then Ret (VNum (n + 1)) else Ret (VNum n)
      | v => Ret v
      end
  | 13%nat =>
      let* t := trigger (EGet (arg 1 args) "type") in
      if strict_eq t (VStr "inc") then Ret VUndef
      else match arg 0 args with
           | VUndef => Ret (VNum 0)
           | v => Ret v
           end
  | 14%nat => let* s := trigger EGetState in Ret s
  | 15%nat => let* v := trigger (EDispatch (arg 1 args)) in Ret (arg 0 args)
  | _ => Ret VUndef
  end.

(** A heap with [Object.prototype] (1), a class prototype (2), an instance
    of the class (3), the literal [{}] (4), [{ type: "inc" }] (5) and
    [{ a: 1, b: 2, x: 9 }] (6). *)
Definition sample_heap : gmap loc object :=
  {[ 1%positive := Object None [];
     2%positive := Object (Some 1%positive) [];
     3%positive := Object (Some 2%positive) [("type", VStr "inc")];
     4%positive := Object (Some 1%positive) [];
     5%positive := Object (Some 1%positive) [("type", VStr "inc")];
     6%positive := Object (Some 1%positive)
                     [("a", VNum 1); ("b", VNum 2); ("x", VNum 9)] ]}.

Definition sample_world : world :=
  World sample_heap ∅ [] [] 2 [] [] None VUndef VUndef None 1%positive false.

(** ** What user code cannot change *)

(** A listener array that no [subscribe] or [unsubscribe] will write to: it
    exists, and if it is the draft [nextListeners] then it is also the
    committed [currentListeners], so that the next mutation copies it. *)
Definition protected (w : world) (a : loc) : Prop :=
  is_Some (arrays w !! a) /\
  (a = nextListeners w -> currentListeners w = Some a).

(** What holds between the world before and after any code that returns or
    throws. *)
Record frame (w w' : world) : Prop := Frame {
  frame_heap : heap w ⊆ heap w';
  frame_dispatching :
    isDispatching w = true ->
    isDispatching w' = true /\ currentState w' = currentState w;
  frame_idle : isDispatching w = false -> isDispatching w' = false;
  frame_arrays :
    forall a, protected w a -> protected w' a /\ arrays w' !! a = arrays w !! a
}.

(** A way of running user code that stays within the frame. *)
Definition respects_frame (call : forall R : Type, prog R -> M R) : Prop :=
  forall (R : Type) (p : prog R) (w : world) (o : outcome R) (w' : world),
    call R p w = (o, w') -> o <> Diverge -> frame w w'.

(** The notification loop over a fixed list of listeners. *)
Fixpoint notify_snapshot (fn : fid -> list value -> prog value)
    (call : forall R : Type, prog R -> M R)
    (b : nat) (snapshot : list value) (w : world) : outcome unit * world :=
  match b with
  | O => (Diverge, w)
  | S b' =>
      match snapshot with
      | [] => (Ok tt, w)
      | listener :: rest =>
          match call_function fn call listener [] w with
          | (Ok _, w') => notify_snapshot fn call b' rest w'
          | (Raise e, w') => (Raise e, w')
          | (Diverge, w') => (Diverge, w')
          end
      end
  end.

(** The sample world once [createStore(reducer)] has run, for reducer 0. *)
Definition sample_store_world : world :=
  snd (createStore sample_fn sample_randomString identity_enhancer 2
         [VFun 0%nat] sample_world).

(** The same store with the re-entrant reducer 4 (and once an action has
    been dispatched to it), with the reducers 14 and 15, which do not catch
    what the store throws, and with the throwing reducer 5. *)
Definition sample_reentrant_world : world :=
  set_currentReducer (VFun 4%nat) sample_store_world.

Definition sample_reentered_world : world :=
  snd (run sample_fn sample_randomString 3
         (store_dispatch base_store (VObj 5%positive)) sample_reentrant_world).

Definition sample_reading_world : world :=
  set_currentReducer (VFun 14%nat) sample_store_world.

Definition sample_redispatching_world : world :=
  set_currentReducer (VFun 15%nat) sample_store_world.

Definition sample_throwing_world : world :=
  set_currentReducer (VFun 5%nat) sample_store_world.

(** Then listeners 3, 1 and 2 subscribe, and one action is dispatched. *)
Definition sample_subscribed_world : world :=
  snd (run sample_fn sample_randomString 1
         (let* _ := store_subscribe base_store (VFun 3%nat) in
          let* _ := store_subscribe base_store (VFun 1%nat) in
          store_subscribe base_store (VFun 2%nat))
         sample_store_world).

Definition sample_listening_world : world :=
  snd (run sample_fn sample_randomString 8
         (let* _ := store_subscribe base_store (VFun 3%nat) in
          let* _ := store_subscribe base_store (VFun 1%nat) in
          let* _ := store_subscribe base_store (VFun 2%nat) in
          store_dispatch base_store (VObj 5%positive))
         sample_store_world).



(** ** Notions used for the reducer combinator *)

(** The [finalReducers] that the first loop of [combineReducers(reducers)]
    computes, and the closure that [combineReducers] returns with the cache
    [cache] when the shape check left [err]. *)
Fixpoint kept_reducers (reducers : list (string * value)) (keys : list string)
    (finalReducers : list (string * value)) : list (string * value) :=
  match keys with
  | [] => finalReducers
  | key :: keys' =>
      kept_reducers reducers keys'
        (if is_function (prop key reducers)
         then set_prop key (prop key reducers) finalReducers
         else finalReducers)
  end.

Definition final_reducers (reducers : list (string * value)) : list (string * value) :=
  kept_reducers reducers (map fst reducers) [].

(** The entries of a reducer mapping whose value is a function. *)
Definition function_entries (reducers : list (string * value)) : list (string * value) :=
  List.filter (fun kv => is_function (snd kv)) reducers.

Definition closure (reducers : list (string * value)) (cache : option nat)
    (err : option exn) : combined :=
  Combined (final_reducers reducers) (map fst (final_reducers reducers)) cache err.

(** What [combineReducers] does before the shape check; the result is the
    cache. *)
Definition combineReducers_setup (production : bool) (reducers : list (string * value))
  : prog (option nat) :=
  let* _ := filter_reducers production reducers (map fst reducers) [] in
  if negb production
  then let* cache := trigger ECacheNew in Ret (Some cache)
  else Ret None.

(** What [combination] does before its loop; the result is the state that
    the loop works on. *)
Definition combination_entry (randomString : nat -> string) (production : bool)
    (c : combined) (state action : value) : prog value :=
  let* state := combination_state state in
  let* _ := combination_rethrow c in
  let* _ := combination_warn randomString production c state action in
  Ret state.

(** What one sub-reducer did in a call of [combination]: its key, the slice
    it received and the slice it returned. *)
Record slice : Type := Slice {
  slice_key : string;
  slice_previous : value;
  slice_next : value
}.

(** [nextStateForKey !== previousStateForKey] *)
Definition slice_changed (s : slice) : bool :=
  negb (strict_eq (slice_next s) (slice_previous s)).

(** [nextState] after the sub-reducers of [slices] have run. *)
Definition next_state (slices : list slice) (nextState : list (string * value))
  : list (string * value) :=
  fold_left (fun ps s => set_prop (slice_key s) (slice_next s) ps) slices nextState.

(** The sub-reducers of [keys], called in order from world [w] on their
    slices of [state], return the defined values recorded in the slices and
    leave world [w']. *)
Inductive reduces (fn : fid -> list value -> prog value) (randomString : nat -> string)
    (n : nat) (c : combined) (state action : value)
  : list string -> world -> list slice -> world -> Prop :=
| reduces_nil (w : world) :
    reduces fn randomString n c state action [] w [] w
| reduces_cons (key : string) (keys : list string) (w w1 w2 : world)
    (previous next : value) (slices : list slice) :
    Get (heap w) state key = Ok previous ->
    run fn randomString (S n)
      (call_fn fn (prop key (finalReducers c)) [previous; action]) w = (Ok next, w1) ->
    is_undefined next = false ->
    reduces fn randomString n c state action keys w1 slices w2 ->
    reduces fn randomString n c state action (key :: keys) w
      (Slice key previous next :: slices) w2.

(** The shape check of the reducer of [key], started in world [w], finds
    that it returns undefined, for the INIT action or for the random probe,
    and throws [e] in world [w']. *)
Inductive probe_undefined (fn : fid -> list value -> prog value)
    (randomString : nat -> string) (n : nat) (reducers : list (string * value))
    (key : string) (w : world) : exn -> world -> Prop :=
| probe_undefined_INIT (w' : world) :
    run fn randomString (S n)
      (call_fn fn (prop key reducers)
         [VUndef; VObj (fst (alloc (action_of_type (ActionTypes_INIT randomString)) w))])
      (snd (alloc (action_of_type (ActionTypes_INIT randomString)) w))
    = (Ok VUndef, w') ->
    probe_undefined fn randomString n reducers key w
      (Error (msg_undefined_during_initialization key)) w'
| probe_undefined_random (initialState : value) (w1 w' : world) :
    run fn randomString (S n)
      (call_fn fn (prop key reducers)
         [VUndef; VObj (fst (alloc (action_of_type (ActionTypes_INIT randomString)) w))])
      (snd (alloc (action_of_type (ActionTypes_INIT randomString)) w))
    = (Ok initialState, w1) ->
    is_undefined initialState = false ->
    let probe := action_of_type ("@@redux/PROBE_UNKNOWN_ACTION" +:+ randomString (rng w1)) in
    let w2 := set_rng (S (rng w1)) w1 in
    run fn randomString (S n)
      (call_fn fn (prop key reducers) [VUndef; VObj (fst (alloc probe w2))])
      (snd (alloc probe w2))
    = (Ok VUndef, w') ->
    probe_undefined fn randomString n reducers key w
      (Error (msg_undefined_when_probed (ActionTypes_INIT randomString) key)) w'.

(** The default parameter [state = {}] of [combination]: the state the body
    works on, and the world once the empty object is allocated. *)
Definition default_state (state : value) (w : world) : value * world :=
  if strict_eq state VUndef
  then (VObj (fst (alloc (Object (Some ObjectPrototype) []) w)),
        snd (alloc (Object (Some ObjectPrototype) []) w))
  else (state, w).

(** An executable form of [reduces]. *)
Fixpoint run_slices (fn : fid -> list value -> prog value) (randomString : nat -> string)
    (n : nat) (c : combined) (state action : value) (keys : list string) (w : world)
  : option (list slice * world) :=
  match keys with
  | [] => Some ([], w)
  | key :: keys' =>
      match Get (heap w) state key with
      | Ok previous =>
          match run fn randomString (S n)
                  (call_fn fn (prop key (finalReducers c)) [previous; action]) w with
          | (Ok next, w1) =>
              if is_undefined next then None
              else
                match run_slices fn randomString n c state action keys' w1 with
                | Some (slices, w2) => Some (Slice key previous next :: slices, w2)
                | None => None
                end
          | _ => None
          end
      | _ => None
      end
  end.

(** [{ a: reducer 10, b: reducer 11, skip: 3 }] *)
Definition sample_reducers : list (string * value) :=
  [("a", VFun 10%nat); ("b", VFun 11%nat); ("skip", VNum 3)].

(** Their combination in the development build, with cache 0, and a call
    of it on the state [{ a: 1, b: 2, x: 9 }]. *)
Definition sample_closure : combined := closure sample_reducers (Some 0%nat) None.

Definition sample_dev_world : world := set_caches [[]] sample_world.

(** The world in which [combineReducers] has returned that combination. *)
Definition sample_built_world : world :=
  snd (run sample_fn sample_randomString 2
         (combineReducers sample_fn sample_randomString false sample_reducers)
         sample_world).

Definition sample_combination (action : value) : prog value :=
  combination sample_fn sample_randomString false sample_closure (VObj 6%positive) action.

(** [{ good: reducer 10, bad: a reducer that returns undefined }] *)
Definition sample_bad_reducers : list (string * value) :=
  [("good", VFun 10%nat); ("bad", VFun 99%nat)].

(** [{ a: reducer 10, c: reducer 13 }], and the table in which function 20
    is the combination of these. *)
Definition sample_live_reducers : list (string * value) :=
  [("a", VFun 10%nat); ("c", VFun 13%nat)].

Definition sample_combined_world : world :=
  set_caches [[]]
    (set_currentState (VObj 6%positive) (set_currentReducer (VFun 20%nat) sample_world)).

Definition sample_fn_combined (f : fid) (args : list value) : prog value :=
  match f with
  | 20%nat =>
      combination sample_fn sample_randomString false
        (closure sample_live_reducers (Some 0%nat) None)
        (nth 0 args VUndef) (nth 1 args VUndef)
  | _ => sample_fn f args
  end.

(** ** bindActionCreators.js *)

(** A function that the library makes at run time, as the code that calls it
    sees it. ([this] is not modelled.) *)
Definition bound_function : Type := list value -> prog value.

(** The keys among [keys] that have not been visited yet, each once. *)
Fixpoint add_unseen (keys seen : list string) : list string :=
  match keys with
  | [] => []
  | key :: keys' =>
      if existsb (String.eqb key) seen then add_unseen keys' seen
      else key :: add_unseen keys' (key :: seen)
  end.

(** The keys that [for (const key in obj)] visits: the own enumerable
    properties, then those of the prototypes that are not shadowed. *)
Fixpoint for_in_keys (fuel : nat) (h : gmap loc object) (l : loc) (seen : list string)
  : outcome (list string) :=
  match fuel with
  | O => Diverge
  | S fuel' =>
      match h !! l with
      | None => Ok []
      | Some o =>
          let own := add_unseen (map fst (props o)) seen in
          match proto o with
          | None => Ok own
          | Some p =>
              match for_in_keys fuel' h p (own ++ seen) with
              | Ok inherited => Ok (own ++ inherited)
              | Raise e => Raise e
              | Diverge => Diverge
              end
          end
      end
  end.

(** [boundActionCreators[key] = f] and [boundActionCreators[key]]. *)
Fixpoint set_bound (key : string) (f : bound_function)
    (ps : list (string * bound_function)) : list (string * bound_function) :=
  match ps with
  | [] => [(key, f)]
  | (k, x) :: ps' =>
      if String.eqb k key then (k, f) :: ps' else (k, x) :: set_bound key f ps'
  end.


Definition msg_bindActionCreators (received : string) : string :=
  "bindActionCreators expected an object or a function, instead received " +:+
  received +:+ ". " +:+
  "Did you write " +:+ dquote +:+ "import ActionCreators from" +:+ dquote +:+
  " instead of " +:+ dquote +:+ "import * as ActionCreators from" +:+ dquote +:+ "?".

(** What [bindActionCreators] returns: a function, or an object of
    functions. *)
Inductive bound : Type :=
| BoundFunction (f : bound_function)
| BoundObject (ps : list (string * bound_function)).

Section BindActionCreators.

Context (fn : fid -> list value -> prog value).

(** [function() { return dispatch(actionCreator.apply(this, arguments)) }] *)
Definition bindActionCreator (actionCreator : value) (dispatch : dispatcher)
  : bound_function :=
  fun args =>
    let* action := call_fn fn actionCreator args in
    dispatch action.

(** The body of the [for ... in] loop, over the keys still to visit. *)
Fixpoint bind_each (h : gmap loc object) (actionCreators : value) (dispatch : dispatcher)
    (keys : list string) (boundActionCreators : list (string * bound_function))
  : outcome (list (string * bound_function)) :=
  match keys with
  | [] => Ok boundActionCreators
  | key :: keys' =>
      match Get h actionCreators key with
      | Ok actionCreator =>
          bind_each h actionCreators dispatch keys'
            (if is_function actionCreator
             then set_bound key (bindActionCreator actionCreator dispatch)
                    boundActionCreators
             else boundActionCreators)
      | Raise e => Raise e
      | Diverge => Diverge
      end
  end.

(** [dispatch] is given as the function that it is; the result reads the
    heap [h] and allocates nothing in it. *)
Definition bindActionCreators (h : gmap loc object) (actionCreators : value)
    (dispatch : dispatcher) : outcome bound :=
  if is_function actionCreators
  then Ok (BoundFunction (bindActionCreator actionCreators dispatch))
  else if negb (String.eqb (typeof actionCreators) "object")
          || bool_decide (actionCreators = VNull)
  then Raise (Error (msg_bindActionCreators
                       (if bool_decide (actionCreators = VNull) then "null"
                        else typeof actionCreators)))
  else
    match actionCreators with
    | VObj l =>
        match for_in_keys (S (size h)) h l [] with
        | Ok keys =>
            match bind_each h actionCreators dispatch keys [] with
            | Ok boundActionCreators => Ok (BoundObject boundActionCreators)
            | Raise e => Raise e
            | Diverge => Diverge
            end
        | Raise e => Raise e
        | Diverge => Diverge
        end
    | _ => Ok (BoundObject [])
    end.

End BindActionCreators.

(** ** The observable adapter of createStore.js *)

Section ObservableAdapter.

Context (fn : fid -> list value -> prog value).

(** The closure [observeState] of [observable().subscribe(observer)]. *)
Definition observeState (observer : value) : prog value :=
  let* next := trigger (EGet observer "next") in
  if truthy next
  then
    let* next := trigger (EGet observer "next") in
    let* state := trigger EGetState in
    let* _ := call_fn fn next [state] in
    Ret VUndef
  else Ret VUndef.

(** [observable().subscribe(observer)]. The closure [observeState] is a
    function value made at run time: [observe] stands for it, and the
    properties assume [fn observe [] = observeState observer]. The result is
    the token of the [unsubscribe] in the object returned. *)
Definition observable_subscribe (observe : fid) (observer : value) : prog nat :=
  if negb (String.eqb (typeof observer) "object") || bool_decide (observer = VNull)
  then Throw (TypeError "Expected the observer to be an object.")
  else
    let* _ := observeState observer in
    trigger (ESubscribe (VFun observe)).

End ObservableAdapter.


(** ** The primitive transitions of the store *)

(** Every change that the library makes to the world is one of these. *)
Inductive step : world -> world -> Prop :=
| step_flag (b : bool) (w : world) : step w (set_isDispatching b w)
| step_state (s : value) (w : world) : step w (set_currentState s w)
| step_commit (w : world) : step w (set_currentListeners (Some (nextListeners w)) w)
| step_reducer (r : value) (w : world) : step w (set_currentReducer r w)
| step_alloc (o : object) (w : world) : step w (snd (alloc o w))
| step_log (v : value) (w : world) : step w (set_log (log w ++ [v]) w)
| step_rng (w : world) : step w (set_rng (S (rng w)) w)
| step_warning (message : string) (w : world) :
    step w (set_warnings (warnings w ++ [message]) w)
| step_cache_new (w : world) : step w (set_caches (caches w ++ [[]]) w)
| step_cache_set (cache : nat) (key : string) (w : world) :
    step w (set_caches (<[cache := (caches w !!! cache) ++ [key]]> (caches w)) w)
| step_subscribe (listener : value) (w : world) (o : outcome nat) (w' : world) :
    subscribe listener w = (o, w') -> step w w'
| step_unsubscribe (token : nat) (w : world) (o : outcome unit) (w' : world) :
    unsubscribe token w = (o, w') -> step w w'.

(** The listeners of the subscriptions that are still subscribed. *)
Definition live_listeners (sb : list (value * bool)) : list value :=
  map fst (List.filter snd sb).

(** The draft listener array holds one entry per live subscription. *)
Definition listeners_inv (w : world) : Prop :=
  arrays w !!! nextListeners w ≡ₚ live_listeners (subs w).

(** A way of running user code that only makes primitive transitions. *)
Definition steps_call (call : forall R : Type, prog R -> M R) : Prop :=
  forall (R : Type) (p : prog R) (w : world) (o : outcome R) (w' : world),
    call R p w = (o, w') -> o <> Diverge -> rtc step w w'.

(** ** Notions used for the warnings of the reducer combinator *)

(** [action && action.type === t], read in heap [h]. *)
Definition action_type_is (h : gmap loc object) (action : value) (t : string) : bool :=
  truthy action &&
  match Get h action "type" with
  | Ok v => strict_eq v (VStr t)
  | _ => false
  end.


(** Its [argumentName]. *)
Definition argument_name (isInit : bool) : string :=
  if isInit
  then "preloadedState argument passed to createStore"
  else "previous state received by the reducer".

(** ** More sample programs and worlds *)

(** The store of [sample_store_world] after one ["inc"] action. *)
Definition sample_dispatched_world : world :=
  snd (run sample_fn sample_randomString 2
         (store_dispatch base_store (VObj 5%positive)) sample_store_world).

(** The store of [sample_store_world] with the throwing function 5 as its
    only listener. *)
Definition sample_throwing_listener_world : world :=
  snd (run sample_fn sample_randomString 1
         (store_subscribe base_store (VFun 5%nat)) sample_store_world).

(** A middleware that dispatches through the API while it is set up. *)
Definition sample_api_middleware : middleware :=
  let* x := Ret tt in
  let* v := trigger (EApiDispatch (VObj 5%positive)) in
  Ret (fun next : dispatcher => next).

(** [{ a: reducer 10, u: undefined, skip: 3 }] *)
Definition sample_sparse_reducers : list (string * value) :=
  [("a", VFun 10%nat); ("u", VUndef); ("skip", VNum 3)].




(** Function 31 records its argument; function 30, called without argument,
    is the closure [observeState] of the observer [{ next: function 31 }]
    (7). *)
Definition sample_fn_next (f : fid) (args : list value) : prog value :=
  match f with
  | 31%nat => let* _ := trigger (ELog (arg 0 args)) in Ret VUndef
  | _ => sample_fn f args
  end.

Definition sample_fn_observed (f : fid) (args : list value) : prog value :=
  match args with
  | [] =>
      match f with
      | 30%nat => observeState sample_fn_next (VObj 7%positive)
      | _ => sample_fn_next f []
      end
  | _ => sample_fn_next f args
  end.

Definition sample_observer_world : world :=
  set_heap (<[7%positive := Object (Some 1%positive) [("next", VFun 31%nat)]]>
              (heap sample_store_world)) sample_store_world.

(** That store once the observer has subscribed through the observable. *)
Definition sample_observed_world : world :=
  snd (run sample_fn_observed sample_randomString 2
         (observable_subscribe sample_fn_observed 30%nat (VObj 7%positive))
         sample_observer_world).

(** The store of [sample_store_world] with the recording listeners 31 and
    1, subscribed in this order. *)
Definition sample_tagged_world : world :=
  snd (run sample_fn_next sample_randomString 1
         (let* _ := store_subscribe base_store (VFun 31%nat) in
          store_subscribe base_store (VFun 1%nat)) sample_store_world).

(** * Properties *)

(** ** Running programs *)

Section RunLemmas.

Context (perform : forall X : Type, storeE X -> M X).

Lemma interp_bind {A B : Type} (p : prog A) (f : A -> prog B) (w : world) :
  interp perform (bind p f) w =
  match interp perform p w with
  | (Ok x, w') => interp perform (f x) w'
  | (Raise e, w') => (Raise e, w')
  | (Diverge, w') => (Diverge, w')
  end.
Proof.
  revert w. induction p as [r|e|X e k IH]; intros w; simpl; try reflexivity.
  destruct (perform X e w) as [[x|err|] w']; simpl; auto.
Qed.

Lemma interp_try_catch {A : Type} (p : prog A) (h : exn -> prog A) (w : world) :
  interp perform (try_catch p h) w =
  match interp perform p w with
  | (Ok x, w') => (Ok x, w')
  | (Raise e, w') => interp perform (h e) w'
  | (Diverge, w') => (Diverge, w')
  end.
Proof.
  revert w. induction p as [r|e|X e k IH]; intros w; simpl; try reflexivity.
  destruct (perform X e w) as [[x|err|] w']; simpl; auto.
Qed.

Lemma interp_trigger {X : Type} (e : storeE X) (w : world) :
  interp perform (trigger e) w = perform X e w.
Proof.
  simpl. destruct (perform X e w) as [[x|err|] w']; reflexivity.
Qed.

End RunLemmas.

Section PerformLemmas.

Context (fn : fid -> list value -> prog value).
Context (randomString : nat -> string).

Lemma perform_get (n : nat) (v : value) (key : string) (w : world) :
  perform fn randomString (S n) (EGet v key) w = (Get (heap w) v key, w).
Proof. reflexivity. Qed.

Lemma perform_alloc (n : nat) (o : object) (w : world) :
  perform fn randomString (S n) (EAlloc o) w = (Ok (fst (alloc o w)), snd (alloc o w)).
Proof. reflexivity. Qed.

Lemma perform_random (n : nat) (w : world) :
  perform fn randomString (S n) ERandomString w
  = (Ok (randomString (rng w)), set_rng (S (rng w)) w).
Proof. reflexivity. Qed.

Lemma perform_log (n : nat) (v : value) (w : world) :
  perform fn randomString (S n) (ELog v) w = (Ok tt, set_log (log w ++ [v]) w).
Proof. reflexivity. Qed.

End PerformLemmas.

(** ** The shape validator *)

Lemma size_ge_2 (h : gmap loc object) (i j : loc) :
  is_Some (h !! i) -> is_Some (h !! j) -> i <> j -> (2 <= size h)%nat.
Proof.
  intros Hi Hj Hne.
  pose proof (map_size_delete_Some i h Hi) as Hd.
  assert (size (delete i h) <> 0%nat) as Hnz.
  { apply (map_size_ne_0_lookup_2 _ j). rewrite lookup_delete_ne; [exact Hj|exact Hne]. }
  lia.
Qed.

(** Primitives, functions and [null] are not plain objects. *)
Lemma isPlainObject_not_object (h : gmap loc object) (v : value) :
  (forall l, v <> VObj l) -> isPlainObject h v = Ok false.
Proof.
  intros Hv. destruct v; try reflexivity. exfalso. eapply Hv. reflexivity.
Qed.

(** An object without prototype ([Object.create(null)]) is not plain. *)
Lemma isPlainObject_null_prototype (h : gmap loc object) (l : loc) (o : object) :
  h !! l = Some o -> proto o = None -> isPlainObject h (VObj l) = Ok false.
Proof.
  intros Hl Hp. unfold isPlainObject. simpl.
  unfold getPrototypeOf. rewrite Hl, Hp. reflexivity.
Qed.

(** An object literal: its prototype is the end of the chain. *)
Lemma isPlainObject_literal (h : gmap loc object) (l r : loc) (o ro : object) :
  h !! l = Some o -> proto o = Some r ->
  h !! r = Some ro -> proto ro = None ->
  isPlainObject h (VObj l) = Ok true.
Proof.
  intros Hl Hp Hr Hrp. unfold isPlainObject. simpl.
  assert (size h <> 0%nat) as Hsz by (apply (map_size_ne_0_lookup_2 _ l); eauto).
  destruct (size h) as [|k]; [congruence|]. simpl.
  unfold getPrototypeOf. rewrite Hl, Hp, Hr, Hrp.
  rewrite bool_decide_eq_true_2; reflexivity.
Qed.

(** A class instance, an array or any object whose prototype has itself a
    prototype is not plain. *)
Lemma isPlainObject_instance (h : gmap loc object) (l c r : loc) (o co ro : object) :
  h !! l = Some o -> proto o = Some c ->
  h !! c = Some co -> proto co = Some r ->
  h !! r = Some ro -> proto ro = None ->
  c <> r ->
  isPlainObject h (VObj l) = Ok false.
Proof.
  intros Hl Hp Hc Hcp Hr Hrp Hne. unfold isPlainObject. simpl.
  assert (2 <= size h)%nat as Hsz by (apply (size_ge_2 h c r); eauto).
  destruct (size h) as [|[|k]]; [lia|lia|]. simpl.
  unfold getPrototypeOf. rewrite Hl, Hp, Hc, Hcp, Hr, Hrp.
  rewrite bool_decide_eq_false_2; [reflexivity|congruence].
Qed.

Section DispatchGuards.

Context (fn : fid -> list value -> prog value).
Context (randomString : nat -> string).

Lemma run_store_dispatch (n : nat) (a : value) (w : world) :
  run fn randomString (S n) (store_dispatch base_store a) w =
  dispatch fn n (fun R => run fn randomString n) a w.
Proof.
  unfold run. simpl store_dispatch. rewrite interp_trigger. reflexivity.
Qed.

Lemma run_store_getState (n : nat) (w : world) :
  run fn randomString (S n) (store_getState base_store) w = getState w.
Proof.
  unfold run. simpl store_getState. rewrite interp_trigger. reflexivity.
Qed.

(** C3. [store.dispatch(v)] throws "Actions must be plain objects." when [v]
    is not a plain object, and "Actions may not have an undefined type
    property." when [v] is a plain object whose [type] is undefined (the
    configuration errors of the spec); in both cases the whole world,
    hence the store, is left as it was. *)
Theorem dispatch_rejects_malformed_action (n : nat) (w : world) (v : value) :
  (isPlainObject (heap w) v = Ok false ->
   run fn randomString (S n) (store_dispatch base_store v) w
   = (Raise (Error msg_action_not_plain), w)) /\
  (isPlainObject (heap w) v = Ok true ->
   Get (heap w) v "type" = Ok VUndef ->
   run fn randomString (S n) (store_dispatch base_store v) w
   = (Raise (Error msg_action_type_undefined), w)).
Proof.
  split.
  - intros Hp. rewrite run_store_dispatch. unfold dispatch. rewrite Hp. reflexivity.
  - intros Hp Ht. rewrite run_store_dispatch. unfold dispatch. rewrite Hp, Ht.
    reflexivity.
Qed.

End DispatchGuards.

Lemma dispatch_rejects_malformed_action_witness :
  run sample_fn sample_randomString 1 (store_dispatch base_store (VObj 3%positive)) sample_world
  = (Raise (Error msg_action_not_plain), sample_world) /\
  run sample_fn sample_randomString 1 (store_dispatch base_store (VObj 4%positive)) sample_world
  = (Raise (Error msg_action_type_undefined), sample_world).
Proof.
  split.
  - apply (proj1 (dispatch_rejects_malformed_action sample_fn sample_randomString
                    0 sample_world (VObj 3%positive))).
    vm_compute. reflexivity.
  - apply (proj2 (dispatch_rejects_malformed_action sample_fn sample_randomString
                    0 sample_world (VObj 4%positive))); vm_compute; reflexivity.
Defined.

(** ** Construction arguments *)

Section Construction.

Context (fn : fid -> list value -> prog value).
Context (randomString : nat -> string).
Context (enhancers : fid -> nat -> (list value -> M Store) -> list value -> M Store).

(** C4, as the code has it. When [enhancer] is callable and [preloadedState]
    or the fourth argument is callable too, [createStore] throws the
    several-enhancers error and changes nothing. *)
Theorem createStore_rejects_several_enhancers (n : nat) (args : list value) (w : world) :
  is_function (arg 2 args) = true ->
  is_function (arg 1 args) = true \/ is_function (arg 3 args) = true ->
  createStore fn randomString enhancers n args w
  = (Raise (Error msg_several_enhancers), w).
Proof.
  intros He Hor.
  assert ((is_function (arg 1 args) && is_function (arg 2 args))
          || (is_function (arg 2 args) && is_function (arg 3 args)) = true) as Hc.
  { rewrite He. destruct Hor as [H|H]; rewrite H; simpl; auto using orb_true_r. }
  destruct n; simpl; rewrite Hc; reflexivity.
Qed.

End Construction.

Lemma createStore_rejects_several_enhancers_witness :
  createStore sample_fn sample_randomString identity_enhancer 3
    [VFun 0%nat; VNum 7; VFun 8%nat; VFun 9%nat] sample_world
  = (Raise (Error msg_several_enhancers), sample_world).
Proof.
  apply createStore_rejects_several_enhancers.
  - reflexivity.
  - right. reflexivity.
Defined.

(** C4 as stated fails: [createStore(reducer, f, undefined, g)] has two
    callable arguments among the three, yet construction succeeds, with [f]
    taken as the enhancer. *)
Lemma createStore_two_callables_counterexample :
  let args := [VFun 0%nat; VFun 8%nat; VUndef; VFun 9%nat] in
  is_function (arg 1 args) = true /\ is_function (arg 3 args) = true /\
  exists w',
    createStore sample_fn sample_randomString identity_enhancer 3 args sample_world
    = (Ok base_store, w').
Proof.
  simpl. split; [reflexivity|]. split; [reflexivity|].
  eexists. vm_compute. reflexivity.
Qed.

(** ** The function pipe and the middleware pipeline *)

Lemma compose_fold_left {A : Type} (rest : list (A -> A)) (a : A -> A) (x : A) :
  fold_left (fun a b => fun args => a (b args)) rest a x
  = a (fold_right (fun f y => f y) x rest).
Proof.
  revert a. induction rest as [|b rest IH]; intros a; simpl; [reflexivity|].
  rewrite IH. reflexivity.
Qed.

(** [compose(f1, ..., fn)(x)] is [f1(...fn(x))]. *)
Lemma compose_apply {A : Type} (funcs : list (A -> A)) (x : A) :
  compose funcs x = fold_right (fun f y => f y) x funcs.
Proof.
  destruct funcs as [|f [|g rest]]; try reflexivity.
  unfold compose. rewrite compose_fold_left. reflexivity.
Qed.

Section Pipeline.

Context (fn : fid -> list value -> prog value).
Context (randomString : nat -> string).

Lemma map_middlewares_tags (n : nat) (t1 t2 : value) (w : world) :
  exists m1 m2,
    map_middlewares fn randomString n [tag_middleware t1; tag_middleware t2] w
    = (Ok [m1; m2], w) /\
    (forall next action, m1 next action = let* _ := trigger (ELog t1) in next action) /\
    (forall next action, m2 next action = let* _ := trigger (ELog t2) in next action).
Proof.
  do 2 eexists. split; [reflexivity|]. split; reflexivity.
Qed.

(** C7. The [dispatch] of the enhanced store is the first middleware applied
    to the second applied to ... the last applied to the [dispatch] of the
    underlying store: the first middleware's code runs first and its [next]
    is the second's, the last one's [next] is the original [dispatch]. For
    [A; B; C] this is [A (B (C dispatch))], and two pass-through middlewares
    that record a tag before calling [next] record [t1] then [t2] before the
    underlying [dispatch] runs. *)
Theorem applyMiddleware_order (n : nat) (middlewares : list middleware)
    (createStore : list value -> M Store) (args : list value)
    (w w1 w3 : world) (store : Store) (chain : list (dispatcher -> dispatcher)) :
  createStore args w = (Ok store, w1) ->
  map_middlewares fn randomString n middlewares (set_mw_dispatch None w1)
  = (Ok chain, w3) ->
  exists store',
    applyMiddleware fn randomString n middlewares createStore args w
    = (Ok store', set_mw_dispatch (Some (store_dispatch store')) w3) /\
    store_dispatch store'
    = fold_right (fun m next => m next) (store_dispatch store) chain /\
    (forall A B C, chain = [A; B; C] ->
       store_dispatch store' = A (B (C (store_dispatch store)))) /\
    (forall t1 t2, middlewares = [tag_middleware t1; tag_middleware t2] ->
       forall m action w',
         run fn randomString (S m) (store_dispatch store' action) w'
         = run fn randomString (S m) (store_dispatch store action)
             (set_log (log w' ++ [t1; t2]) w')).
Proof.
  intros Hc Hm. unfold applyMiddleware. rewrite Hc, Hm.
  exists {| store_dispatch := compose chain (store_dispatch store);
            store_subscribe := store_subscribe store;
            store_getState := store_getState store;
            store_replaceReducer := store_replaceReducer store |}.
  split; [reflexivity|]. simpl store_dispatch.
  split; [apply (compose_apply chain (store_dispatch store))|].
  split.
  - intros A B C ->. reflexivity.
  - intros t1 t2 -> m action w'. simpl in Hm. injection Hm as <- _.
    unfold run. simpl.
    destruct w'; simpl. unfold set_log; simpl. rewrite <- app_assoc. reflexivity.
Qed.

End Pipeline.

Lemma applyMiddleware_order_witness :
  exists store' w',
    applyMiddleware sample_fn sample_randomString 3
      [tag_middleware (VStr "mw1"); tag_middleware (VStr "mw2")]
      (createStore sample_fn sample_randomString identity_enhancer 3)
      [VFun 0%nat] sample_world
    = (Ok store', w') /\
    log (snd (run sample_fn sample_randomString 3
                (store_dispatch store' (VObj 5%positive)) w'))
    = [VStr "mw1"; VStr "mw2"].
Proof.
  destruct (createStore sample_fn sample_randomString identity_enhancer 3
              [VFun 0%nat] sample_world) as [o w1] eqn:Hc.
  vm_compute in Hc. injection Hc as <- <-.
  edestruct (applyMiddleware_order sample_fn sample_randomString 3
               [tag_middleware (VStr "mw1"); tag_middleware (VStr "mw2")]
               (createStore sample_fn sample_randomString identity_enhancer 3)
               [VFun 0%nat] sample_world) as (store' & Happ & _ & _ & Htags).
  - vm_compute. reflexivity.
  - reflexivity.
  - eexists _, _. split; [exact Happ|].
    rewrite (Htags _ _ eq_refl 2%nat). vm_compute. reflexivity.
Defined.

(** ** The frame of user code *)

Lemma frame_refl (w : world) : frame w w.
Proof. split; auto. Qed.

Lemma frame_trans (w1 w2 w3 : world) : frame w1 w2 -> frame w2 w3 -> frame w1 w3.
Proof.
  intros [H1 T1 F1 A1] [H2 T2 F2 A2]. split.
  - etrans; eauto.
  - intros H. destruct (T1 H) as [Ha Hb]. destruct (T2 Ha) as [Hc Hd].
    split; congruence.
  - auto.
  - intros a Ha. destruct (A1 a Ha) as [Hp He]. destruct (A2 a Hp) as [Hp' He'].
    split; congruence.
Qed.

(** Changing only the heap (by growing it), the log, the generator, the
    reducer or the middleware variable is within the frame. *)
Lemma frame_store_unchanged (w w' : world) :
  heap w ⊆ heap w' ->
  arrays w' = arrays w ->
  currentState w' = currentState w ->
  currentListeners w' = currentListeners w ->
  nextListeners w' = nextListeners w ->
  isDispatching w' = isDispatching w ->
  frame w w'.
Proof.
  intros Hh Ha Hs Hc Hn Hd. split.
  - exact Hh.
  - intros H. split; congruence.
  - congruence.
  - intros a [Hx Hy]. unfold protected. rewrite Ha, Hc, Hn. auto.
Qed.

Lemma alloc_heap (o : object) (w : world) :
  heap w ⊆ heap (snd (alloc o w)) /\
  heap (snd (alloc o w)) !! fst (alloc o w) = Some o /\
  heap w !! fst (alloc o w) = None.
Proof.
  unfold alloc. simpl.
  assert (heap w !! fresh (dom (heap w)) = None) as Hf.
  { apply not_elem_of_dom. apply is_fresh. }
  split; [|split].
  - destruct w; simpl in *. apply insert_subseteq. exact Hf.
  - destruct w; simpl in *. apply lookup_insert_eq.
  - exact Hf.
Qed.

Lemma frame_alloc (o : object) (w : world) : frame w (snd (alloc o w)).
Proof.
  apply frame_store_unchanged; try (destruct w; reflexivity).
  apply alloc_heap.
Qed.

Lemma ensureCanMutateNextListeners_spec (w : world) :
  let w' := ensureCanMutateNextListeners w in
  heap w' = heap w /\ currentState w' = currentState w /\
  currentListeners w' = currentListeners w /\
  isDispatching w' = isDispatching w /\
  subs w' = subs w /\
  arrays w' !!! nextListeners w' = arrays w !!! nextListeners w /\
  forall a, protected w a ->
    arrays w' !! a = arrays w !! a /\ a <> nextListeners w'.
Proof.
  unfold ensureCanMutateNextListeners.
  destruct (bool_decide (Some (nextListeners w) = currentListeners w)) eqn:Hb.
  - apply bool_decide_eq_true_1 in Hb.
    assert (arrays w !! fresh (dom (arrays w)) = None) as Hf.
    { apply not_elem_of_dom. apply is_fresh. }
    destruct w; simpl in *. do 5 (split; [reflexivity|]).
    split.
    + rewrite lookup_total_insert_eq. reflexivity.
    + intros a [[x Hx] _]. simpl in Hx.
      assert (a <> fresh (dom arrays0)) as Hne by congruence.
      split; [|exact Hne]. apply lookup_insert_ne. congruence.
  - apply bool_decide_eq_false_1 in Hb. simpl.
    do 6 (split; [reflexivity|]).
    intros a [_ Hn]. split; [reflexivity|].
    intros ->. apply Hb. symmetry. apply Hn. reflexivity.
Qed.

(** Writing to the draft after [ensureCanMutateNextListeners], and then
    possibly clearing [currentListeners], is within the frame. *)
Lemma frame_mutate_draft (w : world) (xs : list value) (sb : list (value * bool))
    (cur : option loc) :
  isDispatching w = false ->
  let w2 := ensureCanMutateNextListeners (set_subs sb w) in
  frame w (set_currentListeners cur
             (set_arrays (<[nextListeners w2 := xs]> (arrays w2)) w2)).
Proof.
  intros Hd w2.
  destruct (ensureCanMutateNextListeners_spec (set_subs sb w))
    as (Hh & Hs & Hc & Hi & _ & _ & Hp). fold w2 in Hh, Hs, Hc, Hi, Hp.
  split.
  - destruct w2; simpl in *. rewrite Hh. destruct w; reflexivity.
  - intros H. congruence.
  - intros _. destruct w2; simpl in *. rewrite Hi. destruct w; simpl in *. exact Hd.
  - intros a Ha.
    assert (protected (set_subs sb w) a) as Ha' by (destruct w; exact Ha).
    destruct (Hp a Ha') as [He Hne].
    assert (arrays (set_subs sb w) !! a = arrays w !! a) as Hsb by (destruct w; reflexivity).
    destruct Ha as [Hx _].
    assert (<[nextListeners w2 := xs]> (arrays w2) !! a = arrays w !! a) as Hl.
    { rewrite lookup_insert_ne by congruence. congruence. }
    split.
    + split.
      * destruct w2; simpl in *. rewrite Hl. exact Hx.
      * destruct w2; simpl in *. intros ->. congruence.
    + destruct w2; simpl in *. exact Hl.
Qed.

Section Frame.

Context (fn : fid -> list value -> prog value).
Context (randomString : nat -> string).

Lemma subscribe_frame (listener : value) (w : world) (o : outcome nat) (w' : world) :
  subscribe listener w = (o, w') -> frame w w'.
Proof.
  unfold subscribe. intros H.
  destruct (negb (is_function listener)); [injection H as <- <-; apply frame_refl|].
  destruct (isDispatching w) eqn:Hd; [injection H as <- <-; apply frame_refl|].
  injection H as <- <-.
  pose proof (frame_mutate_draft w
    (arrays (ensureCanMutateNextListeners (set_subs (subs w ++ [(listener, true)]) w))
       !!! nextListeners (ensureCanMutateNextListeners (set_subs (subs w ++ [(listener, true)]) w))
     ++ [listener])
    (subs w ++ [(listener, true)])
    (currentListeners (ensureCanMutateNextListeners (set_subs (subs w ++ [(listener, true)]) w)))
    Hd) as HF.
  simpl in HF.
  match type of HF with frame _ ?x =>
    match goal with |- frame _ ?y => replace y with x; [exact HF|] end end.
  destruct (ensureCanMutateNextListeners _); reflexivity.
Qed.

Lemma unsubscribe_frame (token : nat) (w : world) (o : outcome unit) (w' : world) :
  unsubscribe token w = (o, w') -> frame w w'.
Proof.
  unfold unsubscribe. intros H.
  destruct (subs w !! token) as [[listener isSubscribed]|];
    [|injection H as <- <-; apply frame_refl].
  destruct (negb isSubscribed); [injection H as <- <-; apply frame_refl|].
  destruct (isDispatching w) eqn:Hd; [injection H as <- <-; apply frame_refl|].
  injection H as <- <-.
  apply (frame_mutate_draft w _ _ None Hd).
Qed.

Lemma call_function_frame (call : forall R : Type, prog R -> M R) :
  respects_frame call ->
  forall f args w o w',
    call_function fn call f args w = (o, w') -> o <> Diverge -> frame w w'.
Proof.
  intros Hcall f args w o w' H Ho.
  destruct f; simpl in H; try (injection H as <- <-; apply frame_refl).
  eapply Hcall; eauto.
Qed.

Lemma notify_frame (call : forall R : Type, prog R -> M R) :
  respects_frame call ->
  forall b listeners i w o w',
    notify fn call b listeners i w = (o, w') -> o <> Diverge -> frame w w'.
Proof.
  intros Hcall b. induction b as [|b IH]; intros listeners i w o w' H Ho; simpl in H.
  - injection H as <- <-. congruence.
  - destruct ((arrays w !!! listeners) !! i) as [listener|];
      [|injection H as <- <-; apply frame_refl].
    destruct (call_function fn call listener [] w) as [[x|e|] w1] eqn:Hc.
    + eapply frame_trans; [|eapply IH; eauto].
      eapply call_function_frame; eauto; discriminate.
    + injection H as <- <-. eapply call_function_frame; eauto.
    + injection H as <- <-. congruence.
Qed.

Lemma dispatch_reduce_frame (b : nat) (call : forall R : Type, prog R -> M R) :
  respects_frame call ->
  forall action w o w',
    isDispatching w = false ->
    dispatch_reduce fn b call action w = (o, w') -> o <> Diverge -> frame w w'.
Proof.
  intros Hcall action w o w' Hd H Ho. unfold dispatch_reduce in H.
  destruct (call_function fn call (currentReducer (set_isDispatching true w))
              [currentState (set_isDispatching true w); action]
              (set_isDispatching true w)) as [[s|e|] w2] eqn:Hc.
  - apply call_function_frame in Hc; [|exact Hcall|discriminate].
    destruct Hc as [Hh _ _ Ha].
    match type of H with
    | match notify _ _ _ ?l _ ?w4 with _ => _ end = _ =>
        destruct (notify fn call b l 0 w4) as [[u|e|] w5] eqn:Hn
    end;
      try (injection H as <- <-);
      try congruence;
      (apply notify_frame in Hn; [|exact Hcall|discriminate]);
      destruct Hn as [Hh' _ Hi' Ha'];
      (split;
       [ etrans; [|exact Hh']; destruct w2; destruct w; exact Hh
       | intros; congruence
       | intros _; apply Hi'; destruct w2; reflexivity
       | intros a Hp;
         assert (protected (set_isDispatching true w) a) as Hp1
             by (destruct w; exact Hp);
         destruct (Ha a Hp1) as [[Hx Hy] He];
         match type of Ha' with
         | forall a, protected ?w4 a -> _ =>
             assert (protected w4 a) as Hp4
                 by (destruct w2; split; [exact Hx|intros ->; reflexivity])
         end;
         destruct (Ha' a Hp4) as [Hp5 He5];
         split; [exact Hp5|];
         rewrite He5; destruct w2; destruct w; exact He ]).
  - injection H as <- <-.
    apply call_function_frame in Hc; [|exact Hcall|discriminate].
    destruct Hc as [Hh _ _ Ha]. split.
    + destruct w2; destruct w; exact Hh.
    + intros; congruence.
    + intros _. destruct w2; reflexivity.
    + intros a Hp.
      assert (protected (set_isDispatching true w) a) as Hp1 by (destruct w; exact Hp).
      destruct (Ha a Hp1) as [Hp2 He]. split.
      * destruct w2; exact Hp2.
      * destruct w2; destruct w; exact He.
  - injection H as <- <-. congruence.
Qed.

Lemma dispatch_frame (b : nat) (call : forall R : Type, prog R -> M R) :
  respects_frame call ->
  forall action w o w',
    dispatch fn b call action w = (o, w') -> o <> Diverge -> frame w w'.
Proof.
  intros Hcall action w o w' H Ho. unfold dispatch in H.
  destruct (isPlainObject (heap w) action) as [[|]|e|];
    try (injection H as <- <-; apply frame_refl).
  destruct (Get (heap w) action "type") as [t|e|];
    try (injection H as <- <-; apply frame_refl).
  destruct (is_undefined t); [injection H as <- <-; apply frame_refl|].
  destruct (isDispatching w) eqn:Hd; [injection H as <- <-; apply frame_refl|].
  eapply dispatch_reduce_frame; eauto.
Qed.

Lemma replaceReducer_frame (b : nat) (call : forall R : Type, prog R -> M R) :
  respects_frame call ->
  forall nextReducer w o w',
    replaceReducer fn randomString b call nextReducer w = (o, w') ->
    o <> Diverge -> frame w w'.
Proof.
  intros Hcall nextReducer w o w' H Ho. unfold replaceReducer in H.
  destruct (negb (is_function nextReducer)); [injection H as <- <-; apply frame_refl|].
  destruct (alloc (action_of_type (ActionTypes_REPLACE randomString))
              (set_currentReducer nextReducer w)) as [l w2] eqn:Hal.
  assert (frame w w2) as Hf.
  { eapply frame_trans; [|pose proof (frame_alloc (action_of_type (ActionTypes_REPLACE randomString))
                                       (set_currentReducer nextReducer w)) as HF;
                          rewrite Hal in HF; exact HF].
    apply frame_store_unchanged; destruct w; reflexivity. }
  destruct (dispatch fn b call (VObj l) w2) as [[x|e|] w3] eqn:Hdp;
    injection H as <- <-; try congruence;
    (eapply frame_trans; [exact Hf|]);
    (eapply dispatch_frame; [exact Hcall|exact Hdp|discriminate]).
Qed.

Lemma handle_frame (b : nat) (call : forall R : Type, prog R -> M R) :
  respects_frame call ->
  forall (X : Type) (e : storeE X) w o w',
    handle fn randomString b call e w = (o, w') -> o <> Diverge -> frame w w'.
Proof.
  intros Hcall X e w o w' H Ho. destruct e; simpl in H.
  - unfold getState in H. destruct (isDispatching w); injection H as <- <-; apply frame_refl.
  - eapply dispatch_frame; eauto.
  - eapply subscribe_frame; eauto.
  - eapply unsubscribe_frame; eauto.
  - eapply replaceReducer_frame; eauto.
  - unfold api_dispatch in H. destruct (mw_dispatch w).
    + eapply Hcall; eauto.
    + injection H as <- <-. apply frame_refl.
  - injection H as <- <-. apply frame_alloc.
  - injection H as <- <-. apply frame_refl.
  - injection H as <- <-. apply frame_refl.
  - injection H as <- <-. apply frame_refl.
  - injection H as <- <-. apply frame_refl.
  - injection H as <- <-. apply frame_store_unchanged; destruct w; reflexivity.
  - injection H as <- <-. apply frame_store_unchanged; destruct w; reflexivity.
  - injection H as <- <-. apply frame_store_unchanged; destruct w; reflexivity.
  - injection H as <- <-. apply frame_store_unchanged; destruct w; reflexivity.
  - injection H as <- <-. apply frame_refl.
  - injection H as <- <-. apply frame_store_unchanged; destruct w; reflexivity.
Qed.

Lemma interp_frame (perform : forall X : Type, storeE X -> M X) :
  (forall X e w o w', perform X e w = (o, w') -> o <> Diverge -> frame w w') ->
  forall (R : Type) (p : prog R) w o w',
    interp perform p w = (o, w') -> o <> Diverge -> frame w w'.
Proof.
  intros Hp R p. induction p as [r|e|X e k IH]; intros w o w' H Ho; simpl in H.
  - injection H as <- <-. apply frame_refl.
  - injection H as <- <-. apply frame_refl.
  - destruct (perform X e w) as [[x|err|] w1] eqn:He.
    + eapply frame_trans; [eapply Hp; [exact He|discriminate]|eapply IH; eauto].
    + eapply frame_trans; [eapply Hp; [exact He|discriminate]|eapply IH; eauto].
    + injection H as <- <-. congruence.
Qed.

(** Whatever user code does, with whatever nesting, stays within the frame. *)
Lemma run_frame (n : nat) : respects_frame (fun R => run fn randomString n).
Proof.
  induction n as [|n IH]; intros R p w o w' H Ho.
  - eapply (interp_frame (@perform fn randomString 0)); eauto.
    intros X e w0 o0 w0' H0 Ho0. simpl in H0. injection H0 as <- <-. congruence.
  - eapply (interp_frame (@perform fn randomString (S n))); eauto.
    intros X e w0 o0 w0' H0 Ho0. simpl in H0.
    eapply handle_frame; eauto.
Qed.

End Frame.

(** ** The re-entrancy guard *)

Section Reentrancy.

Context (fn : fid -> list value -> prog value).
Context (randomString : nat -> string).

Lemma dispatch_valid (b : nat) (call : forall R : Type, prog R -> M R)
    (action : value) (w : world) :
  valid_action (heap w) action ->
  dispatch fn b call action w =
  if isDispatching w then (Raise (Error msg_reducers_may_not_dispatch), w)
  else dispatch_reduce fn b call action w.
Proof.
  intros [Hp (t & Ht & Hu)]. unfold dispatch. rewrite Hp, Ht, Hu. reflexivity.
Qed.

(** What [dispatch] does once an action has passed its checks: the reducer
    runs from the world in which [isDispatching] is set; if it returns, the
    flag is cleared, the state and the listener array are committed and the
    listeners are notified; if it throws, the flag is cleared. *)
Lemma dispatch_calls_reducer (n : nat) (w : world) (action : value) (f : fid) :
  isDispatching w = false ->
  valid_action (heap w) action ->
  currentReducer w = VFun f ->
  run fn randomString (S n) (store_dispatch base_store action) w
  = match run fn randomString n (fn f [currentState w; action])
            (set_isDispatching true w) with
    | (Ok s, w2) =>
        match notify fn (fun R => run fn randomString n) n (nextListeners w2) 0
                (set_currentListeners (Some (nextListeners w2))
                   (set_isDispatching false (set_currentState s w2))) with
        | (Ok _, w5) => (Ok action, w5)
        | (Raise e, w5) => (Raise e, w5)
        | (Diverge, w5) => (Diverge, w5)
        end
    | (Raise e, w2) => (Raise e, set_isDispatching false w2)
    | (Diverge, w2) => (Diverge, w2)
    end.
Proof.
  intros Hidle Hvalid Hred.
  rewrite run_store_dispatch, dispatch_valid by exact Hvalid.
  rewrite Hidle. unfold dispatch_reduce.
  replace (currentReducer (set_isDispatching true w)) with (VFun f)
    by (destruct w; simpl in *; congruence).
  replace (currentState (set_isDispatching true w)) with (currentState w)
    by (destruct w; reflexivity).
  simpl call_function. fold (run fn randomString n (fn f [currentState w; action])).
  destruct (run fn randomString n (fn f [currentState w; action])
              (set_isDispatching true w)) as [[s|e|] w2]; reflexivity.
Qed.

(** The flag stays set through whatever the reducer runs. *)
Lemma reducer_flag_stays (n : nat) (w w' : world) (R : Type) (p : prog R) (o : outcome R) :
  run fn randomString n p (set_isDispatching true w) = (o, w') -> o <> Diverge ->
  isDispatching w' = true.
Proof.
  intros Hrun Ho.
  pose proof (run_frame fn randomString n _ _ _ _ _ Hrun Ho) as HF.
  apply HF. destruct w; reflexivity.
Qed.

(** C8. Let an idle store be asked to dispatch a valid action.
    (1) Its reducer is called in the world in which [isDispatching] is set,
    and what [dispatch] does next is determined by how that call ends.
    (2) A reducer that begins by calling [getState] makes [dispatch] throw
    "You may not call store.getState() while the reducer is executing.",
    and one that begins by calling [dispatch] with a valid action makes it
    throw "Reducers may not dispatch actions." (the invariant violations of
    the spec); the world is left as it was.
    (3) The same holds when the reducer makes the call after whatever code
    [p] it runs first: the call throws, and a reducer that does not catch
    the exception makes the outer [dispatch] throw it, with the flag
    cleared.
    (4) More generally, whatever code has run since the reducer was called,
    the flag is still set, and [getState] and [dispatch] throw these errors
    and leave the world as it is (a reducer that catches the exception goes
    on from there). (5) Once the outer [dispatch] has returned or thrown,
    the flag is clear again. *)
Theorem reducer_reentrancy_guard (n : nat) (w : world) (action : value) :
  isDispatching w = false ->
  valid_action (heap w) action ->
  (forall f, currentReducer w = VFun f ->
     run fn randomString (S n) (store_dispatch base_store action) w
     = match run fn randomString n (fn f [currentState w; action])
               (set_isDispatching true w) with
       | (Ok s, w2) =>
           match notify fn (fun R => run fn randomString n) n (nextListeners w2) 0
                   (set_currentListeners (Some (nextListeners w2))
                      (set_isDispatching false (set_currentState s w2))) with
           | (Ok _, w5) => (Ok action, w5)
           | (Raise e, w5) => (Raise e, w5)
           | (Diverge, w5) => (Diverge, w5)
           end
       | (Raise e, w2) => (Raise e, set_isDispatching false w2)
       | (Diverge, w2) => (Diverge, w2)
       end) /\
  (forall f (k : value -> prog value),
     currentReducer w = VFun f ->
     (fn f [currentState w; action] = (let* s := trigger EGetState in k s) ->
      run fn randomString (S (S n)) (store_dispatch base_store action) w
      = (Raise (Error msg_getState_while_dispatching), w)) /\
     (forall a, valid_action (heap w) a ->
      fn f [currentState w; action] = (let* v := trigger (EDispatch a) in k v) ->
      run fn randomString (S (S n)) (store_dispatch base_store action) w
      = (Raise (Error msg_reducers_may_not_dispatch), w))) /\
  (forall f (X : Type) (p : prog X) (x : X) (w1 : world)
          (a : X -> value) (k : X -> value -> prog value),
     currentReducer w = VFun f ->
     run fn randomString (S n) p (set_isDispatching true w) = (Ok x, w1) ->
     (fn f [currentState w; action]
      = (let* x := p in let* s := trigger EGetState in k x s) ->
      run fn randomString (S (S n)) (store_dispatch base_store action) w
      = (Raise (Error msg_getState_while_dispatching), set_isDispatching false w1)) /\
     (valid_action (heap w1) (a x) ->
      fn f [currentState w; action]
      = (let* x := p in let* v := trigger (EDispatch (a x)) in k x v) ->
      run fn randomString (S (S n)) (store_dispatch base_store action) w
      = (Raise (Error msg_reducers_may_not_dispatch), set_isDispatching false w1))) /\
  (forall (R : Type) (p : prog R) (o : outcome R) (w' : world),
     run fn randomString n p (set_isDispatching true w) = (o, w') -> o <> Diverge ->
     isDispatching w' = true /\
     (forall m, run fn randomString (S m) (store_getState base_store) w'
                = (Raise (Error msg_getState_while_dispatching), w')) /\
     (forall m a, valid_action (heap w') a ->
                  run fn randomString (S m) (store_dispatch base_store a) w'
                  = (Raise (Error msg_reducers_may_not_dispatch), w'))) /\
  (forall (o : outcome value) (w' : world),
     run fn randomString (S n) (store_dispatch base_store action) w = (o, w') -> o <> Diverge ->
     isDispatching w' = false).
Proof.
  intros Hidle Hvalid.
  assert (forall f (X : Type) (p : prog X) (x : X) (w1 : world)
            (a : X -> value) (k : X -> value -> prog value),
     currentReducer w = VFun f ->
     run fn randomString (S n) p (set_isDispatching true w) = (Ok x, w1) ->
     (fn f [currentState w; action]
      = (let* x := p in let* s := trigger EGetState in k x s) ->
      run fn randomString (S (S n)) (store_dispatch base_store action) w
      = (Raise (Error msg_getState_while_dispatching), set_isDispatching false w1)) /\
     (valid_action (heap w1) (a x) ->
      fn f [currentState w; action]
      = (let* x := p in let* v := trigger (EDispatch (a x)) in k x v) ->
      run fn randomString (S (S n)) (store_dispatch base_store action) w
      = (Raise (Error msg_reducers_may_not_dispatch), set_isDispatching false w1)))
    as Hafter.
  { intros f X p x w1 a k Hred Hp.
    assert (isDispatching w1 = true) as Hflag
      by (eapply reducer_flag_stays; [exact Hp|discriminate]).
    split.
    + intros Hcode.
      rewrite (dispatch_calls_reducer (S n) w action f Hidle Hvalid Hred), Hcode.
      unfold run in *. rewrite interp_bind, Hp, interp_bind.
      change (interp (@perform fn randomString (S n)) (trigger EGetState) w1)
        with (run fn randomString (S n) (store_getState base_store) w1).
      rewrite run_store_getState. unfold getState. rewrite Hflag. reflexivity.
    + intros Ha Hcode.
      rewrite (dispatch_calls_reducer (S n) w action f Hidle Hvalid Hred), Hcode.
      unfold run in *. rewrite interp_bind, Hp, interp_bind.
      change (interp (@perform fn randomString (S n)) (trigger (EDispatch (a x))) w1)
        with (run fn randomString (S n) (store_dispatch base_store (a x)) w1).
      rewrite run_store_dispatch, dispatch_valid by exact Ha.
      rewrite Hflag. reflexivity. }
  assert (set_isDispatching false (set_isDispatching true w) = w) as Hback
    by (destruct w; simpl in *; subst; reflexivity).
  split; [|split; [|split; [exact Hafter|split]]].
  - intros f Hred. apply dispatch_calls_reducer; assumption.
  - intros f k Hred.
    destruct (Hafter f unit (Ret tt) tt (set_isDispatching true w)
                (fun _ => VUndef) (fun _ => k) Hred eq_refl) as [Hget _].
    split.
    + intros Hcode. rewrite <- Hback at 2. apply Hget. exact Hcode.
    + intros a Ha Hcode.
      destruct (Hafter f unit (Ret tt) tt (set_isDispatching true w)
                  (fun _ => a) (fun _ => k) Hred eq_refl) as [_ Hdis].
      rewrite <- Hback at 2. apply Hdis; [|exact Hcode].
      destruct w; exact Ha.
  - intros R p o w' Hrun Ho.
    assert (isDispatching w' = true) as Hflag
      by (eapply reducer_flag_stays; eassumption).
    split; [exact Hflag|]. split.
    + intros m. rewrite run_store_getState. unfold getState. rewrite Hflag. reflexivity.
    + intros m a Ha. rewrite run_store_dispatch, dispatch_valid by exact Ha.
      rewrite Hflag. reflexivity.
  - intros o w' Hrun Ho.
    pose proof (run_frame fn randomString (S n) _ _ _ _ _ Hrun Ho) as HF.
    apply HF. exact Hidle.
Qed.

(** A reducer that throws: [dispatch] clears the flag and lets the exception
    through. *)
Lemma dispatch_reducer_raises (n : nat) (w w2 : world) (action : value)
    (f : fid) (e : exn) :
  isDispatching w = false ->
  valid_action (heap w) action ->
  currentReducer w = VFun f ->
  run fn randomString n (fn f [currentState w; action]) (set_isDispatching true w) = (Raise e, w2) ->
  run fn randomString (S n) (store_dispatch base_store action) w = (Raise e, set_isDispatching false w2).
Proof.
  intros Hidle Hvalid Hred Hrun.
  rewrite run_store_dispatch, dispatch_valid by exact Hvalid.
  rewrite Hidle. unfold dispatch_reduce.
  replace (currentReducer (set_isDispatching true w)) with (VFun f)
    by (destruct w; simpl in *; congruence).
  replace (currentState (set_isDispatching true w)) with (currentState w)
    by (destruct w; reflexivity).
  simpl call_function. fold (run fn randomString n (fn f [currentState w; action])).
  rewrite Hrun. reflexivity.
Qed.

(** C9. When the reducer throws, [dispatch] throws the same exception, the
    stored state is the one before the call and [isDispatching] is clear:
    the next [getState] returns that state and the next [dispatch] of a
    valid action gets past the guard and calls the reducer. *)
Theorem dispatch_cleans_up_when_reducer_throws (n : nat) (w w2 : world)
    (action : value) (f : fid) (e : exn) :
  isDispatching w = false ->
  valid_action (heap w) action ->
  currentReducer w = VFun f ->
  run fn randomString n (fn f [currentState w; action]) (set_isDispatching true w) = (Raise e, w2) ->
  let w' := set_isDispatching false w2 in
  run fn randomString (S n) (store_dispatch base_store action) w = (Raise e, w') /\
  currentState w' = currentState w /\
  isDispatching w' = false /\
  (forall m, run fn randomString (S m) (store_getState base_store) w' = (Ok (currentState w), w')) /\
  (forall m a, valid_action (heap w') a ->
     run fn randomString (S m) (store_dispatch base_store a) w'
     = dispatch_reduce fn m (fun R => run fn randomString m) a w').
Proof.
  intros Hidle Hvalid Hred Hrun w'.
  assert (currentState w2 = currentState w) as Hstate.
  { assert (Raise e <> @Diverge value) as Ho by discriminate.
    pose proof (run_frame fn randomString n _ _ _ _ _ Hrun Ho) as HF.
    destruct (frame_dispatching _ _ HF) as [_ Hs]; [destruct w; reflexivity|].
    rewrite Hs. destruct w; reflexivity. }
  assert (currentState w' = currentState w) as Hstate'
    by (unfold w'; destruct w2; exact Hstate).
  assert (isDispatching w' = false) as Hflag by (unfold w'; destruct w2; reflexivity).
  split; [|split; [exact Hstate'|split; [exact Hflag|split]]].
  - apply (dispatch_reducer_raises n w w2 action f e); assumption.
  - intros m. rewrite run_store_getState. unfold getState.
    rewrite Hflag, Hstate'. reflexivity.
  - intros m a Ha. rewrite run_store_dispatch, dispatch_valid by exact Ha.
    rewrite Hflag. reflexivity.
Qed.

(** ** Listener snapshots *)

Lemma notify_protected (n b : nat) (listeners : loc) :
  forall (i : nat) (w : world),
    protected w listeners ->
    notify fn (fun R => run fn randomString n) b listeners i w
    = notify_snapshot fn (fun R => run fn randomString n) b (drop i (arrays w !!! listeners)) w.
Proof.
  induction b as [|b IH]; intros i w Hp; [reflexivity|]. simpl.
  destruct ((arrays w !!! listeners) !! i) as [listener|] eqn:Hi.
  - rewrite (drop_S _ _ _ Hi).
    destruct (call_function fn (fun R => run fn randomString n) listener [] w) as [[x|e|] w1] eqn:Hc;
      try reflexivity.
    assert (Ok x <> @Diverge value) as Ho by discriminate.
    pose proof (call_function_frame fn _ (run_frame fn randomString n) _ _ _ _ _ Hc Ho) as HF.
    destruct (frame_arrays _ _ HF listeners Hp) as [Hp1 He].
    rewrite IH by exact Hp1.
    rewrite !lookup_total_alt, He. reflexivity.
  - rewrite drop_ge; [reflexivity|]. apply lookup_ge_None. exact Hi.
Qed.

(** Once the draft is committed ([currentListeners = nextListeners]), the
    loop that reads the array anew at every turn calls the listeners that
    the array held at that point. *)
Lemma notify_committed (n b : nat) (w : world) :
  currentListeners w = Some (nextListeners w) ->
  notify fn (fun R => run fn randomString n) b (nextListeners w) 0 w
  = notify_snapshot fn (fun R => run fn randomString n) b (arrays w !!! nextListeners w) w.
Proof.
  intros Hc.
  destruct (arrays w !! nextListeners w) as [xs|] eqn:Hx.
  - rewrite notify_protected; [reflexivity|].
    split; [rewrite Hx; eauto|intros _; exact Hc].
  - rewrite lookup_total_alt, Hx. destruct b; [reflexivity|]. simpl.
    rewrite lookup_total_alt, Hx. reflexivity.
Qed.

(** C2. Every [dispatch] of a valid action to an idle store, once its
    reducer has returned, calls in order exactly the listeners that the
    listener array holds at that point (the snapshot), each in the world
    that the one before it left, whatever they subscribe or unsubscribe
    meanwhile: a listener subscribed by one of them is not in that list and
    is not called by this [dispatch], and a listener unsubscribed by one of
    them before its turn is still in that list and is still called. (A
    listener that throws ends the loop, as in the source.) *)
Theorem listener_snapshot_isolation (n : nat) (w w2 : world) (action s : value)
    (f : fid) :
  isDispatching w = false ->
  valid_action (heap w) action ->
  currentReducer w = VFun f ->
  run fn randomString n (fn f [currentState w; action]) (set_isDispatching true w)
  = (Ok s, w2) ->
  run fn randomString (S n) (store_dispatch base_store action) w
  = match notify_snapshot fn (fun R => run fn randomString n) n
            (arrays w2 !!! nextListeners w2)
            (set_currentListeners (Some (nextListeners w2))
               (set_isDispatching false (set_currentState s w2))) with
    | (Ok _, w5) => (Ok action, w5)
    | (Raise e, w5) => (Raise e, w5)
    | (Diverge, w5) => (Diverge, w5)
    end.
Proof.
  intros Hidle Hvalid Hred Hrun.
  rewrite (dispatch_calls_reducer n w action f Hidle Hvalid Hred), Hrun.
  set (w4 := set_currentListeners (Some (nextListeners w2))
               (set_isDispatching false (set_currentState s w2))).
  assert (nextListeners w4 = nextListeners w2) as Hn by (destruct w2; reflexivity).
  assert (arrays w4 = arrays w2) as Ha by (destruct w2; reflexivity).
  rewrite <- Hn at 1. rewrite notify_committed by (destruct w2; reflexivity).
  rewrite Hn, Ha. reflexivity.
Qed.

End Reentrancy.


Lemma sample_action_valid (w : world) :
  heap w = heap sample_store_world -> valid_action (heap w) (VObj 5%positive).
Proof.
  intros ->. split; [vm_compute; reflexivity|].
  exists (VStr "inc"). split; vm_compute; reflexivity.
Defined.

(** Reducer 4 catches what [getState] and [dispatch] throw and records
    it; reducers 14 and 15 do not catch, and the outer [dispatch] throws. *)
Lemma reducer_reentrancy_guard_witness :
  run sample_fn sample_randomString 3 (store_dispatch base_store (VObj 5%positive))
    sample_reentrant_world
  = (Ok (VObj 5%positive), sample_reentered_world) /\
  log sample_reentered_world
  = [VStr msg_getState_while_dispatching; VStr msg_reducers_may_not_dispatch] /\
  run sample_fn sample_randomString 4 (store_dispatch base_store (VObj 5%positive))
    sample_reading_world
  = (Raise (Error msg_getState_while_dispatching), sample_reading_world) /\
  run sample_fn sample_randomString 4 (store_dispatch base_store (VObj 5%positive))
    sample_redispatching_world
  = (Raise (Error msg_reducers_may_not_dispatch), sample_redispatching_world).
Proof.
  split; [|split; [vm_compute; reflexivity|split]].
  - destruct (reducer_reentrancy_guard sample_fn sample_randomString 2
                sample_reentrant_world (VObj 5%positive)) as (Hcall & _).
    + vm_compute; reflexivity.
    + apply sample_action_valid. vm_compute; reflexivity.
    + etrans; [apply (Hcall 4%nat); vm_compute; reflexivity|].
      vm_compute. reflexivity.
  - destruct (reducer_reentrancy_guard sample_fn sample_randomString 2
                sample_reading_world (VObj 5%positive)) as (_ & Hguard & _).
    + vm_compute; reflexivity.
    + apply sample_action_valid. vm_compute; reflexivity.
    + destruct (Hguard 14%nat (fun s => Ret s)) as [Hget _].
      * vm_compute; reflexivity.
      * apply Hget. reflexivity.
  - destruct (reducer_reentrancy_guard sample_fn sample_randomString 2
                sample_redispatching_world (VObj 5%positive)) as (_ & Hguard & _).
    + vm_compute; reflexivity.
    + apply sample_action_valid. vm_compute; reflexivity.
    + destruct (Hguard 15%nat
                  (fun _ => Ret (currentState sample_redispatching_world)))
        as [_ Hdispatch].
      * vm_compute; reflexivity.
      * apply (Hdispatch (VObj 5%positive)); [|reflexivity].
        apply sample_action_valid. vm_compute; reflexivity.
Defined.

Lemma dispatch_cleans_up_when_reducer_throws_witness :
  run sample_fn sample_randomString 3 (store_dispatch base_store (VObj 5%positive))
    sample_throwing_world
  = (Raise (Error "boom"), sample_throwing_world).
Proof.
  refine (proj1 (dispatch_cleans_up_when_reducer_throws sample_fn sample_randomString
                   2 sample_throwing_world (set_isDispatching true sample_throwing_world)
                   (VObj 5%positive) 5%nat (Error "boom") _ _ _ _)).
  - vm_compute; reflexivity.
  - apply sample_action_valid. vm_compute; reflexivity.
  - vm_compute; reflexivity.
  - vm_compute; reflexivity.
Defined.

(** The first dispatch: listener 3 unsubscribes listener 1, which is still
    called; listener 2 subscribes listener 1 again, which is not called.
    The second dispatch calls the listeners as they were left. *)
Example listener_snapshot_scenario :
  log sample_listening_world = [VStr "L3"; VStr "L1"; VStr "L2"] /\
  log (snd (run sample_fn sample_randomString 8
              (store_dispatch base_store (VObj 5%positive)) sample_listening_world))
  = [VStr "L3"; VStr "L1"; VStr "L2"; VStr "L3"; VStr "L2"; VStr "L1"].
Proof. split; vm_compute; reflexivity. Qed.

(** The listeners 3, 1 and 2 are subscribed when the action is dispatched:
    3 unsubscribes 1, 2 subscribes 1 again, and the dispatch calls 3, 1 and
    2, once each; the array it leaves holds 3, 2 and 1. *)
Lemma listener_snapshot_isolation_witness :
  arrays sample_subscribed_world !!! nextListeners sample_subscribed_world
  = [VFun 3%nat; VFun 1%nat; VFun 2%nat] /\
  log sample_subscribed_world = [] /\
  run sample_fn sample_randomString 5 (store_dispatch base_store (VObj 5%positive))
    sample_subscribed_world
  = (Ok (VObj 5%positive), sample_listening_world) /\
  log sample_listening_world = [VStr "L3"; VStr "L1"; VStr "L2"] /\
  arrays sample_listening_world !!! nextListeners sample_listening_world
  = [VFun 3%nat; VFun 2%nat; VFun 1%nat].
Proof.
  split; [vm_compute; reflexivity|]. split; [vm_compute; reflexivity|].
  split; [|split; vm_compute; reflexivity].
  etrans.
  - apply (listener_snapshot_isolation sample_fn sample_randomString 4
             sample_subscribed_world (set_isDispatching true sample_subscribed_world)
             (VObj 5%positive) (VNum 1) 0%nat).
    + vm_compute; reflexivity.
    + apply sample_action_valid. vm_compute; reflexivity.
    + vm_compute; reflexivity.
    + vm_compute; reflexivity.
  - vm_compute. reflexivity.
Defined.

(** ** The state is the fold of the reducer *)

Section Fold.

Context (fn : fid -> list value -> prog value).
Context (randomString : nat -> string).
Context (enhancers : fid -> nat -> (list value -> M Store) -> list value -> M Store).

(** The reducer [f] is a pure function [r] of the objects it can read, its
    state and the action. *)
Context (f : fid) (r : gmap loc object -> value -> value -> value).
Hypothesis f_pure :
  forall s a, fn f [s; a] = let* h := trigger EHeap in Ret (r h s a).

Lemma dispatch_pure (n b : nat) (w : world) (a : value) :
  currentReducer w = VFun f ->
  isDispatching w = false ->
  valid_action (heap w) a ->
  arrays w !!! nextListeners w = [] ->
  dispatch fn (S b) (fun R => run fn randomString (S n)) a w
  = (Ok a, set_currentListeners (Some (nextListeners w))
             (set_currentState (r (heap w) (currentState w) a) w)).
Proof.
  intros Hr Hd Hv Hl. rewrite dispatch_valid by exact Hv. rewrite Hd.
  unfold dispatch_reduce.
  destruct w as [h ar sb lg rg wn ch mw cr cs cl nl isd]. simpl in *. subst cr isd.
  unfold call_function. rewrite f_pure. unfold run. simpl.
  rewrite Hl. reflexivity.
Qed.



End Fold.


(** ** The reducer combinator *)

Lemma set_prop_keys_in (key : string) (v : value) (ps : list (string * value)) :
  In key (map fst ps) -> map fst (set_prop key v ps) = map fst ps.
Proof.
  induction ps as [|[k x] ps IH]; simpl; [tauto|]. intros Hin.
  destruct (String.eqb k key) eqn:Hk; simpl; [reflexivity|].
  apply String.eqb_neq in Hk. f_equal. apply IH. destruct Hin; congruence.
Qed.

Lemma set_prop_keys_fresh (key : string) (v : value) (ps : list (string * value)) :
  ~ In key (map fst ps) -> map fst (set_prop key v ps) = map fst ps ++ [key].
Proof.
  induction ps as [|[k x] ps IH]; simpl; [reflexivity|]. intros Hin.
  destruct (String.eqb k key) eqn:Hk.
  - apply String.eqb_eq in Hk. tauto.
  - simpl. f_equal. apply IH. tauto.
Qed.

Lemma set_prop_assoc (key key' : string) (v : value) (ps : list (string * value)) :
  assoc key' (set_prop key v ps) = if String.eqb key key' then Some v else assoc key' ps.
Proof.
  induction ps as [|[k x] ps IH]; simpl.
  - reflexivity.
  - destruct (String.eqb k key) eqn:Hk; simpl.
    + apply String.eqb_eq in Hk. subst k.
      destruct (String.eqb key key'); reflexivity.
    + rewrite IH.
      destruct (String.eqb k key') eqn:Hk'; destruct (String.eqb key key') eqn:Hkk;
        try reflexivity.
      apply String.eqb_eq in Hk'. apply String.eqb_eq in Hkk. subst.
      rewrite String.eqb_refl in Hk. discriminate.
Qed.

Lemma set_prop_NoDup (key : string) (v : value) (ps : list (string * value)) :
  List.NoDup (map fst ps) -> List.NoDup (map fst (set_prop key v ps)).
Proof.
  intros Hnd. destruct (in_dec String.string_dec key (map fst ps)) as [Hin|Hin].
  - rewrite set_prop_keys_in by exact Hin. exact Hnd.
  - rewrite set_prop_keys_fresh by exact Hin.
    apply NoDup_ListNoDup. apply NoDup_ListNoDup in Hnd.
    apply NoDup_app. split; [exact Hnd|]. split.
    + intros x Hx Hx'. apply list_elem_of_In in Hx. apply list_elem_of_In in Hx'.
      simpl in Hx'. destruct Hx' as [<-|[]]. tauto.
    + apply NoDup_singleton.
Qed.

Lemma kept_reducers_NoDup (reducers : list (string * value)) (keys : list string)
    (acc : list (string * value)) :
  List.NoDup (map fst acc) -> List.NoDup (map fst (kept_reducers reducers keys acc)).
Proof.
  revert acc. induction keys as [|key keys IH]; intros acc Hnd; simpl; [exact Hnd|].
  apply IH. destruct (is_function (prop key reducers)); [|exact Hnd].
  apply set_prop_NoDup. exact Hnd.
Qed.

(** The keys of [finalReducers] are pairwise distinct, as the keys of an
    object are. *)
Lemma final_reducers_NoDup (reducers : list (string * value)) :
  List.NoDup (map fst (final_reducers reducers)).
Proof. apply kept_reducers_NoDup. constructor. Qed.

Lemma next_state_keys (slices : list slice) (nextState : list (string * value)) :
  List.NoDup (map fst nextState ++ map slice_key slices) ->
  map fst (next_state slices nextState) = map fst nextState ++ map slice_key slices.
Proof.
  revert nextState. induction slices as [|s slices IH]; intros nextState Hnd; simpl.
  - rewrite app_nil_r. reflexivity.
  - assert (~ In (slice_key s) (map fst nextState)) as Hfresh.
    { intros Hin. apply NoDup_ListNoDup in Hnd. apply NoDup_app in Hnd.
      destruct Hnd as (_ & Hd & _). apply (Hd (slice_key s)).
      - apply list_elem_of_In. exact Hin.
      - left. }
    unfold next_state in IH. rewrite IH.
    + rewrite set_prop_keys_fresh by exact Hfresh. rewrite <- app_assoc. reflexivity.
    + rewrite set_prop_keys_fresh by exact Hfresh. rewrite <- app_assoc. exact Hnd.
Qed.

Lemma next_state_assoc_other (key : string) (slices : list slice)
    (nextState : list (string * value)) :
  ~ In key (map slice_key slices) ->
  assoc key (next_state slices nextState) = assoc key nextState.
Proof.
  revert nextState. induction slices as [|s slices IH]; intros nextState Hin; simpl.
  - reflexivity.
  - unfold next_state in IH. rewrite IH by (simpl in Hin; tauto).
    rewrite set_prop_assoc. destruct (String.eqb (slice_key s) key) eqn:Hk; [|reflexivity].
    apply String.eqb_eq in Hk. simpl in Hin. tauto.
Qed.

Section Combination.

Context (fn : fid -> list value -> prog value).
Context (randomString : nat -> string).
Context (production : bool).

Lemma combination_loop_cons (c : combined) (state action : value) (key : string)
    (keys : list string) (hasChanged : bool) (nextState : list (string * value)) :
  combination_loop fn c state action (key :: keys) hasChanged nextState =
  let* previousStateForKey := trigger (EGet state key) in
  let* nextStateForKey :=
    call_fn fn (prop key (finalReducers c)) [previousStateForKey; action] in
  if is_undefined nextStateForKey
  then let* errorMessage := getUndefinedStateErrorMessage key action in
       Throw (Error errorMessage)
  else combination_loop fn c state action keys
         (hasChanged || negb (strict_eq nextStateForKey previousStateForKey))
         (set_prop key nextStateForKey nextState).
Proof. reflexivity. Qed.

Lemma reduces_keys (n : nat) (c : combined) (state action : value)
    (keys : list string) (w w' : world) (slices : list slice) :
  reduces fn randomString n c state action keys w slices w' ->
  map slice_key slices = keys.
Proof. induction 1; simpl; congruence. Qed.

Lemma reduces_frame (n : nat) (c : combined) (state action : value)
    (keys : list string) (w w' : world) (slices : list slice) :
  reduces fn randomString n c state action keys w slices w' -> frame w w'.
Proof.
  induction 1 as [|key keys w w1 w2 previous next slices Hget Hrun Hdef Hrest IH].
  - apply frame_refl.
  - eapply frame_trans; [|exact IH].
    eapply (run_frame fn randomString (S n)); [exact Hrun|discriminate].
Qed.

(** The loop of [combination], when every sub-reducer returns a defined
    value. *)
Lemma combination_loop_run (n : nat) (c : combined) (state action : value)
    (keys : list string) (w w' : world) (slices : list slice) :
  reduces fn randomString n c state action keys w slices w' ->
  forall hasChanged nextState,
    run fn randomString (S n)
      (combination_loop fn c state action keys hasChanged nextState) w
    = (Ok (hasChanged || existsb slice_changed slices, next_state slices nextState), w').
Proof.
  induction 1 as [|key keys w w1 w2 previous next slices Hget Hrun Hdef Hrest IH];
    intros hasChanged nextState.
  - simpl. rewrite orb_false_r. reflexivity.
  - rewrite combination_loop_cons. unfold run in *.
    rewrite interp_bind, interp_trigger, perform_get, Hget.
    rewrite interp_bind, Hrun, Hdef, IH. simpl.
    rewrite orb_assoc. reflexivity.
Qed.

(** The loop of [combination], when the sub-reducer of [key] returns
    undefined. *)
Lemma combination_loop_undefined (n : nat) (c : combined) (state action : value)
    (done : list string) (key : string) (rest : list string)
    (w w1 w2 : world) (slices : list slice) (previous : value) :
  reduces fn randomString n c state action done w slices w1 ->
  Get (heap w1) state key = Ok previous ->
  run fn randomString (S n)
    (call_fn fn (prop key (finalReducers c)) [previous; action]) w1 = (Ok VUndef, w2) ->
  (truthy action = true -> exists t, Get (heap w2) action "type" = Ok t) ->
  forall hasChanged nextState,
  exists actionDescription,
    run fn randomString (S n)
      (combination_loop fn c state action (done ++ key :: rest) hasChanged nextState) w
    = (Raise (Error (msg_undefined_state actionDescription key)), w2).
Proof.
  intros Hred Hget Hrun Htype.
  induction Hred as [|k keys w w1 w3 prev next slices Hg Hr Hdef Hrest IH];
    intros hasChanged nextState.
  - simpl app. rewrite combination_loop_cons. unfold run in *.
    rewrite interp_bind, interp_trigger, perform_get, Hget.
    rewrite interp_bind, Hrun. cbv beta iota.
    change (is_undefined VUndef) with true. cbv iota.
    rewrite interp_bind. unfold getUndefinedStateErrorMessage.
    rewrite interp_bind.
    destruct (truthy action) eqn:Ht.
    + destruct (Htype eq_refl) as [t Hty].
      rewrite interp_trigger, perform_get, Hty. simpl. eauto.
    + simpl. rewrite Ht. eauto.
  - simpl app. rewrite combination_loop_cons. unfold run in *.
    rewrite interp_bind, interp_trigger, perform_get, Hg.
    rewrite interp_bind, Hr, Hdef. apply IH; assumption.
Qed.

Lemma combination_state_run (n : nat) (state : value) (w : world) :
  run fn randomString (S n) (combination_state state) w
  = (Ok (fst (default_state state w)), snd (default_state state w)).
Proof.
  unfold combination_state, default_state, run.
  destruct (strict_eq state VUndef); [|reflexivity].
  rewrite interp_bind, interp_trigger, perform_alloc. reflexivity.
Qed.

(** [combination] is its entry followed by its loop and its [return]. *)
Lemma combination_run_entry (n : nat) (c : combined) (state action : value) (w : world) :
  run fn randomString (S n) (combination fn randomString production c state action) w =
  match run fn randomString (S n)
          (combination_entry randomString production c state action) w with
  | (Ok s, w0) =>
      match run fn randomString (S n)
              (combination_loop fn c s action (finalReducerKeys c) false []) w0 with
      | (Ok r, w') =>
          if fst r
          then (Ok (VObj (fst (alloc (Object (Some ObjectPrototype) (snd r)) w'))),
                snd (alloc (Object (Some ObjectPrototype) (snd r)) w'))
          else (Ok s, w')
      | (Raise e, w') => (Raise e, w')
      | (Diverge, w') => (Diverge, w')
      end
  | (Raise e, w0) => (Raise e, w0)
  | (Diverge, w0) => (Diverge, w0)
  end.
Proof.
  unfold combination, combination_entry, run.
  rewrite !(interp_bind _ (combination_state state)).
  destruct (interp (@perform fn randomString (S n)) (combination_state state) w)
    as [[s|e|] w1]; try reflexivity.
  rewrite !(interp_bind _ (combination_rethrow c)).
  destruct (interp (@perform fn randomString (S n)) (combination_rethrow c) w1)
    as [[[]|e|] w2]; try reflexivity.
  rewrite !(interp_bind _ (combination_warn randomString production c s action)).
  destruct (interp (@perform fn randomString (S n))
              (combination_warn randomString production c s action) w2)
    as [[[]|e|] w3]; try reflexivity.
  simpl interp at 2. rewrite interp_bind.
  destruct (interp (@perform fn randomString (S n))
              (combination_loop fn c s action (finalReducerKeys c) false []) w3)
    as [[[hc ns]|e|] w4]; try reflexivity.
  simpl fst. simpl snd. destruct hc; [|reflexivity].
  rewrite interp_bind, interp_trigger, perform_alloc. reflexivity.
Qed.

(** The entry of [combination] returns the state after the default
    parameter, and stays within the frame. *)
Lemma combination_entry_result (n : nat) (c : combined) (state action : value)
    (w w0 : world) (s : value) :
  run fn randomString (S n) (combination_entry randomString production c state action) w
  = (Ok s, w0) ->
  s = fst (default_state state w) /\ frame w w0.
Proof.
  intros H. split.
  - unfold combination_entry, run in H. rewrite interp_bind in H.
    fold (run fn randomString (S n) (combination_state state) w) in H.
    rewrite combination_state_run in H.
    rewrite interp_bind in H.
    destruct (interp (@perform fn randomString (S n)) (combination_rethrow c)
                (snd (default_state state w))) as [[[]|e|] w2]; try discriminate.
    rewrite interp_bind in H.
    destruct (interp (@perform fn randomString (S n))
                (combination_warn randomString production c
                   (fst (default_state state w)) action) w2)
      as [[[]|e|] w3]; try discriminate.
    simpl in H. injection H as <- _. reflexivity.
  - eapply (run_frame fn randomString (S n)); [exact H|discriminate].
Qed.

(** The entry of [combination] throws a captured shape error. *)
Lemma combination_entry_rethrows (n : nat) (c : combined) (e : exn)
    (state action : value) (w : world) :
  shapeAssertionError c = Some e -> exn_truthy e = true ->
  run fn randomString (S n) (combination_entry randomString production c state action) w
  = (Raise e, snd (default_state state w)).
Proof.
  intros Hc He. unfold combination_entry, run. rewrite interp_bind.
  fold (run fn randomString (S n) (combination_state state) w).
  rewrite combination_state_run, interp_bind.
  unfold combination_rethrow. rewrite Hc, He. reflexivity.
Qed.

(** In the production build, without shape error, the entry of
    [combination] is the default parameter only. *)
Lemma combination_entry_production (n : nat) (c : combined) (state action : value)
    (w : world) :
  production = true -> shapeAssertionError c = None ->
  run fn randomString (S n) (combination_entry randomString production c state action) w
  = (Ok (fst (default_state state w)), snd (default_state state w)).
Proof.
  intros Hp Hc. unfold combination_entry, run. rewrite interp_bind.
  fold (run fn randomString (S n) (combination_state state) w).
  rewrite combination_state_run, interp_bind.
  unfold combination_rethrow, combination_warn. rewrite Hc, Hp. reflexivity.
Qed.

(** A call of [combination] in which every sub-reducer returns a defined
    value. *)
Lemma combination_run (n : nat) (c : combined) (state action : value)
    (w w0 w' : world) (s : value) (slices : list slice) :
  run fn randomString (S n) (combination_entry randomString production c state action) w
  = (Ok s, w0) ->
  reduces fn randomString n c s action (finalReducerKeys c) w0 slices w' ->
  run fn randomString (S n) (combination fn randomString production c state action) w
  = if existsb slice_changed slices
    then (Ok (VObj (fst (alloc (Object (Some ObjectPrototype) (next_state slices [])) w'))),
          snd (alloc (Object (Some ObjectPrototype) (next_state slices [])) w'))
    else (Ok s, w').
Proof.
  intros Hentry Hred. rewrite combination_run_entry, Hentry.
  rewrite (combination_loop_run n c s action _ w0 w' slices Hred false []).
  reflexivity.
Qed.

End Combination.

(** ** The first loop of the reducer combinator *)

Lemma set_prop_fresh (key : string) (v : value) (ps : list (string * value)) :
  ~ In key (map fst ps) -> set_prop key v ps = ps ++ [(key, v)].
Proof.
  induction ps as [|[k x] ps IH]; simpl; [reflexivity|]. intros Hin.
  destruct (String.eqb k key) eqn:Hk.
  - apply String.eqb_eq in Hk. tauto.
  - f_equal. apply IH. tauto.
Qed.

Lemma assoc_middle (k : string) (v : value) (pre post : list (string * value)) :
  ~ In k (map fst pre) -> assoc k (pre ++ (k, v) :: post) = Some v.
Proof.
  induction pre as [|[k' v'] pre IH]; simpl; intros Hin.
  - rewrite String.eqb_refl. reflexivity.
  - destruct (String.eqb k' k) eqn:Hk.
    + apply String.eqb_eq in Hk. tauto.
    + apply IH. tauto.
Qed.

Lemma assoc_In (k : string) (v : value) (ps : list (string * value)) :
  assoc k ps = Some v -> In (k, v) ps.
Proof.
  induction ps as [|[k' v'] ps IH]; simpl; [discriminate|].
  destruct (String.eqb k' k) eqn:Hk.
  - apply String.eqb_eq in Hk. intros [= ->]. left. congruence.
  - intros H. right. apply IH. exact H.
Qed.

Lemma kept_reducers_filter (post pre : list (string * value)) :
  List.NoDup (map fst (pre ++ post)) ->
  kept_reducers (pre ++ post) (map fst post)
    (List.filter (fun kv => is_function (snd kv)) pre)
  = List.filter (fun kv => is_function (snd kv)) (pre ++ post).
Proof.
  revert pre. induction post as [|[k v] post IH]; intros pre Hnd.
  - rewrite app_nil_r. reflexivity.
  - assert (~ In k (map fst pre)) as Hfresh.
    { rewrite map_app in Hnd. simpl in Hnd.
      apply List.NoDup_remove_2 in Hnd. intros Hin. apply Hnd.
      apply in_or_app. left. exact Hin. }
    simpl map. simpl kept_reducers.
    unfold prop at 1 2. rewrite (assoc_middle k v pre post Hfresh).
    replace (pre ++ (k, v) :: post) with ((pre ++ [(k, v)]) ++ post) in *
      by (rewrite <- app_assoc; reflexivity).
    rewrite <- (IH (pre ++ [(k, v)]) Hnd).
    f_equal. rewrite List.filter_app. simpl.
    destruct (is_function v); [|rewrite app_nil_r; reflexivity].
    apply set_prop_fresh.
    intros Hin. apply Hfresh. apply in_map_iff in Hin.
    destruct Hin as ([k' v'] & Hk & Hin). apply filter_In in Hin.
    apply in_map_iff. exists (k', v'). tauto.
Qed.

(** [nextState] when the keys of the slices are pairwise distinct and new. *)
Lemma next_state_fresh (slices : list slice) :
  forall nextState : list (string * value),
    List.NoDup (map fst nextState ++ map slice_key slices) ->
    next_state slices nextState
    = nextState ++ map (fun x => (slice_key x, slice_next x)) slices.
Proof.
  induction slices as [|x slices IH]; intros nextState Hnd; simpl.
  - rewrite app_nil_r. reflexivity.
  - assert (~ In (slice_key x) (map fst nextState)) as Hfresh.
    { intros Hin. apply List.NoDup_remove_2 in Hnd. apply Hnd.
      apply in_or_app. left. exact Hin. }
    unfold next_state in IH. rewrite (set_prop_fresh _ _ _ Hfresh).
    rewrite IH.
    + rewrite <- app_assoc. reflexivity.
    + rewrite map_app, <- app_assoc. exact Hnd.
Qed.

(** The entries that [combineReducers] keeps are the function-valued
    entries of the mapping, in their order. *)
Lemma final_reducers_functions (reducers : list (string * value)) :
  NoDup (map fst reducers) ->
  final_reducers reducers = function_entries reducers.
Proof.
  intros Hnd. apply NoDup_ListNoDup in Hnd.
  exact (kept_reducers_filter reducers [] Hnd).
Qed.

Section FirstLoopRuns.

Context (fn : fid -> list value -> prog value).
Context (randomString : nat -> string).
Context (production : bool).

(** The first loop of [combineReducers] returns [finalReducers]. *)
Lemma filter_reducers_run (n : nat) (reducers : list (string * value))
    (keys : list string) :
  forall (acc : list (string * value)) (w : world),
  exists w',
    run fn randomString (S n) (filter_reducers production reducers keys acc) w
    = (Ok (kept_reducers reducers keys acc), w').
Proof.
  induction keys as [|key keys IH]; intros acc w.
  - exists w. reflexivity.
  - change (filter_reducers production reducers (key :: keys) acc)
      with (let* _ :=
              if negb production && is_undefined (prop key reducers)
              then trigger (EWarning (msg_no_reducer_provided key))
              else Ret tt in
            filter_reducers production reducers keys
              (if is_function (prop key reducers)
               then set_prop key (prop key reducers) acc
               else acc)).
    unfold run in *. rewrite interp_bind.
    destruct (negb production && is_undefined (prop key reducers)).
    + rewrite interp_trigger. simpl perform. apply IH.
    + simpl interp at 1. apply IH.
Qed.

(** What precedes the shape check in [combineReducers] always returns. *)
Lemma combineReducers_setup_run (n : nat) (reducers : list (string * value)) (w : world) :
  exists cache wa,
    run fn randomString (S n) (combineReducers_setup production reducers) w
    = (Ok cache, wa).
Proof.
  unfold combineReducers_setup, run. rewrite interp_bind.
  destruct (filter_reducers_run n reducers (map fst reducers) [] w) as [w1 H1].
  unfold run in H1. rewrite H1.
  destruct (negb production).
  - rewrite interp_bind, interp_trigger. simpl. eauto.
  - simpl. eauto.
Qed.

(** [combineReducers] catches whatever the shape check throws. *)
Lemma combineReducers_run (n : nat) (reducers : list (string * value))
    (w wa : world) (cache : option nat) :
  run fn randomString (S n) (combineReducers_setup production reducers) w = (Ok cache, wa) ->
  run fn randomString (S n) (combineReducers fn randomString production reducers) w =
  match run fn randomString (S n)
          (assertReducerShape fn randomString (final_reducers reducers)) wa with
  | (Ok _, w') => (Ok (closure reducers cache None), w')
  | (Raise e, w') => (Ok (closure reducers cache (Some e)), w')
  | (Diverge, w') => (Diverge, w')
  end.
Proof.
  unfold combineReducers_setup, combineReducers, run. intros H.
  rewrite interp_bind in *.
  destruct (filter_reducers_run n reducers (map fst reducers) [] w) as [w1 H1].
  unfold run in H1. rewrite H1 in *. fold (final_reducers reducers).
  rewrite interp_bind.
  destruct (interp (@perform fn randomString (S n))
              (if negb production
               then let* cache0 := trigger ECacheNew in Ret (Some cache0)
               else Ret None) w1) as [[c0|e|] w2]; try discriminate.
  injection H as -> ->.
  rewrite interp_bind, interp_try_catch, interp_bind.
  destruct (interp (@perform fn randomString (S n))
              (assertReducerShape fn randomString (final_reducers reducers)) wa)
    as [[x|e|] w']; reflexivity.
Qed.

(** [combineReducers], when it returns, returns the closure over the
    entries it kept. *)
Lemma combineReducers_result (n : nat) (reducers : list (string * value))
    (w w' : world) (c : combined) :
  run fn randomString (S n) (combineReducers fn randomString production reducers) w
  = (Ok c, w') ->
  exists cache err, c = closure reducers cache err.
Proof.
  intros H.
  destruct (combineReducers_setup_run n reducers w) as (cache & wa & Hsetup).
  rewrite (combineReducers_run n reducers w wa cache Hsetup) in H.
  destruct (run fn randomString (S n)
              (assertReducerShape fn randomString (final_reducers reducers)) wa)
    as [[x|e|] w1]; [| |discriminate H]; injection H as <- _; eauto.
Qed.

End FirstLoopRuns.

Lemma existsb_slice_changed_false (slices : list slice) :
  Forall (fun s => strict_eq (slice_next s) (slice_previous s) = true) slices ->
  existsb slice_changed slices = false.
Proof.
  induction 1 as [|s slices Hs _ IH]; simpl; [reflexivity|].
  unfold slice_changed at 1. rewrite Hs, IH. reflexivity.
Qed.

Lemma existsb_slice_changed_true (slices : list slice) :
  Exists (fun s => strict_eq (slice_next s) (slice_previous s) = false) slices ->
  existsb slice_changed slices = true.
Proof.
  induction 1 as [s slices Hs|s slices _ IH]; simpl.
  - unfold slice_changed at 1. rewrite Hs. reflexivity.
  - rewrite IH. apply orb_true_r.
Qed.

Section CombinationProperties.

Context (fn : fid -> list value -> prog value).
Context (randomString : nat -> string).
Context (production : bool).

Lemma run_slices_reduces (n : nat) (c : combined) (state action : value)
    (keys : list string) :
  forall (w w' : world) (slices : list slice),
    run_slices fn randomString n c state action keys w = Some (slices, w') ->
    reduces fn randomString n c state action keys w slices w'.
Proof.
  induction keys as [|key keys IH]; intros w w' slices H; simpl in H.
  - injection H as <- <-. constructor.
  - destruct (Get (heap w) state key) as [previous| |] eqn:Hget; try discriminate.
    destruct (run fn randomString (S n)
                (call_fn fn (prop key (finalReducers c)) [previous; action]) w)
      as [[next| |] w1] eqn:Hrun; try discriminate.
    destruct (is_undefined next) eqn:Hdef; try discriminate.
    destruct (run_slices fn randomString n c state action keys w1)
      as [[slices' w2]|] eqn:Hrest; try discriminate.
    injection H as <- <-. econstructor; eauto.
Qed.

(** The object that [combination] returns when a slice changed is new. *)
Lemma combination_fresh (n : nat) (c : combined) (state action : value)
    (w w0 w' : world) (s : value) (slices : list slice) (o : object) :
  run fn randomString (S n) (combination_entry randomString production c state action) w
  = (Ok s, w0) ->
  reduces fn randomString n c s action (finalReducerKeys c) w0 slices w' ->
  heap w !! fst (alloc o w') = None /\
  heap w0 !! fst (alloc o w') = None /\
  heap (snd (alloc o w')) !! fst (alloc o w') = Some o.
Proof.
  intros Hentry Hred. destruct (alloc_heap o w') as (_ & Hnew & Hfree).
  pose proof (frame_heap _ _ (reduces_frame fn randomString _ _ _ _ _ _ _ _ Hred)) as H1.
  destruct (combination_entry_result fn randomString production n c state action
              w w0 s Hentry) as [_ Hframe].
  pose proof (frame_heap _ _ Hframe) as H0.
  assert (forall (h : gmap loc object) l, h ⊆ heap w' -> heap w' !! l = None -> h !! l = None)
    as Hsub.
  { intros h l Hh Hl. destruct (h !! l) as [x|] eqn:Hx; [|reflexivity].
    rewrite (lookup_weaken _ _ _ _ Hx Hh) in Hl. discriminate. }
  split; [|split].
  - apply Hsub; [etrans; eauto|exact Hfree].
  - apply Hsub; [exact H1|exact Hfree].
  - exact Hnew.
Qed.

(** C5. Let [combineReducers] return the combined reducer [c] for a mapping
    [reducers] (with pairwise distinct keys, as an object has). Its
    sub-reducers are the function-valued entries of the mapping, in their
    order. If [c] has captured no shape error (every reducer passed the
    checks for undefined state and unknown actions), let a call get past
    its entry with state [s] (the state it was given, or the empty object
    of the default parameter for an undefined one), and let the
    sub-reducers, called in that order on their slices of [s], return
    defined values. If every one returns a value [===] to the slice it
    received, the call returns [s] itself and no new object. If some
    sub-reducer returns a different value, the call returns a new object:
    its location was free in the heap before the call and until the last
    sub-reducer had returned, and it holds, for each sub-reducer in order,
    its key with the value it returned, and nothing else. *)
Theorem combination_returns_same_reference (m n : nat)
    (reducers : list (string * value)) (c : combined) (wc wc' : world) :
  NoDup (map fst reducers) ->
  run fn randomString (S m) (combineReducers fn randomString production reducers) wc
  = (Ok c, wc') ->
  finalReducers c = function_entries reducers /\
  finalReducerKeys c = map fst (function_entries reducers) /\
  (shapeAssertionError c = None ->
   forall (state action s : value) (w w0 w' : world) (slices : list slice),
     run fn randomString (S n) (combination_entry randomString production c state action) w
     = (Ok s, w0) ->
     reduces fn randomString n c s action (map fst (function_entries reducers))
       w0 slices w' ->
     (state <> VUndef -> s = state) /\
     (Forall (fun x => strict_eq (slice_next x) (slice_previous x) = true) slices ->
      run fn randomString (S n) (combination fn randomString production c state action) w
      = (Ok s, w')) /\
     (Exists (fun x => strict_eq (slice_next x) (slice_previous x) = false) slices ->
      exists l w'',
        run fn randomString (S n) (combination fn randomString production c state action) w
        = (Ok (VObj l), w'') /\
        heap w !! l = None /\
        heap w0 !! l = None /\
        heap w' !! l = None /\
        heap w'' !! l
        = Some (Object (Some ObjectPrototype)
                  (map (fun x => (slice_key x, slice_next x)) slices)))).
Proof.
  intros Hnd Hbuild.
  destruct (combineReducers_result fn randomString production m reducers wc wc' c Hbuild)
    as (cache & err & ->).
  pose proof (final_reducers_functions reducers Hnd) as Hfinal.
  unfold closure. simpl finalReducers. simpl finalReducerKeys. simpl shapeAssertionError.
  rewrite Hfinal. split; [reflexivity|]. split; [reflexivity|].
  intros ->. rewrite <- Hfinal. fold (closure reducers cache None).
  intros state action s w w0 w' slices Hentry Hred.
  change (map fst (final_reducers reducers))
    with (finalReducerKeys (closure reducers cache None)) in Hred.
  split; [|split].
  - intros Hs.
    destruct (combination_entry_result fn randomString production n _ state action
                w w0 s Hentry) as [-> _].
    unfold default_state, strict_eq.
    rewrite bool_decide_eq_false_2 by exact Hs. reflexivity.
  - intros Hall.
    rewrite (combination_run fn randomString production n _ state action w w0 w' s slices)
      by assumption.
    rewrite existsb_slice_changed_false by exact Hall. reflexivity.
  - intros Hex.
    rewrite (combination_run fn randomString production n _ state action w w0 w' s slices)
      by assumption.
    rewrite existsb_slice_changed_true by exact Hex.
    assert (next_state slices []
            = map (fun x => (slice_key x, slice_next x)) slices) as Hobj.
    { apply (next_state_fresh slices []). simpl.
      rewrite (reduces_keys fn randomString _ _ _ _ _ _ _ _ Hred).
      apply final_reducers_NoDup. }
    rewrite Hobj. eexists _, _. split; [reflexivity|].
    destruct (combination_fresh n _ state action w w0 w' s slices
                (Object (Some ObjectPrototype)
                   (map (fun x => (slice_key x, slice_next x)) slices)) Hentry Hred)
      as (H1 & H2 & H3).
    split; [exact H1|]. split; [exact H2|]. split; [|exact H3].
    apply (alloc_heap _ w').
Qed.

(** C10. For the combined reducer of a reducer mapping, in a call that gets
    past its entry with state [s] and whose sub-reducers return defined
    values: if some slice changed, the result is a new object whose own keys
    are exactly the keys of [finalReducers], in that order, so a key of the
    state that is not among them is absent from the result; if no slice
    changed, the result is [s] itself, and the object it refers to is as it
    was, with all its keys. *)
Theorem combination_keeps_unknown_keys_only_when_unchanged (n : nat)
    (reducers : list (string * value)) (cache : option nat) (err : option exn)
    (state action s : value) (w w0 w' : world) (slices : list slice) :
  let c := closure reducers cache err in
  run fn randomString (S n) (combination_entry randomString production c state action) w
  = (Ok s, w0) ->
  reduces fn randomString n c s action (finalReducerKeys c) w0 slices w' ->
  (existsb slice_changed slices = true ->
   exists l w'' ps,
     run fn randomString (S n) (combination fn randomString production c state action) w
     = (Ok (VObj l), w'') /\
     heap w !! l = None /\
     heap w'' !! l = Some (Object (Some ObjectPrototype) ps) /\
     map fst ps = map fst (final_reducers reducers) /\
     (forall key, ~ In key (map fst (final_reducers reducers)) -> assoc key ps = None)) /\
  (existsb slice_changed slices = false ->
   run fn randomString (S n) (combination fn randomString production c state action) w
   = (Ok s, w') /\
   forall l o, s = VObj l -> heap w0 !! l = Some o -> heap w' !! l = Some o).
Proof.
  intros c Hentry Hred.
  pose proof (reduces_keys fn randomString _ _ _ _ _ _ _ _ Hred) as Hkeys.
  simpl in Hkeys.
  split.
  - intros Hch.
    rewrite (combination_run fn randomString production n c state action w w0 w' s slices)
      by assumption.
    rewrite Hch. eexists _, _, _. split; [reflexivity|].
    destruct (combination_fresh n c state action w w0 w' s slices
                (Object (Some ObjectPrototype) (next_state slices [])) Hentry Hred)
      as (Hf & _ & Hnew).
    split; [exact Hf|]. split; [exact Hnew|]. split.
    + rewrite next_state_keys; simpl; [exact Hkeys|].
      rewrite Hkeys. apply final_reducers_NoDup.
    + intros key Hin. rewrite next_state_assoc_other; [reflexivity|].
      rewrite Hkeys. exact Hin.
  - intros Hch.
    rewrite (combination_run fn randomString production n c state action w w0 w' s slices)
      by assumption.
    rewrite Hch. split; [reflexivity|].
    intros l o _ Hl.
    pose proof (frame_heap _ _ (reduces_frame fn randomString _ _ _ _ _ _ _ _ Hred)) as Hsub.
    exact (lookup_weaken _ _ _ _ Hl Hsub).
Qed.

End CombinationProperties.

(** [{ a: reducer 10, b: reducer 11, skip: 3 }] in the development build, on
    the state [{ a: 1, b: 2, x: 9 }]: the entry warns about the key [x], once. *)
Lemma sample_slices_unchanged :
  exists w0 w',
    run sample_fn sample_randomString 2
      (combination_entry sample_randomString false
         sample_closure (VObj 6%positive) (VObj 4%positive))
      sample_dev_world
    = (Ok (VObj 6%positive), w0) /\
    run_slices sample_fn sample_randomString 1 sample_closure
      (VObj 6%positive) (VObj 4%positive) ["a"; "b"] w0
    = Some ([Slice "a" (VNum 1) (VNum 1); Slice "b" (VNum 2) (VNum 2)], w').
Proof.
  eexists _, _. split; [vm_compute; reflexivity|]. vm_compute; reflexivity.
Qed.

Lemma sample_slices_changed :
  exists w0 w',
    run sample_fn sample_randomString 2
      (combination_entry sample_randomString false
         sample_closure (VObj 6%positive) (VObj 5%positive))
      sample_dev_world
    = (Ok (VObj 6%positive), w0) /\
    run_slices sample_fn sample_randomString 1 sample_closure
      (VObj 6%positive) (VObj 5%positive) ["a"; "b"] w0
    = Some ([Slice "a" (VNum 1) (VNum 1); Slice "b" (VNum 2) (VNum 3)], w').
Proof.
  eexists _, _. split; [vm_compute; reflexivity|]. vm_compute; reflexivity.
Qed.

Example sample_warning :
  warnings (snd (run sample_fn sample_randomString 2
                   (let* _ := sample_combination (VObj 4%positive) in
                    sample_combination (VObj 4%positive)) sample_dev_world))
  = [msg_unexpected_keys "previous state received by the reducer" ["x"] ["a"; "b"]].
Proof. vm_compute. reflexivity. Qed.

(** [combineReducers({ a: reducer 10, b: reducer 11, skip: 3 })] in the
    development build, then two calls on the state [{ a: 1, b: 2, x: 9 }]:
    with an action that both reducers ignore, and with the action "inc",
    for which reducer 11 returns 3. *)
Lemma sample_built :
  run sample_fn sample_randomString 2
    (combineReducers sample_fn sample_randomString false sample_reducers) sample_world
  = (Ok sample_closure, sample_built_world).
Proof. vm_compute. reflexivity. Qed.

Lemma sample_built_unchanged :
  exists w0 w',
    run sample_fn sample_randomString 2
      (combination_entry sample_randomString false
         sample_closure (VObj 6%positive) (VObj 4%positive))
      sample_built_world
    = (Ok (VObj 6%positive), w0) /\
    run_slices sample_fn sample_randomString 1 sample_closure
      (VObj 6%positive) (VObj 4%positive) ["a"; "b"] w0
    = Some ([Slice "a" (VNum 1) (VNum 1); Slice "b" (VNum 2) (VNum 2)], w').
Proof.
  eexists _, _. split; [vm_compute; reflexivity|]. vm_compute; reflexivity.
Qed.

Lemma sample_built_changed :
  exists w0 w',
    run sample_fn sample_randomString 2
      (combination_entry sample_randomString false
         sample_closure (VObj 6%positive) (VObj 5%positive))
      sample_built_world
    = (Ok (VObj 6%positive), w0) /\
    run_slices sample_fn sample_randomString 1 sample_closure
      (VObj 6%positive) (VObj 5%positive) ["a"; "b"] w0
    = Some ([Slice "a" (VNum 1) (VNum 1); Slice "b" (VNum 2) (VNum 3)], w').
Proof.
  eexists _, _. split; [vm_compute; reflexivity|]. vm_compute; reflexivity.
Qed.

Lemma combination_returns_same_reference_witness :
  finalReducers sample_closure = [("a", VFun 10%nat); ("b", VFun 11%nat)] /\
  (exists w',
     run sample_fn sample_randomString 2 (sample_combination (VObj 4%positive))
       sample_built_world
     = (Ok (VObj 6%positive), w')) /\
  (exists l w'',
     run sample_fn sample_randomString 2 (sample_combination (VObj 5%positive))
       sample_built_world
     = (Ok (VObj l), w'') /\
     heap sample_built_world !! l = None /\
     heap w'' !! l
     = Some (Object (Some ObjectPrototype) [("a", VNum 1); ("b", VNum 3)])).
Proof.
  destruct (combination_returns_same_reference sample_fn sample_randomString false
              1 1 sample_reducers sample_closure sample_world sample_built_world)
    as (Hfinal & _ & Hcall).
  - apply (bool_decide_unpack _). vm_compute. exact I.
  - exact sample_built.
  - split; [exact Hfinal|]. split.
    + destruct sample_built_unchanged as (w0 & w' & Hentry & Hs).
      apply run_slices_reduces in Hs. exists w'.
      apply (proj1 (proj2 (Hcall eq_refl _ _ _ _ _ _ _ Hentry Hs))).
      repeat (apply Forall_cons_2; [reflexivity|]). apply Forall_nil_2.
    + destruct sample_built_changed as (w0 & w' & Hentry & Hs).
      apply run_slices_reduces in Hs.
      destruct (proj2 (proj2 (Hcall eq_refl _ _ _ _ _ _ _ Hentry Hs)))
        as (l & w'' & Hrun & Hfree & _ & _ & Hobj).
      * apply Exists_cons_tl, Exists_cons_hd. reflexivity.
      * exists l, w''. split; [exact Hrun|]. split; [exact Hfree|exact Hobj].
Defined.

Lemma combination_keeps_unknown_keys_only_when_unchanged_witness :
  exists l w'' ps,
    run sample_fn sample_randomString 2
      (sample_combination (VObj 5%positive))
      sample_dev_world
    = (Ok (VObj l), w'') /\
    heap w'' !! l = Some (Object (Some ObjectPrototype) ps) /\
    map fst ps = ["a"; "b"] /\ assoc "x" ps = None.
Proof.
  destruct sample_slices_changed as (w0 & w' & Hentry & Hs).
  apply run_slices_reduces in Hs.
  destruct (proj1 (combination_keeps_unknown_keys_only_when_unchanged sample_fn
                     sample_randomString false 1 sample_reducers (Some 0%nat) None
                     (VObj 6%positive) (VObj 5%positive) (VObj 6%positive)
                     sample_dev_world w0 w' _ Hentry Hs) eq_refl)
    as (l & w'' & ps & Hrun & _ & Hobj & Hkeys & Hother).
  exists l, w'', ps. split; [exact Hrun|]. split; [exact Hobj|].
  split; [exact Hkeys|]. apply Hother.
  vm_compute. intros [H|[H|[]]]; discriminate H.
Defined.

(** ** When the errors of the combinator are thrown *)

Section ErrorTiming.

Context (fn : fid -> list value -> prog value).
Context (randomString : nat -> string).
Context (production : bool).

Lemma run_forEach_app {A : Type} (n : nat) (xs ys : list A) (f : A -> prog unit)
    (w w1 : world) :
  run fn randomString n (forEach xs f) w = (Ok tt, w1) ->
  run fn randomString n (forEach (xs ++ ys) f) w = run fn randomString n (forEach ys f) w1.
Proof.
  revert w. induction xs as [|x xs IH]; intros w H.
  - simpl in H. injection H as <-. reflexivity.
  - change (forEach (x :: xs) f) with (let* _ := f x in forEach xs f) in H.
    change (forEach ((x :: xs) ++ ys) f) with (let* _ := f x in forEach (xs ++ ys) f).
    unfold run in *. rewrite interp_bind in *.
    destruct (interp (@perform fn randomString n) (f x) w) as [[[]|e|] w0];
      try discriminate.
    apply IH. exact H.
Qed.

(** The shape check of one key, when its reducer returns undefined. *)
Lemma assertReducerShape_body_undefined (n : nat) (reducers : list (string * value))
    (key : string) (w w' : world) (e : exn) :
  probe_undefined fn randomString n reducers key w e w' ->
  run fn randomString (S n) (assertReducerShape_body fn randomString reducers key) w
  = (Raise e, w').
Proof.
  intros H.
  destruct H as [w' H1|initialState w1 w' H1 Hdef probe w2 H2];
    unfold assertReducerShape_body, run in *;
    rewrite interp_bind, interp_trigger, perform_alloc; rewrite interp_bind.
  - rewrite H1. reflexivity.
  - rewrite H1, Hdef.
    rewrite interp_bind, interp_trigger, perform_random.
    rewrite interp_bind, interp_trigger, perform_alloc. rewrite interp_bind.
    fold probe. fold w2. rewrite H2. reflexivity.
Qed.

(** A captured shape error is thrown by every call of [combination]. *)
Lemma combination_raises_shape_error (m : nat) (c : combined) (e : exn)
    (state action : value) (w : world) :
  shapeAssertionError c = Some e -> exn_truthy e = true ->
  run fn randomString (S m) (combination fn randomString production c state action) w
  = (Raise e, snd (default_state state w)).
Proof.
  intros Hc He.
  rewrite combination_run_entry, (combination_entry_rethrows fn randomString production m c e)
    by assumption.
  reflexivity.
Qed.

(** A call of [combination] in which the sub-reducer of [key] returns
    undefined. *)
Lemma combination_undefined (n : nat) (c : combined) (state action s : value)
    (done : list string) (key : string) (rest : list string)
    (w w0 w1 w2 : world) (slices : list slice) (previous : value) :
  finalReducerKeys c = done ++ key :: rest ->
  run fn randomString (S n) (combination_entry randomString production c state action) w
  = (Ok s, w0) ->
  reduces fn randomString n c s action done w0 slices w1 ->
  Get (heap w1) s key = Ok previous ->
  run fn randomString (S n)
    (call_fn fn (prop key (finalReducers c)) [previous; action]) w1 = (Ok VUndef, w2) ->
  (truthy action = true -> exists t, Get (heap w2) action "type" = Ok t) ->
  exists actionDescription,
    run fn randomString (S n) (combination fn randomString production c state action) w
    = (Raise (Error (msg_undefined_state actionDescription key)), w2).
Proof.
  intros Hkeys Hentry Hred Hget Hrun Htype.
  destruct (combination_loop_undefined fn randomString n c s action done key rest
              w0 w1 w2 slices previous Hred Hget Hrun Htype false [])
    as [actionDescription Hloop].
  exists actionDescription.
  rewrite combination_run_entry, Hentry, Hkeys, Hloop. reflexivity.
Qed.

(** C6. (1) [combineReducers] never throws. (2) When the shape check finds
    that the reducer of [key] returns undefined for the INIT action or for
    the random probe (the reducers of the keys before it having passed),
    [combineReducers] returns normally, with the error captured, and every
    call of the combined reducer, the first one included, throws that
    error. (3) When, in the dispatch of a valid action to a store whose
    reducer is a combined reducer that gets past its entry, the reducer of
    [key] returns undefined (those before it having returned defined
    values), that very [dispatch] throws the error "Given ..., reducer "key"
    returned undefined ..." (and the flag is clear again). *)
Theorem combineReducers_error_timing (n : nat) (reducers : list (string * value))
    (w : world) :
  (forall o w',
     run fn randomString (S n) (combineReducers fn randomString production reducers) w
     = (o, w') ->
     forall e, o <> Raise e) /\
  (forall cache wa done key rest w1 w2 e,
     run fn randomString (S n) (combineReducers_setup production reducers) w
     = (Ok cache, wa) ->
     map fst (final_reducers reducers) = done ++ key :: rest ->
     run fn randomString (S n)
       (forEach done (assertReducerShape_body fn randomString (final_reducers reducers))) wa
     = (Ok tt, w1) ->
     probe_undefined fn randomString n (final_reducers reducers) key w1 e w2 ->
     run fn randomString (S n) (combineReducers fn randomString production reducers) w
     = (Ok (closure reducers cache (Some e)), w2) /\
     forall m state action w3,
       run fn randomString (S m)
         (combination fn randomString production (closure reducers cache (Some e))
            state action) w3
       = (Raise e, snd (default_state state w3))) /\
  (forall c f action done key rest w0 ws w1 w2 s slices previous,
     isDispatching w0 = false ->
     valid_action (heap w0) action ->
     currentReducer w0 = VFun f ->
     (forall s a, fn f [s; a] = combination fn randomString production c s a) ->
     finalReducerKeys c = done ++ key :: rest ->
     run fn randomString (S n)
       (combination_entry randomString production c (currentState w0) action)
       (set_isDispatching true w0) = (Ok s, ws) ->
     reduces fn randomString n c s action done ws slices w1 ->
     Get (heap w1) s key = Ok previous ->
     run fn randomString (S n)
       (call_fn fn (prop key (finalReducers c)) [previous; action]) w1 = (Ok VUndef, w2) ->
     (truthy action = true -> exists t, Get (heap w2) action "type" = Ok t) ->
     exists actionDescription,
       run fn randomString (S (S n)) (store_dispatch base_store action) w0
       = (Raise (Error (msg_undefined_state actionDescription key)),
          set_isDispatching false w2)).
Proof.
  split; [|split].
  - intros o w' H e ->.
    destruct (combineReducers_setup_run fn randomString production n reducers w)
      as (cache & wa & Hsetup).
    rewrite (combineReducers_run fn randomString production n reducers w wa cache Hsetup)
      in H.
    destruct (run fn randomString (S n)
                (assertReducerShape fn randomString (final_reducers reducers)) wa)
      as [[x|e'|] w1]; discriminate H.
  - intros cache wa done key rest w1 w2 e Hsetup Hkeys Hdone Hprobe.
    assert (run fn randomString (S n)
              (assertReducerShape fn randomString (final_reducers reducers)) wa
            = (Raise e, w2)) as Hassert.
    { unfold assertReducerShape. rewrite Hkeys.
      rewrite (run_forEach_app (S n) done (key :: rest) _ wa w1 Hdone).
      change (forEach (key :: rest)
                (assertReducerShape_body fn randomString (final_reducers reducers)))
        with (let* _ := assertReducerShape_body fn randomString
                          (final_reducers reducers) key in
              forEach rest (assertReducerShape_body fn randomString
                              (final_reducers reducers))).
      unfold run. rewrite interp_bind.
      pose proof (assertReducerShape_body_undefined n _ key w1 w2 e Hprobe) as Hb.
      unfold run in Hb. rewrite Hb. reflexivity. }
    split.
    + rewrite (combineReducers_run fn randomString production n reducers w wa cache
                 Hsetup), Hassert.
      reflexivity.
    + intros m state action w3. apply combination_raises_shape_error; [reflexivity|].
      destruct Hprobe; reflexivity.
  - intros c f action done key rest w0 ws w1 w2 s slices previous
           Hidle Hvalid Hred Hf Hkeys Hentry Hslices Hget Hrun Htype.
    destruct (combination_undefined n c (currentState w0) action s done key rest
                (set_isDispatching true w0) ws w1 w2 slices previous
                Hkeys Hentry Hslices Hget Hrun Htype) as [actionDescription Hcomb].
    exists actionDescription.
    apply (dispatch_reducer_raises fn randomString (S n) w0 w2 action f); try assumption.
    rewrite Hf. exact Hcomb.
Qed.

End ErrorTiming.

Lemma sample_probe_undefined :
  exists wa w1 w2,
    run sample_fn sample_randomString 2 (combineReducers_setup false sample_bad_reducers)
      sample_world = (Ok (Some 0%nat), wa) /\
    run sample_fn sample_randomString 2
      (forEach ["good"]
         (assertReducerShape_body sample_fn sample_randomString
            (final_reducers sample_bad_reducers))) wa = (Ok tt, w1) /\
    probe_undefined sample_fn sample_randomString 1 (final_reducers sample_bad_reducers)
      "bad" w1 (Error (msg_undefined_during_initialization "bad")) w2.
Proof.
  eexists _, _, _. split; [vm_compute; reflexivity|].
  split; [vm_compute; reflexivity|].
  apply probe_undefined_INIT. vm_compute. reflexivity.
Qed.

Lemma sample_live_undefined :
  exists ws w1 w2,
    run sample_fn_combined sample_randomString 2
      (combination_entry sample_randomString false
         (closure sample_live_reducers (Some 0%nat) None) (VObj 6%positive)
         (VObj 5%positive))
      (set_isDispatching true sample_combined_world) = (Ok (VObj 6%positive), ws) /\
    run_slices sample_fn_combined sample_randomString 1
      (closure sample_live_reducers (Some 0%nat) None) (VObj 6%positive)
      (VObj 5%positive) ["a"] ws
    = Some ([Slice "a" (VNum 1) (VNum 1)], w1) /\
    Get (heap w1) (VObj 6%positive) "c" = Ok VUndef /\
    run sample_fn_combined sample_randomString 2
      (call_fn sample_fn_combined (prop "c" (final_reducers sample_live_reducers))
         [VUndef; VObj 5%positive]) w1 = (Ok VUndef, w2) /\
    Get (heap w2) (VObj 5%positive) "type" = Ok (VStr "inc").
Proof.
  eexists _, _, _. split; [vm_compute; reflexivity|].
  split; [vm_compute; reflexivity|].
  split; [vm_compute; reflexivity|]. split; [vm_compute; reflexivity|].
  vm_compute; reflexivity.
Qed.

Lemma combineReducers_error_timing_witness :
  (exists w2,
     run sample_fn sample_randomString 2
       (combineReducers sample_fn sample_randomString false sample_bad_reducers)
       sample_world
     = (Ok (closure sample_bad_reducers (Some 0%nat)
              (Some (Error (msg_undefined_during_initialization "bad")))), w2)) /\
  (exists actionDescription w',
     run sample_fn_combined sample_randomString 3
       (store_dispatch base_store (VObj 5%positive)) sample_combined_world
     = (Raise (Error (msg_undefined_state actionDescription "c")), w')).
Proof.
  split.
  - destruct sample_probe_undefined as (wa & w1 & w2 & Hsetup & Hdone & Hprobe).
    exists w2.
    apply (proj1 (proj2 (combineReducers_error_timing sample_fn sample_randomString
                           false 1 sample_bad_reducers sample_world))
             (Some 0%nat) wa ["good"] "bad" [] w1 w2 _ Hsetup eq_refl Hdone Hprobe).
  - destruct sample_live_undefined as (ws & w1 & w2 & Hentry & Hslices & Hget & Hrun & Htype).
    apply run_slices_reduces in Hslices.
    destruct (proj2 (proj2 (combineReducers_error_timing sample_fn_combined
                              sample_randomString false 1 [] sample_world))
                (closure sample_live_reducers (Some 0%nat) None) 20%nat (VObj 5%positive)
                ["a"] "c" [] sample_combined_world ws
                w1 w2 (VObj 6%positive) [Slice "a" (VNum 1) (VNum 1)] VUndef)
      as [actionDescription Hd].
    + vm_compute; reflexivity.
    + split; [vm_compute; reflexivity|].
      exists (VStr "inc"). split; vm_compute; reflexivity.
    + vm_compute; reflexivity.
    + intros s a. reflexivity.
    + reflexivity.
    + exact Hentry.
    + exact Hslices.
    + exact Hget.
    + exact Hrun.
    + intros _. eexists. exact Htype.
    + eexists _, _. exact Hd.
Defined.

(** ** The shape validator, characterised *)

Lemma proto_end_is_end (fuel : nat) (h : gmap loc object) (l p : loc) :
  proto_end fuel h l = Ok p -> getPrototypeOf h p = None.
Proof.
  revert l. induction fuel as [|fuel IH]; intros l H; simpl in H; [discriminate|].
  destruct (getPrototypeOf h l) as [q|] eqn:Hq.
  - eapply IH. exact H.
  - injection H as <-. exact Hq.
Qed.

Lemma proto_end_no_raise (fuel : nat) (h : gmap loc object) (l : loc) (e : exn) :
  proto_end fuel h l <> Raise e.
Proof.
  revert l. induction fuel as [|fuel IH]; intros l; simpl; [discriminate|].
  destruct (getPrototypeOf h l); [apply IH|discriminate].
Qed.

Lemma isPlainObject_obj (h : gmap loc object) (l : loc) :
  isPlainObject h (VObj l) =
  match proto_end (S (size h)) h l with
  | Ok p => Ok (bool_decide (getPrototypeOf h l = Some p))
  | Raise e => Raise e
  | Diverge => Diverge
  end.
Proof. reflexivity. Qed.

Lemma isPlainObject_true_inv (h : gmap loc object) (v : value) :
  isPlainObject h v = Ok true ->
  exists l p, v = VObj l /\ getPrototypeOf h l = Some p /\ getPrototypeOf h p = None.
Proof.
  intros H. destruct v; try discriminate H.
  rewrite isPlainObject_obj in H.
  destruct (proto_end (S (size h)) h l) as [p|e|] eqn:Hp; try discriminate H.
  injection H as H. apply bool_decide_eq_true_1 in H.
  exists l, p. split; [reflexivity|]. split; [exact H|].
  eapply proto_end_is_end. exact Hp.
Qed.

(** X1. [isPlainObject(v)] is true exactly when [v] is an object whose
    prototype exists and has itself no prototype: the chain from [v] has
    one link. It never throws. *)
Theorem isPlainObject_true_iff (h : gmap loc object) (v : value) :
  (isPlainObject h v = Ok true <->
   exists l p, v = VObj l /\ getPrototypeOf h l = Some p /\ getPrototypeOf h p = None) /\
  (forall e, isPlainObject h v <> Raise e).
Proof.
  split; [split|].
  - apply isPlainObject_true_inv.
  - intros (l & p & -> & Hl & Hp).
    rewrite isPlainObject_obj.
    assert (size h <> 0%nat) as Hsz.
    { unfold getPrototypeOf in Hl. destruct (h !! l) eqn:Hhl; [|discriminate].
      apply (map_size_ne_0_lookup_2 _ l). eauto. }
    destruct (size h) as [|k]; [congruence|]. simpl.
    rewrite Hl, Hp. rewrite bool_decide_eq_true_2; reflexivity.
  - intros e. destruct v; try discriminate.
    rewrite isPlainObject_obj.
    destruct (proto_end (S (size h)) h l) as [p|e'|] eqn:Hp; try discriminate.
    exfalso. eapply proto_end_no_raise. exact Hp.
Qed.

(** ** The function pipe over a concatenation *)


(** ** Runs as sequences of primitive transitions *)

Section Steps.

Context (fn : fid -> list value -> prog value).
Context (randomString : nat -> string).

Lemma call_function_steps (call : forall R : Type, prog R -> M R) :
  steps_call call ->
  forall f args w o w',
    call_function fn call f args w = (o, w') -> o <> Diverge -> rtc step w w'.
Proof.
  intros Hcall f args w o w' H Ho.
  destruct f; simpl in H; try (injection H as <- <-; apply rtc_refl).
  eapply Hcall; eauto.
Qed.

Lemma notify_steps (call : forall R : Type, prog R -> M R) :
  steps_call call ->
  forall b listeners i w o w',
    notify fn call b listeners i w = (o, w') -> o <> Diverge -> rtc step w w'.
Proof.
  intros Hcall b. induction b as [|b IH]; intros listeners i w o w' H Ho; simpl in H.
  - injection H as <- <-. congruence.
  - destruct ((arrays w !!! listeners) !! i) as [listener|];
      [|injection H as <- <-; apply rtc_refl].
    destruct (call_function fn call listener [] w) as [[x|e|] w1] eqn:Hc.
    + etrans; [|eapply IH; eauto].
      eapply call_function_steps; eauto; discriminate.
    + injection H as <- <-. eapply call_function_steps; eauto.
    + injection H as <- <-. congruence.
Qed.

Lemma dispatch_reduce_steps (b : nat) (call : forall R : Type, prog R -> M R) :
  steps_call call ->
  forall action w o w',
    dispatch_reduce fn b call action w = (o, w') -> o <> Diverge -> rtc step w w'.
Proof.
  intros Hcall action w o w' H Ho. unfold dispatch_reduce in H.
  eapply rtc_l; [apply (step_flag true)|].
  destruct (call_function fn call (currentReducer (set_isDispatching true w))
              [currentState (set_isDispatching true w); action]
              (set_isDispatching true w)) as [[s|e|] w2] eqn:Hc.
  - etrans; [eapply call_function_steps; eauto; discriminate|].
    eapply rtc_l; [apply (step_state s)|].
    eapply rtc_l; [apply (step_flag false)|].
    eapply rtc_l; [apply step_commit|].
    match type of H with
    | match notify _ _ _ ?l _ ?w4 with _ => _ end = _ =>
        destruct (notify fn call b l 0 w4) as [[u|e|] w5] eqn:Hn
    end; injection H as <- <-; try congruence;
      (eapply notify_steps; [exact Hcall|exact Hn|discriminate]).
  - injection H as <- <-.
    etrans; [eapply call_function_steps; eauto; discriminate|].
    apply rtc_once. apply step_flag.
  - injection H as <- <-. congruence.
Qed.

Lemma dispatch_steps (b : nat) (call : forall R : Type, prog R -> M R) :
  steps_call call ->
  forall action w o w',
    dispatch fn b call action w = (o, w') -> o <> Diverge -> rtc step w w'.
Proof.
  intros Hcall action w o w' H Ho. unfold dispatch in H.
  destruct (isPlainObject (heap w) action) as [[|]|e|];
    try (injection H as <- <-; apply rtc_refl).
  destruct (Get (heap w) action "type") as [t|e|];
    try (injection H as <- <-; apply rtc_refl).
  destruct (is_undefined t); [injection H as <- <-; apply rtc_refl|].
  destruct (isDispatching w); [injection H as <- <-; apply rtc_refl|].
  eapply dispatch_reduce_steps; eauto.
Qed.

Lemma handle_steps (b : nat) (call : forall R : Type, prog R -> M R) :
  steps_call call ->
  forall (X : Type) (e : storeE X) w o w',
    handle fn randomString b call e w = (o, w') -> o <> Diverge -> rtc step w w'.
Proof.
  intros Hcall X e w o w' H Ho.
  destruct e as [|action|listener|token|nextReducer|action|ob|v key| |v|v|v|
                 |message| |cache key|cache key]; simpl in H.
  - unfold getState in H. destruct (isDispatching w); injection H as <- <-; apply rtc_refl.
  - eapply dispatch_steps; eauto.
  - apply rtc_once. eapply step_subscribe; eauto.
  - apply rtc_once. eapply step_unsubscribe; eauto.
  - unfold replaceReducer in H.
    destruct (negb (is_function nextReducer)); [injection H as <- <-; apply rtc_refl|].
    eapply rtc_l; [apply (step_reducer nextReducer)|].
    eapply rtc_l; [apply (step_alloc (action_of_type (ActionTypes_REPLACE randomString)))|].
    destruct (alloc (action_of_type (ActionTypes_REPLACE randomString))
                (set_currentReducer nextReducer w)) as [l w2] eqn:Hal. simpl.
    destruct (dispatch fn b call (VObj l) w2) as [[x|e|] w3] eqn:Hdp;
      injection H as <- <-; try congruence;
      (eapply dispatch_steps; [exact Hcall|exact Hdp|discriminate]).
  - unfold api_dispatch in H. destruct (mw_dispatch w).
    + eapply Hcall; eauto.
    + injection H as <- <-. apply rtc_refl.
  - injection H as <- <-. apply rtc_once. exact (step_alloc ob w).
  - injection H as <- <-. apply rtc_refl.
  - injection H as <- <-. apply rtc_refl.
  - injection H as <- <-. apply rtc_refl.
  - injection H as <- <-. apply rtc_refl.
  - injection H as <- <-. apply rtc_once. apply step_log.
  - injection H as <- <-. apply rtc_once. apply step_rng.
  - injection H as <- <-. apply rtc_once. apply step_warning.
  - injection H as <- <-. apply rtc_once. apply step_cache_new.
  - injection H as <- <-. apply rtc_refl.
  - injection H as <- <-. apply rtc_once. apply step_cache_set.
Qed.

Lemma interp_steps (perform : forall X : Type, storeE X -> M X) :
  (forall X e w o w', perform X e w = (o, w') -> o <> Diverge -> rtc step w w') ->
  forall (R : Type) (p : prog R) w o w',
    interp perform p w = (o, w') -> o <> Diverge -> rtc step w w'.
Proof.
  intros Hp R p. induction p as [r|e|X e k IH]; intros w o w' H Ho; simpl in H.
  - injection H as <- <-. apply rtc_refl.
  - injection H as <- <-. apply rtc_refl.
  - destruct (perform X e w) as [[x|err|] w1] eqn:He.
    + etrans; [eapply Hp; [exact He|discriminate]|eapply IH; eauto].
    + etrans; [eapply Hp; [exact He|discriminate]|eapply IH; eauto].
    + injection H as <- <-. congruence.
Qed.

(** Whatever runs, and however deeply nested, changes the world only by
    primitive transitions. *)
Lemma run_steps (n : nat) : steps_call (fun R => run fn randomString n).
Proof.
  induction n as [|n IH]; intros R p w o w' H Ho.
  - eapply (interp_steps (@perform fn randomString 0)); eauto.
    intros X e w0 o0 w0' H0 Ho0. simpl in H0. injection H0 as <- <-. congruence.
  - eapply (interp_steps (@perform fn randomString (S n))); eauto.
    intros X e w0 o0 w0' H0 Ho0. simpl in H0.
    eapply handle_steps; eauto.
Qed.

End Steps.

(** ** Subscribing and unsubscribing *)

Lemma indexOf_from_found (x : value) (l : list value) (i : Z) :
  x ∈ l ->
  exists k : nat,
    indexOf_from x l i = i + Z.of_nat k /\ l !! k = Some x /\
    forall j : nat, (j < k)%nat -> l !! j <> Some x.
Proof.
  revert i. induction l as [|y l IH]; intros i Hin.
  - apply elem_of_nil in Hin. contradiction.
  - simpl. unfold strict_eq. destruct (bool_decide (y = x)) eqn:Hb.
    + apply bool_decide_eq_true_1 in Hb. subst y. exists 0%nat.
      split; [lia|]. split; [reflexivity|]. intros j Hj. lia.
    + apply bool_decide_eq_false_1 in Hb.
      apply elem_of_cons in Hin. destruct Hin as [->|Hin]; [congruence|].
      destruct (IH (i + 1) Hin) as (k & Hk & Hl & Hmin).
      exists (S k). split; [lia|]. split; [exact Hl|].
      intros [|j] Hj; simpl.
      * congruence.
      * apply Hmin. lia.
Qed.

Lemma indexOf_from_missing (x : value) (l : list value) (i : Z) :
  x ∉ l -> indexOf_from x l i = -1.
Proof.
  revert i. induction l as [|y l IH]; intros i Hin; [reflexivity|].
  simpl. unfold strict_eq. apply not_elem_of_cons in Hin. destruct Hin as [Hne Hin].
  rewrite bool_decide_eq_false_2 by congruence. apply IH. exact Hin.
Qed.

Lemma splice1_at (k : nat) (l : list value) :
  (k <= length l)%nat -> splice1 (Z.of_nat k) l = delete k l.
Proof.
  intros Hk. unfold splice1.
  destruct (Z.of_nat k <? 0) eqn:Hneg; [apply Z.ltb_lt in Hneg; lia|].
  rewrite Z.min_l by lia. rewrite Nat2Z.id. reflexivity.
Qed.

(** [splice(-1, 1)] removes the last element. *)
Lemma splice1_minus_one (l : list value) :
  splice1 (-1) l = delete (length l - 1)%nat l.
Proof.
  unfold splice1. change (-1 <? 0) with true. cbv iota zeta.
  destruct l as [|x l]; [reflexivity|].
  f_equal. rewrite length_cons. lia.
Qed.

Lemma live_listeners_app (sb1 sb2 : list (value * bool)) :
  live_listeners (sb1 ++ sb2) = live_listeners sb1 ++ live_listeners sb2.
Proof.
  unfold live_listeners. rewrite List.filter_app, map_app. reflexivity.
Qed.

Lemma live_listeners_unsubscribe (sb : list (value * bool)) (token : nat) (l : value) :
  sb !! token = Some (l, true) ->
  exists j : nat,
    live_listeners sb !! j = Some l /\
    live_listeners (<[token := (l, false)]> sb) = delete j (live_listeners sb).
Proof.
  intros H.
  pose proof (lookup_lt_Some _ _ _ H) as Hlt.
  assert (sb = take token sb ++ (l, true) :: drop (S token) sb) as Hsb
    by (symmetry; apply take_drop_middle; exact H).
  assert (<[token := (l, false)]> sb = take token sb ++ (l, false) :: drop (S token) sb)
    as Hins by (apply insert_take_drop; exact Hlt).
  rewrite Hins. clear Hins.
  generalize dependent (take token sb). generalize dependent (drop (S token) sb).
  intros post pre ->. clear H Hlt.
  exists (length (live_listeners pre)).
  rewrite !live_listeners_app.
  change (live_listeners ((l, true) :: post)) with (l :: live_listeners post).
  change (live_listeners ((l, false) :: post)) with (live_listeners post).
  split.
  - apply list_lookup_middle. reflexivity.
  - rewrite delete_middle. reflexivity.
Qed.

(** What a successful [subscribe] does. *)
Lemma subscribe_spec (listener : value) (w : world) :
  is_function listener = true -> isDispatching w = false ->
  exists w',
    subscribe listener w = (Ok (length (subs w)), w') /\
    subs w' = subs w ++ [(listener, true)] /\
    arrays w' !!! nextListeners w' = arrays w !!! nextListeners w ++ [listener] /\
    currentListeners w' = currentListeners w /\
    heap w' = heap w /\ currentState w' = currentState w /\
    currentReducer w' = currentReducer w /\ isDispatching w' = false /\
    mw_dispatch w' = mw_dispatch w /\ caches w' = caches w /\
    forall a, protected w a -> arrays w' !! a = arrays w !! a.
Proof.
  intros Hf Hd. unfold subscribe. rewrite Hf, Hd. simpl negb. cbv iota.
  eexists. split; [reflexivity|].
  destruct (ensureCanMutateNextListeners_spec (set_subs (subs w ++ [(listener, true)]) w))
    as (Hh & Hs & Hc & Hi & Hsb & Hnl & Hp).
  set (w2 := ensureCanMutateNextListeners (set_subs (subs w ++ [(listener, true)]) w)) in *.
  assert (mw_dispatch w2 = mw_dispatch w /\ caches w2 = caches w /\
          currentReducer w2 = currentReducer w) as (Hmw & Hca & Hcr).
  { unfold w2, ensureCanMutateNextListeners.
    destruct (bool_decide _); destruct w; repeat split. }
  destruct w2 as [h2 ar2 sb2 lg2 rg2 wn2 ch2 mw2 cr2 cs2 cl2 nl2 isd2] eqn:Hw2.
  simpl in *.
  split; [destruct w; exact Hsb|].
  split; [rewrite lookup_total_insert_eq, Hnl; destruct w; reflexivity|].
  split; [destruct w; exact Hc|].
  split; [destruct w; exact Hh|].
  split; [destruct w; exact Hs|].
  split; [exact Hcr|].
  split; [destruct w; simpl in *; congruence|].
  split; [exact Hmw|]. split; [exact Hca|].
  intros a Ha.
  assert (protected (set_subs (subs w ++ [(listener, true)]) w) a) as Ha'
    by (destruct w; exact Ha).
  destruct (Hp a Ha') as [He Hne].
  rewrite lookup_insert_ne by congruence. rewrite He. destruct w; reflexivity.
Qed.

(** What a successful [unsubscribe] does. *)
Lemma unsubscribe_spec (token : nat) (listener : value) (w : world) :
  subs w !! token = Some (listener, true) -> isDispatching w = false ->
  exists w',
    unsubscribe token w = (Ok tt, w') /\
    subs w' = <[token := (listener, false)]> (subs w) /\
    arrays w' !!! nextListeners w'
    = splice1 (indexOf listener (arrays w !!! nextListeners w))
        (arrays w !!! nextListeners w) /\
    currentListeners w' = None /\
    heap w' = heap w /\ currentState w' = currentState w /\
    currentReducer w' = currentReducer w /\ isDispatching w' = false /\
    mw_dispatch w' = mw_dispatch w /\ caches w' = caches w /\
    forall a, protected w a -> arrays w' !! a = arrays w !! a.
Proof.
  intros Hs Hd. unfold unsubscribe. rewrite Hs, Hd. simpl negb. cbv iota.
  eexists. split; [reflexivity|].
  destruct (ensureCanMutateNextListeners_spec
              (set_subs (<[token := (listener, false)]> (subs w)) w))
    as (Hh & Hst & Hc & Hi & Hsb & Hnl & Hp).
  set (w2 := ensureCanMutateNextListeners
               (set_subs (<[token := (listener, false)]> (subs w)) w)) in *.
  assert (mw_dispatch w2 = mw_dispatch w /\ caches w2 = caches w /\
          currentReducer w2 = currentReducer w) as (Hmw & Hca & Hcr).
  { unfold w2, ensureCanMutateNextListeners.
    destruct (bool_decide _); destruct w; repeat split. }
  destruct w2 as [h2 ar2 sb2 lg2 rg2 wn2 ch2 mw2 cr2 cs2 cl2 nl2 isd2] eqn:Hw2.
  simpl in *.
  split; [destruct w; exact Hsb|].
  split; [rewrite lookup_total_insert_eq, Hnl; destruct w; reflexivity|].
  split; [reflexivity|].
  split; [destruct w; exact Hh|].
  split; [destruct w; exact Hst|].
  split; [exact Hcr|].
  split; [destruct w; simpl in *; congruence|].
  split; [exact Hmw|]. split; [exact Hca|].
  intros a Ha.
  assert (protected (set_subs (<[token := (listener, false)]> (subs w)) w) a) as Ha'
    by (destruct w; exact Ha).
  destruct (Hp a Ha') as [He Hne].
  rewrite lookup_insert_ne by congruence. rewrite He. destruct w; reflexivity.
Qed.

(** The branches of [unsubscribe] that change nothing. *)
Lemma unsubscribe_cases (token : nat) (w : world) (o : outcome unit) (w' : world) :
  unsubscribe token w = (o, w') ->
  w' = w \/
  exists listener,
    subs w !! token = Some (listener, true) /\ isDispatching w = false /\ o = Ok tt.
Proof.
  unfold unsubscribe. intros H.
  destruct (subs w !! token) as [[listener [|]]|] eqn:Hs; simpl in H.
  - destruct (isDispatching w) eqn:Hd.
    + injection H as <- <-. left. reflexivity.
    + injection H as <- _. right. exists listener. auto.
  - injection H as <- <-. left. reflexivity.
  - injection H as <- <-. left. reflexivity.
Qed.

Lemma subscribe_cases (listener : value) (w : world) (o : outcome nat) (w' : world) :
  subscribe listener w = (o, w') ->
  w' = w \/ (is_function listener = true /\ isDispatching w = false).
Proof.
  unfold subscribe. intros H.
  destruct (is_function listener); simpl in H; [|injection H as <- <-; left; reflexivity].
  destruct (isDispatching w); [injection H as <- <-; left; reflexivity|].
  right. auto.
Qed.

(** The draft listener array keeps holding one entry per live subscription. *)
Lemma step_listeners_inv (w w' : world) :
  step w w' -> listeners_inv w -> listeners_inv w'.
Proof.
  intros Hstep Hinv. unfold listeners_inv in *.
  destruct Hstep as [b w|s w|w|r w|ob w|v w|w|message w|w|cache key w
                    |listener w o w' Hsub|token w o w' Hun];
    try (destruct w; exact Hinv).
  - destruct (subscribe_cases _ _ _ _ Hsub) as [->|[Hf Hd]]; [exact Hinv|].
    destruct (subscribe_spec listener w Hf Hd) as (w1 & Hrun & Hsb & Hnl & _).
    rewrite Hrun in Hsub. injection Hsub as _ <-.
    rewrite Hsb, Hnl, live_listeners_app. rewrite Hinv. reflexivity.
  - destruct (unsubscribe_cases _ _ _ _ Hun) as [->|(listener & Hs & Hd & _)];
      [exact Hinv|].
    destruct (unsubscribe_spec token listener w Hs Hd) as (w1 & Hrun & Hsb & Hnl & _).
    rewrite Hrun in Hun. injection Hun as _ <-.
    rewrite Hsb, Hnl.
    destruct (live_listeners_unsubscribe _ _ _ Hs) as (j & Hj & ->).
    assert (listener ∈ arrays w !!! nextListeners w) as Hin.
    { rewrite Hinv. eapply list_elem_of_lookup_2. exact Hj. }
    destruct (indexOf_from_found listener _ 0 Hin) as (k & Hk & Hl & _).
    unfold indexOf. rewrite Hk, Z.add_0_l.
    rewrite splice1_at by (apply lookup_lt_Some in Hl; lia).
    apply (Permutation_cons_inv (a := listener)).
    rewrite <- (delete_Permutation _ _ _ Hl), <- (delete_Permutation _ _ _ Hj).
    exact Hinv.
Qed.

Lemma steps_listeners_inv (w w' : world) :
  rtc step w w' -> listeners_inv w -> listeners_inv w'.
Proof.
  induction 1 as [|w w1 w2 Hstep _ IH]; [auto|].
  intros H. apply IH. eapply step_listeners_inv; eauto.
Qed.

(** A subscription that is cancelled stays cancelled. *)
Lemma step_cancelled (w w' : world) (token : nat) (listener : value) :
  step w w' ->
  subs w !! token = Some (listener, false) -> subs w' !! token = Some (listener, false).
Proof.
  intros Hstep Hs.
  destruct Hstep as [b w|s w|w|r w|ob w|v w|w|message w|w|cache key w
                    |listener' w o w' Hsub|token' w o w' Hun];
    try (destruct w; exact Hs).
  - destruct (subscribe_cases _ _ _ _ Hsub) as [->|[Hf Hd]]; [exact Hs|].
    destruct (subscribe_spec listener' w Hf Hd) as (w1 & Hrun & Hsb & _).
    rewrite Hrun in Hsub. injection Hsub as _ <-.
    rewrite Hsb. apply lookup_app_l_Some. exact Hs.
  - destruct (unsubscribe_cases _ _ _ _ Hun) as [->|(l' & Hs' & Hd & _)]; [exact Hs|].
    destruct (unsubscribe_spec token' l' w Hs' Hd) as (w1 & Hrun & Hsb & _).
    rewrite Hrun in Hun. injection Hun as _ <-.
    rewrite Hsb. rewrite list_lookup_insert_ne; [exact Hs|]. congruence.
Qed.

Lemma steps_cancelled (w w' : world) (token : nat) (listener : value) :
  rtc step w w' ->
  subs w !! token = Some (listener, false) -> subs w' !! token = Some (listener, false).
Proof.
  induction 1 as [|w w1 w2 Hstep _ IH]; [auto|].
  intros H. apply IH. eapply step_cancelled; eauto.
Qed.

(** Nothing that runs assigns the [dispatch] variable of [applyMiddleware]. *)
Lemma step_mw_dispatch (w w' : world) : step w w' -> mw_dispatch w' = mw_dispatch w.
Proof.
  intros Hstep.
  destruct Hstep as [b w|s w|w|r w|ob w|v w|w|message w|w|cache key w
                    |listener w o w' Hsub|token w o w' Hun];
    try (destruct w; reflexivity).
  - destruct (subscribe_cases _ _ _ _ Hsub) as [->|[Hf Hd]]; [reflexivity|].
    destruct (subscribe_spec listener w Hf Hd) as (w1 & Hrun & H).
    rewrite Hrun in Hsub. injection Hsub as _ <-. apply H.
  - destruct (unsubscribe_cases _ _ _ _ Hun) as [->|(l' & Hs' & Hd & _)]; [reflexivity|].
    destruct (unsubscribe_spec token l' w Hs' Hd) as (w1 & Hrun & H).
    rewrite Hrun in Hun. injection Hun as _ <-. apply H.
Qed.

Lemma steps_mw_dispatch (w w' : world) : rtc step w w' -> mw_dispatch w' = mw_dispatch w.
Proof.
  induction 1 as [|w w1 w2 Hstep _ IH]; [reflexivity|].
  rewrite IH. apply step_mw_dispatch. exact Hstep.
Qed.

(** ** Construction of a store *)

Section ConstructionEdges.

Context (fn : fid -> list value -> prog value).
Context (randomString : nat -> string).
Context (enhancers : fid -> nat -> (list value -> M Store) -> list value -> M Store).

(** X3. [createStore(reducer, enhancer)]: when the second argument is a
    function and the third is undefined, the second is taken as the
    enhancer; the call is [createStore(reducer, undefined, enhancer)],
    whatever arguments follow. *)
Theorem createStore_enhancer_as_second_argument (n : nat) (args : list value) (w : world) :
  is_function (arg 1 args) = true -> is_undefined (arg 2 args) = true ->
  createStore fn randomString enhancers n args w
  = createStore fn randomString enhancers n [arg 0 args; VUndef; arg 1 args] w.
Proof.
  intros H1 H2.
  destruct (arg 2 args) eqn:E2; try discriminate H2.
  destruct (arg 1 args) eqn:E1; try discriminate H1.
  destruct n; simpl; rewrite E1, E2; reflexivity.
Qed.

(** Without enhancer, a reducer that is not a function is rejected. *)
Lemma createStore_reducer_not_function (n : nat) (args : list value) (w : world) :
  is_undefined (arg 2 args) = true -> is_function (arg 1 args) = false ->
  is_function (arg 0 args) = false ->
  createStore fn randomString enhancers n args w
  = (Raise (Error msg_reducer_not_function), w).
Proof.
  intros Hu Hp Hr.
  destruct (arg 2 args) eqn:E2; try discriminate Hu.
  destruct n; simpl; rewrite Hp, E2, Hr; reflexivity.
Qed.

(** X4. An enhancer that is neither undefined nor a function is rejected
    with "Expected the enhancer to be a function.", whatever the reducer is;
    without enhancer, a reducer that is not a function is rejected with
    "Expected the reducer to be a function.". Nothing is changed. *)
Theorem createStore_rejects_bad_arguments (n : nat) (args : list value) (w : world) :
  (is_undefined (arg 2 args) = false -> is_function (arg 2 args) = false ->
   createStore fn randomString enhancers n args w
   = (Raise (Error msg_enhancer_not_function), w)) /\
  (is_undefined (arg 2 args) = true -> is_function (arg 1 args) = false ->
   is_function (arg 0 args) = false ->
   createStore fn randomString enhancers n args w
   = (Raise (Error msg_reducer_not_function), w)).
Proof.
  split.
  - intros Hu Hf. destruct n; simpl; rewrite Hf, Hu;
      rewrite !andb_false_r; simpl; rewrite Hu, Hf; reflexivity.
  - apply createStore_reducer_not_function.
Qed.

(** The path of [createStore] without enhancer. *)
Lemma createStore_without_enhancer (n : nat) (args : list value) (w : world) :
  is_function (arg 0 args) = true -> is_function (arg 1 args) = false ->
  is_undefined (arg 2 args) = true ->
  createStore fn randomString enhancers n args w
  = match run fn randomString n
            (trigger (EDispatch (VObj (fresh (dom (heap w)))))) 
            (World (<[fresh (dom (heap w)) := action_of_type (ActionTypes_INIT randomString)]>
                      (heap w))
                   (<[fresh (dom (arrays w)) := []]> (arrays w)) (subs w) (log w) (rng w)
                   (warnings w) (caches w) (mw_dispatch w) (arg 0 args) (arg 1 args)
                   (Some (fresh (dom (arrays w)))) (fresh (dom (arrays w))) false) with
    | (Ok _, w5) => (Ok base_store, w5)
    | (Raise e, w5) => (Raise e, w5)
    | (Diverge, w5) => (Diverge, w5)
    end.
Proof.
  intros Hr Hp Hu. unfold run. rewrite interp_trigger.
  destruct (arg 2 args) eqn:E2; try discriminate Hu.
  destruct n; simpl; rewrite Hp, E2, Hr; simpl; destruct w; reflexivity.
Qed.

End ConstructionEdges.

Lemma createStore_enhancer_as_second_argument_witness :
  createStore sample_fn sample_randomString identity_enhancer 3
    [VFun 0%nat; VFun 8%nat] sample_world
  = createStore sample_fn sample_randomString identity_enhancer 3
      [VFun 0%nat; VUndef; VFun 8%nat] sample_world.
Proof.
  apply (createStore_enhancer_as_second_argument sample_fn sample_randomString
           identity_enhancer 3 [VFun 0%nat; VFun 8%nat] sample_world); reflexivity.
Defined.

Lemma createStore_rejects_bad_arguments_witness :
  createStore sample_fn sample_randomString identity_enhancer 3
    [VFun 0%nat; VNum 1; VNum 2] sample_world
  = (Raise (Error msg_enhancer_not_function), sample_world) /\
  createStore sample_fn sample_randomString identity_enhancer 3
    [VNum 0; VNum 1] sample_world
  = (Raise (Error msg_reducer_not_function), sample_world).
Proof.
  split.
  - apply (proj1 (createStore_rejects_bad_arguments sample_fn sample_randomString
                    identity_enhancer 3 [VFun 0%nat; VNum 1; VNum 2] sample_world));
      reflexivity.
  - apply (proj2 (createStore_rejects_bad_arguments sample_fn sample_randomString
                    identity_enhancer 3 [VNum 0; VNum 1] sample_world));
      reflexivity.
Defined.

(** ** Dispatching, subscribing and unsubscribing through the store *)

Section StoreEdges.

Context (fn : fid -> list value -> prog value).
Context (randomString : nat -> string).

Lemma run_store_subscribe (n : nat) (listener : value) (w : world) :
  run fn randomString (S n) (store_subscribe base_store listener) w = subscribe listener w.
Proof.
  unfold run. simpl store_subscribe. rewrite interp_trigger. reflexivity.
Qed.

Lemma run_unsubscribe (n : nat) (token : nat) (w : world) :
  run fn randomString (S n) (trigger (EUnsubscribe token)) w = unsubscribe token w.
Proof.
  unfold run. rewrite interp_trigger. reflexivity.
Qed.

Lemma run_store_replaceReducer (n : nat) (nextReducer : value) (w : world) :
  run fn randomString (S n) (store_replaceReducer base_store nextReducer) w
  = replaceReducer fn randomString n (fun R => run fn randomString n) nextReducer w.
Proof.
  unfold run. simpl store_replaceReducer. rewrite interp_trigger. reflexivity.
Qed.

Lemma call_function_run (n : nat) (f : value) (args : list value) (w : world) :
  call_function fn (fun R => run fn randomString n) f args w
  = run fn randomString n (call_fn fn f args) w.
Proof. destruct f; reflexivity. Qed.

(** An object literal [{ type: t }] allocated in a heap that has
    [Object.prototype] is a valid action. *)
Lemma alloc_action_valid (t : string) (w : world) (op : object) :
  heap w !! ObjectPrototype = Some op -> proto op = None ->
  valid_action (heap (snd (alloc (action_of_type t) w)))
    (VObj (fst (alloc (action_of_type t) w))).
Proof.
  intros Hop Hproto.
  destruct (alloc_heap (action_of_type t) w) as (Hsub & Hnew & Hfresh).
  split.
  - apply (isPlainObject_literal _ _ ObjectPrototype (action_of_type t) op); auto.
    eapply lookup_weaken; eauto.
  - exists (VStr t). split; [|reflexivity].
    unfold Get, get_chain. rewrite Hnew. simpl. reflexivity.
Qed.

(** X5. When [dispatch(action)] returns, it returns [action] itself; the
    action was a plain object with a defined type, and the store was not
    dispatching, nor is it afterwards. *)
Theorem dispatch_returns_its_action (n : nat) (action v : value) (w w' : world) :
  run fn randomString (S n) (store_dispatch base_store action) w = (Ok v, w') ->
  v = action /\ valid_action (heap w) action /\
  isDispatching w = false /\ isDispatching w' = false.
Proof.
  rewrite run_store_dispatch. intros H.
  assert (frame w w') as HF.
  { eapply dispatch_frame; [apply run_frame|exact H|discriminate]. }
  unfold dispatch in H.
  destruct (isPlainObject (heap w) action) as [[|]|e|] eqn:Hp; try discriminate H.
  destruct (Get (heap w) action "type") as [t|e|] eqn:Ht; try discriminate H.
  destruct (is_undefined t) eqn:Hu; [discriminate H|].
  destruct (isDispatching w) eqn:Hd; [discriminate H|].
  assert (v = action) as ->.
  { unfold dispatch_reduce in H.
    destruct (call_function _ _ _ _ _) as [[s|e|] w2]; try discriminate H.
    destruct (notify _ _ _ _ _ _) as [[u|e|] w5]; try discriminate H.
    injection H as <- _. reflexivity. }
  split; [reflexivity|]. split; [split; [exact Hp|eauto]|].
  split; [reflexivity|]. apply HF. exact Hd.
Qed.

(** X6. While the reducer is executing, whatever it has run so far,
    [subscribe] throws, the [unsubscribe] of a live subscription throws, and
    neither changes anything; the [unsubscribe] of a subscription that is
    already cancelled returns silently. *)
Theorem reducer_cannot_subscribe (n : nat) (w : world) (R : Type) (p : prog R)
    (o : outcome R) (w' : world) :
  run fn randomString n p (set_isDispatching true w) = (o, w') -> o <> Diverge ->
  (forall m listener, is_function listener = true ->
     run fn randomString (S m) (store_subscribe base_store listener) w'
     = (Raise (Error msg_subscribe_while_dispatching), w')) /\
  (forall m token listener, subs w' !! token = Some (listener, true) ->
     run fn randomString (S m) (trigger (EUnsubscribe token)) w'
     = (Raise (Error msg_unsubscribe_while_dispatching), w')) /\
  (forall m token listener, subs w' !! token = Some (listener, false) ->
     run fn randomString (S m) (trigger (EUnsubscribe token)) w' = (Ok tt, w')).
Proof.
  intros Hrun Ho.
  assert (isDispatching w' = true) as Hflag.
  { pose proof (run_frame fn randomString n _ _ _ _ _ Hrun Ho) as HF.
    apply HF. destruct w; reflexivity. }
  split; [|split].
  - intros m listener Hf. rewrite run_store_subscribe. unfold subscribe.
    rewrite Hf, Hflag. reflexivity.
  - intros m token listener Hs. rewrite run_unsubscribe. unfold unsubscribe.
    rewrite Hs, Hflag. reflexivity.
  - intros m token listener Hs. rewrite run_unsubscribe. unfold unsubscribe.
    rewrite Hs. reflexivity.
Qed.

(** X7. Once the [unsubscribe] of a subscription has returned, every later
    call of it, after whatever has run in between and also while a reducer
    is executing, returns without doing anything. *)
Theorem unsubscribe_is_final (n m : nat) (token : nat) (w w1 : world)
    (R : Type) (p : prog R) (o : outcome R) (w2 : world) :
  run fn randomString (S n) (trigger (EUnsubscribe token)) w = (Ok tt, w1) ->
  run fn randomString m p w1 = (o, w2) -> o <> Diverge ->
  forall k flag,
    run fn randomString (S k) (trigger (EUnsubscribe token)) (set_isDispatching flag w2)
    = (Ok tt, set_isDispatching flag w2).
Proof.
  rewrite run_unsubscribe. intros Hun Hrun Ho k flag.
  assert (exists listener, subs w1 !! token = Some (listener, false)) as [listener Hs].
  { destruct (subs w !! token) as [[listener [|]]|] eqn:Hs.
    - destruct (isDispatching w) eqn:Hd.
      + unfold unsubscribe in Hun. rewrite Hs, Hd in Hun. discriminate Hun.
      + destruct (unsubscribe_spec token listener w Hs Hd) as (w0 & Hrun0 & Hsb & _).
        rewrite Hrun0 in Hun. injection Hun as <-. exists listener.
        rewrite Hsb. apply list_lookup_insert_eq. eapply lookup_lt_Some; eauto.
    - unfold unsubscribe in Hun. rewrite Hs in Hun. injection Hun as <-.
      exists listener. exact Hs.
    - unfold unsubscribe in Hun. rewrite Hs in Hun. discriminate Hun. }
  pose proof (steps_cancelled _ _ token listener
                (run_steps fn randomString m _ _ _ _ _ Hrun Ho) Hs) as Hs2.
  rewrite run_unsubscribe. unfold unsubscribe.
  replace (subs (set_isDispatching flag w2)) with (subs w2) by (destruct w2; reflexivity).
  rewrite Hs2. reflexivity.
Qed.

(** X8. Whatever runs against the store, however nested and whatever it
    throws: started while the store is idle it leaves the store idle, so the
    flag is never left set; started while a reducer is executing it can
    neither clear the flag nor change the state. *)
Theorem flag_and_state_are_guarded (n : nat) (w : world) (R : Type) (p : prog R)
    (o : outcome R) (w' : world) :
  run fn randomString n p w = (o, w') -> o <> Diverge ->
  (isDispatching w = false -> isDispatching w' = false) /\
  (isDispatching w = true ->
   isDispatching w' = true /\ currentState w' = currentState w).
Proof.
  intros Hrun Ho.
  pose proof (run_frame fn randomString n _ _ _ _ _ Hrun Ho) as HF.
  split.
  - apply HF.
  - apply HF.
Qed.

End StoreEdges.

(** ** The listener array and the subscriptions *)

Section Listeners.

Context (fn : fid -> list value -> prog value).
Context (randomString : nat -> string).
Context (enhancers : fid -> nat -> (list value -> M Store) -> list value -> M Store).

(** X9. The draft listener array holds exactly one entry per live
    subscription (it is a permutation of their listeners). A store created
    in a world without live subscriptions starts that way, and nothing that
    runs afterwards, however nested, breaks it. *)
Theorem listeners_match_subscriptions (n : nat) (w : world) :
  (forall args store w',
     live_listeners (subs w) = [] ->
     is_function (arg 1 args) = false -> is_undefined (arg 2 args) = true ->
     createStore fn randomString enhancers n args w = (Ok store, w') ->
     listeners_inv w') /\
  (forall (R : Type) (p : prog R) o w',
     listeners_inv w ->
     run fn randomString n p w = (o, w') -> o <> Diverge ->
     listeners_inv w').
Proof.
  split.
  - intros args store w' Hlive Hp Hu H.
    destruct (is_function (arg 0 args)) eqn:Hr.
    + rewrite createStore_without_enhancer in H by assumption.
      match type of H with
      | match run _ _ _ ?p ?w4 with _ => _ end = _ =>
          destruct (run fn randomString n p w4) as [[x|e|] w5] eqn:Hrun;
          try discriminate H;
          injection H as _ <-;
          apply (steps_listeners_inv w4);
          [eapply run_steps; [exact Hrun|discriminate]|]
      end.
      unfold listeners_inv. simpl. rewrite lookup_total_insert_eq, Hlive. reflexivity.
    + rewrite (createStore_reducer_not_function fn randomString enhancers n args w)
        in H by assumption.
      discriminate H.
  - intros R p o w' Hinv Hrun Ho.
    eapply steps_listeners_inv; [|exact Hinv].
    eapply run_steps; eauto.
Qed.

(** X10. In a store whose listener array matches its subscriptions, the
    [unsubscribe] of a live subscription removes the first occurrence of its
    listener from the draft array, wherever this subscription added it, and
    nothing else; it clears [currentListeners]. *)
Theorem unsubscribe_removes_first_occurrence (n : nat) (token : nat) (listener : value)
    (w : world) :
  listeners_inv w ->
  subs w !! token = Some (listener, true) -> isDispatching w = false ->
  exists (k : nat) (w' : world),
    run fn randomString (S n) (trigger (EUnsubscribe token)) w = (Ok tt, w') /\
    (arrays w !!! nextListeners w) !! k = Some listener /\
    (forall j : nat, (j < k)%nat -> (arrays w !!! nextListeners w) !! j <> Some listener) /\
    arrays w' !!! nextListeners w' = delete k (arrays w !!! nextListeners w) /\
    currentListeners w' = None /\ listeners_inv w'.
Proof.
  intros Hinv Hs Hd.
  destruct (unsubscribe_spec token listener w Hs Hd) as (w' & Hrun & Hsb & Hnl & Hcl & _).
  destruct (live_listeners_unsubscribe _ _ _ Hs) as (j & Hj & _).
  assert (listener ∈ arrays w !!! nextListeners w) as Hin.
  { unfold listeners_inv in Hinv. rewrite Hinv. eapply list_elem_of_lookup_2. exact Hj. }
  destruct (indexOf_from_found listener _ 0 Hin) as (k & Hk & Hl & Hmin).
  exists k, w'. rewrite run_unsubscribe.
  split; [exact Hrun|]. split; [exact Hl|]. split; [exact Hmin|].
  split.
  - rewrite Hnl. unfold indexOf. rewrite Hk, Z.add_0_l.
    apply splice1_at. apply lookup_lt_Some in Hl. lia.
  - split; [exact Hcl|].
    eapply step_listeners_inv; [|exact Hinv]. eapply step_unsubscribe. exact Hrun.
Qed.

(** X11. Subscribing a listener and calling the [unsubscribe] it returned
    leaves the listeners as they were up to order, and exactly as they were
    when the listener was not already subscribed. *)
Theorem subscribe_then_unsubscribe (n : nat) (listener : value) (w : world) :
  is_function listener = true -> isDispatching w = false ->
  exists w2,
    run fn randomString (S n)
      (let* token := store_subscribe base_store listener in
       trigger (EUnsubscribe token)) w = (Ok tt, w2) /\
    arrays w2 !!! nextListeners w2 ≡ₚ arrays w !!! nextListeners w /\
    (listener ∉ arrays w !!! nextListeners w ->
     arrays w2 !!! nextListeners w2 = arrays w !!! nextListeners w) /\
    live_listeners (subs w2) = live_listeners (subs w).
Proof.
  intros Hf Hd.
  destruct (subscribe_spec listener w Hf Hd)
    as (w1 & Hsub & Hsb1 & Hnl1 & _ & _ & _ & _ & Hd1 & _).
  assert (subs w1 !! length (subs w) = Some (listener, true)) as Hs1.
  { rewrite Hsb1. apply list_lookup_middle. reflexivity. }
  destruct (unsubscribe_spec _ listener w1 Hs1 Hd1) as (w2 & Hun & Hsb2 & Hnl2 & _).
  exists w2.
  assert (listener ∈ arrays w1 !!! nextListeners w1) as Hin.
  { rewrite Hnl1. apply elem_of_app. right. apply list_elem_of_singleton. reflexivity. }
  destruct (indexOf_from_found listener _ 0 Hin) as (k & Hk & Hl & Hmin).
  assert (arrays w2 !!! nextListeners w2 = delete k (arrays w1 !!! nextListeners w1)) as Hdel.
  { rewrite Hnl2. unfold indexOf. rewrite Hk, Z.add_0_l.
    apply splice1_at. apply lookup_lt_Some in Hl. lia. }
  split; [|split; [|split]].
  - unfold run. rewrite interp_bind.
    fold (run fn randomString (S n) (store_subscribe base_store listener) w).
    rewrite run_store_subscribe, Hsub.
    fold (run fn randomString (S n) (trigger (EUnsubscribe (length (subs w)))) w1).
    rewrite run_unsubscribe. exact Hun.
  - rewrite Hdel. apply (Permutation_cons_inv (a := listener)).
    rewrite <- (delete_Permutation _ _ _ Hl), Hnl1.
    rewrite Permutation_app_comm. reflexivity.
  - intros Hnotin. rewrite Hdel, Hnl1.
    assert (k = length (arrays w !!! nextListeners w)) as ->.
    { rewrite Hnl1 in Hl. apply lookup_app_Some in Hl.
      destruct Hl as [Hl|[Hge Hl]].
      - exfalso. apply Hnotin. eapply list_elem_of_lookup_2. exact Hl.
      - apply lookup_lt_Some in Hl. simpl in Hl. lia. }
    rewrite delete_middle. apply app_nil_r.
  - rewrite Hsb2, Hsb1.
    rewrite insert_app_r_alt by lia. rewrite Nat.sub_diag. simpl.
    rewrite !live_listeners_app. simpl. apply app_nil_r.
Qed.

(** X12. A listener that throws makes [dispatch] throw the same exception:
    the state that the reducer returned stays committed, the flag is clear,
    and the listeners after it are not called. *)
Theorem dispatch_when_listener_throws (n : nat) (w w2 w5 : world) (action s : value)
    (f : fid) (listener : value) (rest : list value) (e : exn) :
  isDispatching w = false -> valid_action (heap w) action ->
  currentReducer w = VFun f ->
  run fn randomString (S n) (fn f [currentState w; action]) (set_isDispatching true w)
  = (Ok s, w2) ->
  arrays w2 !!! nextListeners w2 = listener :: rest ->
  let w4 := set_currentListeners (Some (nextListeners w2))
              (set_isDispatching false (set_currentState s w2)) in
  run fn randomString (S n) (call_fn fn listener []) w4 = (Raise e, w5) ->
  run fn randomString (S (S n)) (store_dispatch base_store action) w = (Raise e, w5) /\
  run fn randomString (S n) (store_getState base_store) w4 = (Ok s, w4) /\
  isDispatching w5 = false.
Proof.
  intros Hd Hvalid Hred Hrun Hl w4 Hthrow.
  split; [|split].
  - rewrite run_store_dispatch, dispatch_valid by exact Hvalid. rewrite Hd.
    unfold dispatch_reduce.
    replace (currentReducer (set_isDispatching true w)) with (VFun f)
      by (destruct w; symmetry; exact Hred).
    replace (currentState (set_isDispatching true w)) with (currentState w)
      by (destruct w; reflexivity).
    simpl call_function. rewrite Hrun.
    replace (nextListeners (set_isDispatching false (set_currentState s w2)))
      with (nextListeners w2) by (destruct w2; reflexivity).
    fold w4.
    change (notify fn (fun R => run fn randomString (S n)) (S n) (nextListeners w2) 0 w4)
      with (match (arrays w4 !!! nextListeners w2) !! 0%nat with
            | None => (Ok tt, w4)
            | Some listener0 =>
                match call_function fn (fun R => run fn randomString (S n)) listener0 [] w4 with
                | (Ok _, w') => notify fn (fun R => run fn randomString (S n)) n
                                  (nextListeners w2) 1 w'
                | (Raise e0, w') => (Raise e0, w')
                | (Diverge, w') => (Diverge, w')
                end
            end).
    replace (arrays w4) with (arrays w2) by (destruct w2; reflexivity).
    rewrite Hl. simpl lookup. cbv beta iota.
    rewrite call_function_run, Hthrow. reflexivity.
  - rewrite run_store_getState. unfold getState. destruct w2; reflexivity.
  - pose proof (run_frame fn randomString (S n) _ _ _ _ _ Hthrow) as HF.
    apply HF; [discriminate|]. destruct w2; reflexivity.
Qed.

End Listeners.

(** ** The order of notification *)

Section NotificationOrder.

Context (fn : fid -> list value -> prog value).
Context (randomString : nat -> string).

(** Listeners that only record a tag, notified from a fixed list. *)
Lemma notify_snapshot_tags (m b : nat) (tag : fid -> value) (ids : list fid) :
  (forall id, In id ids -> fn id [] = let* _ := trigger (ELog (tag id)) in Ret VUndef) ->
  forall w,
    notify_snapshot fn (fun R => run fn randomString (S m)) (S (length ids + b))
      (map VFun ids) w
    = (Ok tt, set_log (log w ++ map tag ids) w).
Proof.
  induction ids as [|id ids IH]; intros Hfn w.
  - simpl. rewrite app_nil_r. destruct w; reflexivity.
  - change (notify_snapshot fn (fun R => run fn randomString (S m))
              (S (length (id :: ids) + b)) (map VFun (id :: ids)) w)
      with (match run fn randomString (S m) (fn id []) w with
            | (Ok _, w') =>
                notify_snapshot fn (fun R => run fn randomString (S m))
                  (S (length ids + b)) (map VFun ids) w'
            | (Raise e, w') => (Raise e, w')
            | (Diverge, w') => (Diverge, w')
            end).
    rewrite (Hfn id (or_introl eq_refl)).
    unfold run. rewrite interp_bind, interp_trigger, perform_log. cbv beta iota.
    change (interp (@perform fn randomString (S m)) (Ret VUndef)
              (set_log (log w ++ [tag id]) w))
      with (Ok VUndef, set_log (log w ++ [tag id]) w).
    cbv beta iota.
    rewrite IH by (intros id' Hin; apply Hfn; right; exact Hin).
    destruct w; simpl. rewrite <- app_assoc. reflexivity.
Qed.

Lemma notify_empty (call : forall R : Type, prog R -> M R) (b : nat) (a : loc) (w : world) :
  arrays w !!! a = [] -> notify fn call (S b) a 0 w = (Ok tt, w).
Proof. intros H. simpl. rewrite H. reflexivity. Qed.

(** X13. Listeners are notified in the order of the listener array, each
    once: when the listeners only record a tag, a dispatch whose reducer
    returns appends their tags to the record in that order, after the new
    state is committed, and returns the action. *)
Theorem listeners_notified_in_order (n : nat) (w w2 : world) (action s : value)
    (f : fid) (ids : list fid) (tag : fid -> value) :
  isDispatching w = false -> valid_action (heap w) action ->
  currentReducer w = VFun f ->
  run fn randomString (S (length ids + n)) (fn f [currentState w; action])
    (set_isDispatching true w) = (Ok s, w2) ->
  arrays w2 !!! nextListeners w2 = map VFun ids ->
  (forall id, In id ids -> fn id [] = let* _ := trigger (ELog (tag id)) in Ret VUndef) ->
  run fn randomString (S (S (length ids + n))) (store_dispatch base_store action) w
  = (Ok action,
     set_log (log w2 ++ map tag ids)
       (set_currentListeners (Some (nextListeners w2))
          (set_isDispatching false (set_currentState s w2)))).
Proof.
  intros Hd Hvalid Hred Hrun Hl Hfn.
  rewrite run_store_dispatch, dispatch_valid by exact Hvalid. rewrite Hd.
  unfold dispatch_reduce.
  replace (currentReducer (set_isDispatching true w)) with (VFun f)
    by (destruct w; symmetry; exact Hred).
  replace (currentState (set_isDispatching true w)) with (currentState w)
    by (destruct w; reflexivity).
  simpl call_function. rewrite Hrun.
  replace (nextListeners (set_isDispatching false (set_currentState s w2)))
    with (nextListeners w2) by (destruct w2; reflexivity).
  set (w4 := set_currentListeners (Some (nextListeners w2))
               (set_isDispatching false (set_currentState s w2))).
  assert (arrays w4 !!! nextListeners w2 = map VFun ids) as Hl4 by (destruct w2; exact Hl).
  assert (notify fn (fun R => run fn randomString (S (length ids + n)))
            (S (length ids + n)) (nextListeners w2) 0 w4
          = (Ok tt, set_log (log w4 ++ map tag ids) w4)) as Hnotify.
  { destruct (arrays w4 !! nextListeners w2) as [xs|] eqn:Hx.
    - rewrite notify_protected.
      + rewrite Hl4. simpl drop. apply notify_snapshot_tags. exact Hfn.
      + split; [rewrite Hx; eauto|]. intros _. destruct w2; reflexivity.
    - assert (ids = []) as ->.
      { rewrite lookup_total_alt, Hx in Hl4. destruct ids; [reflexivity|discriminate Hl4]. }
      rewrite notify_empty by exact Hl4.
      simpl map. rewrite app_nil_r. destruct w2; reflexivity. }
  rewrite Hnotify. destruct w2; reflexivity.
Qed.

End NotificationOrder.

(** ** Replacing the reducer *)

Section Replace.

Context (fn : fid -> list value -> prog value).
Context (randomString : nat -> string).

(** X14. [replaceReducer] of a value that is not a function throws and
    changes nothing. Called while a reducer is executing, with a function,
    it throws "Reducers may not dispatch actions.", yet the reducer has
    already been replaced; the state is not recomputed. *)
Theorem replaceReducer_edges (n : nat) (w : world) :
  (forall m nextReducer, is_function nextReducer = false ->
     run fn randomString (S m) (store_replaceReducer base_store nextReducer) w
     = (Raise (Error msg_nextReducer_not_function), w)) /\
  (forall (op : object) (R : Type) (p : prog R) o w',
     heap w !! ObjectPrototype = Some op -> proto op = None ->
     run fn randomString n p (set_isDispatching true w) = (o, w') -> o <> Diverge ->
     forall m nextReducer, is_function nextReducer = true ->
     exists w'',
       run fn randomString (S m) (store_replaceReducer base_store nextReducer) w'
       = (Raise (Error msg_reducers_may_not_dispatch), w'') /\
       currentReducer w'' = nextReducer /\ currentState w'' = currentState w' /\
       isDispatching w'' = true).
Proof.
  split.
  - intros m nextReducer Hf. rewrite run_store_replaceReducer. unfold replaceReducer.
    rewrite Hf. reflexivity.
  - intros op R p o w' Hop Hproto Hrun Ho m nextReducer Hf.
    pose proof (run_frame fn randomString n _ _ _ _ _ Hrun Ho) as HF.
    assert (isDispatching w' = true) as Hflag by (apply HF; destruct w; reflexivity).
    assert (heap w' !! ObjectPrototype = Some op) as Hop'.
    { eapply lookup_weaken; [|apply HF]. destruct w; exact Hop. }
    rewrite run_store_replaceReducer. unfold replaceReducer. rewrite Hf. simpl negb.
    cbv iota.
    set (w1 := set_currentReducer nextReducer w').
    assert (heap w1 !! ObjectPrototype = Some op) as Hop1 by (destruct w'; exact Hop').
    pose proof (alloc_action_valid (ActionTypes_REPLACE randomString) w1 op Hop1 Hproto)
      as Hvalid.
    destruct (alloc (action_of_type (ActionTypes_REPLACE randomString)) w1)
      as [l w2] eqn:Hal.
    simpl in Hvalid. rewrite dispatch_valid by exact Hvalid.
    assert (w2 = snd (alloc (action_of_type (ActionTypes_REPLACE randomString)) w1)) as Hw2
      by (rewrite Hal; reflexivity).
    assert (isDispatching w2 = true) as Hflag2
      by (rewrite Hw2; destruct w'; exact Hflag).
    rewrite Hflag2. exists w2. split; [reflexivity|].
    rewrite Hw2. destruct w'; repeat split. exact Hflag.
Qed.

Context (f : fid) (r : gmap loc object -> value -> value -> value).
Hypothesis f_pure :
  forall s a, fn f [s; a] = let* h := trigger EHeap in Ret (r h s a).

(** X15. In an idle store without listeners, [replaceReducer(f)] for a pure
    reducer [f] installs it and recomputes the state at once, as
    [f(state, { type: REPLACE })] for a freshly allocated action. *)
Theorem replaceReducer_recomputes_state (n : nat) (w : world) (op : object) :
  heap w !! ObjectPrototype = Some op -> proto op = None ->
  isDispatching w = false -> arrays w !!! nextListeners w = [] ->
  exists w',
    run fn randomString (S (S n)) (store_replaceReducer base_store (VFun f)) w
    = (Ok tt, w') /\
    heap w' !! fresh (dom (heap w))
    = Some (action_of_type (ActionTypes_REPLACE randomString)) /\
    currentReducer w' = VFun f /\
    currentState w' = r (heap w') (currentState w) (VObj (fresh (dom (heap w)))).
Proof.
  intros Hop Hproto Hd Hl.
  rewrite run_store_replaceReducer. unfold replaceReducer. simpl negb. cbv iota.
  set (w1 := set_currentReducer (VFun f) w).
  assert (heap w1 !! ObjectPrototype = Some op) as Hop1 by (destruct w; exact Hop).
  pose proof (alloc_action_valid (ActionTypes_REPLACE randomString) w1 op Hop1 Hproto)
    as Hvalid.
  destruct (alloc (action_of_type (ActionTypes_REPLACE randomString)) w1)
    as [l w2] eqn:Hal.
  assert (l = fresh (dom (heap w)) /\
          w2 = set_heap (<[fresh (dom (heap w)) :=
                            action_of_type (ActionTypes_REPLACE randomString)]> (heap w)) w1)
    as [-> ->].
  { unfold alloc in Hal. injection Hal as <- <-. destruct w; split; reflexivity. }
  simpl in Hvalid.
  set (w2 := set_heap (<[fresh (dom (heap w)) :=
                          action_of_type (ActionTypes_REPLACE randomString)]> (heap w)) w1) in *.
  assert (currentReducer w2 = VFun f) as H1 by (destruct w; reflexivity).
  assert (isDispatching w2 = false) as H2 by (destruct w; exact Hd).
  assert (arrays w2 !!! nextListeners w2 = []) as H3 by (destruct w; exact Hl).
  rewrite (dispatch_pure fn randomString f r f_pure n n w2 _ H1 H2 Hvalid H3).
  eexists. split; [reflexivity|].
  destruct w; simpl in *. split; [apply lookup_insert_eq|]. split; reflexivity.
Qed.

End Replace.

(** ** The middleware pipeline during and after construction *)

Section MiddlewareEdges.

Context (fn : fid -> list value -> prog value).
Context (randomString : nat -> string).

Lemma map_middlewares_app (n : nat) (pre post : list middleware) (w : world) :
  map_middlewares fn randomString n (pre ++ post) w =
  match map_middlewares fn randomString n pre w with
  | (Ok chain, w1) =>
      match map_middlewares fn randomString n post w1 with
      | (Ok chain', w2) => (Ok (chain ++ chain'), w2)
      | (Raise e, w2) => (Raise e, w2)
      | (Diverge, w2) => (Diverge, w2)
      end
  | (Raise e, w1) => (Raise e, w1)
  | (Diverge, w1) => (Diverge, w1)
  end.
Proof.
  revert w. induction pre as [|m pre IH]; intros w; simpl.
  - destruct (map_middlewares fn randomString n post w) as [[c|e|] w2]; reflexivity.
  - destruct (run fn randomString n m w) as [[c|e|] w1]; try reflexivity.
    rewrite IH.
    destruct (map_middlewares fn randomString n pre w1) as [[cs|e|] w2]; try reflexivity.
    destruct (map_middlewares fn randomString n post w2) as [[cs'|e|] w3]; reflexivity.
Qed.

Lemma map_middlewares_steps (n : nat) (middlewares : list middleware) :
  forall w o w',
    map_middlewares fn randomString n middlewares w = (o, w') -> o <> Diverge ->
    rtc step w w'.
Proof.
  induction middlewares as [|m ms IH]; intros w o w' H Ho; simpl in H.
  - injection H as <- <-. apply rtc_refl.
  - destruct (run fn randomString n m w) as [[c|e|] w1] eqn:Hm.
    + etrans; [eapply run_steps; [exact Hm|discriminate]|].
      destruct (map_middlewares fn randomString n ms w1) as [[cs|e|] w2] eqn:Hms;
        injection H as <- <-; try congruence;
        (eapply IH; [exact Hms|discriminate]).
    + injection H as <- <-. eapply run_steps; [exact Hm|discriminate].
    + injection H as <- <-. congruence.
Qed.

(** X16. While the middlewares are being constructed, [middlewareAPI.dispatch]
    throws: if a middleware, after whatever it runs first, dispatches
    through the API during its set-up, then [applyMiddleware] throws
    "Dispatching while constructing your middleware is not allowed", whatever
    the middlewares before it have done. *)
Theorem applyMiddleware_dispatch_while_constructing (n : nat)
    (pre post : list middleware) (X : Type) (p : prog X)
    (k : X -> value -> middleware) (action : X -> value)
    (createStore : list value -> M Store) (args : list value)
    (w w1 w3 w4 : world) (store : Store) (chain : list (dispatcher -> dispatcher))
    (x : X) :
  createStore args w = (Ok store, w1) ->
  map_middlewares fn randomString (S n) pre (set_mw_dispatch None w1) = (Ok chain, w3) ->
  run fn randomString (S n) p w3 = (Ok x, w4) ->
  applyMiddleware fn randomString (S n)
    (pre ++ (let* x := p in let* v := trigger (EApiDispatch (action x)) in k x v) :: post)
    createStore args w
  = (Raise (Error msg_dispatch_while_constructing), w4).
Proof.
  intros Hcs Hpre Hp. unfold applyMiddleware. rewrite Hcs.
  rewrite map_middlewares_app, Hpre.
  assert (mw_dispatch w4 = None) as Hmw.
  { rewrite (steps_mw_dispatch w3 w4)
      by (eapply run_steps; [exact Hp|discriminate]).
    rewrite (steps_mw_dispatch (set_mw_dispatch None w1) w3)
      by (eapply map_middlewares_steps; [exact Hpre|discriminate]).
    destruct w1; reflexivity. }
  change (map_middlewares fn randomString (S n)
            ((let* x0 := p in let* v := trigger (EApiDispatch (action x0)) in k x0 v) :: post) w3)
    with (match run fn randomString (S n)
                  (let* x0 := p in let* v := trigger (EApiDispatch (action x0)) in k x0 v) w3 with
          | (Ok c, w1') =>
              match map_middlewares fn randomString (S n) post w1' with
              | (Ok cs, w2) => (Ok (c :: cs), w2)
              | (Raise e, w2) => (Raise e, w2)
              | (Diverge, w2) => (Diverge, w2)
              end
          | (Raise e, w1') => (Raise e, w1')
          | (Diverge, w1') => (Diverge, w1')
          end).
  unfold run in *. rewrite interp_bind, Hp, interp_bind, interp_trigger.
  simpl perform. unfold api_dispatch. rewrite Hmw. reflexivity.
Qed.

(** X17. For a store built by one call of [applyMiddleware] around the
    store constructor of the library, called without enhancer: once
    [applyMiddleware] has returned the enhanced store, and after whatever
    runs later, [middlewareAPI.dispatch(action)] is the [dispatch] of the
    enhanced store, so that the action goes through the whole chain again;
    the other methods of the enhanced store are those of the store that the
    constructor returned. *)
Theorem applyMiddleware_api_dispatch_is_enhanced_dispatch (n m j : nat)
    (enhancers : fid -> nat -> (list value -> M Store) -> list value -> M Store)
    (middlewares : list middleware) (args : list value) (w w' w2 : world) (store : Store)
    (R : Type) (p : prog R) (o : outcome R) :
  is_function (arg 1 args) = false -> is_undefined (arg 2 args) = true ->
  applyMiddleware fn randomString n middlewares
    (createStore fn randomString enhancers j) args w = (Ok store, w') ->
  run fn randomString m p w' = (o, w2) -> o <> Diverge ->
  store_getState store = store_getState base_store /\
  store_subscribe store = store_subscribe base_store /\
  store_replaceReducer store = store_replaceReducer base_store /\
  forall k action,
    run fn randomString (S k) (trigger (EApiDispatch action)) w2
    = run fn randomString k (store_dispatch store action) w2.
Proof.
  intros Hpre Hen Happly Hrun Ho.
  unfold applyMiddleware in Happly.
  destruct (createStore fn randomString enhancers j args w) as [[st|e|] w1] eqn:Hcs;
    try discriminate Happly.
  assert (st = base_store) as ->.
  { destruct (is_function (arg 0 args)) eqn:Hred.
    - rewrite (createStore_without_enhancer fn randomString enhancers j args w
                 Hred Hpre Hen) in Hcs.
      destruct (run fn randomString j _ _) as [[x|e|] w5];
        [injection Hcs as <- _; reflexivity|discriminate Hcs|discriminate Hcs].
    - rewrite (createStore_reducer_not_function fn randomString enhancers j args w
                 Hen Hpre Hred) in Hcs.
      discriminate Hcs. }
  destruct (map_middlewares _ _ _ _ _) as [[chain|e|] w3]; try discriminate Happly.
  injection Happly as <- <-.
  split; [reflexivity|]. split; [reflexivity|]. split; [reflexivity|].
  intros k action.
  assert (mw_dispatch w2 = Some (compose chain (store_dispatch base_store))) as Hmw2.
  { rewrite (steps_mw_dispatch _ w2) by (eapply run_steps; eauto).
    destruct w3; reflexivity. }
  unfold run. rewrite interp_trigger. simpl perform. unfold api_dispatch.
  rewrite Hmw2. reflexivity.
Qed.

End MiddlewareEdges.

(** ** The first loop of the reducer combinator *)

Lemma kept_reducers_none (reducers : list (string * value)) (keys : list string)
    (acc : list (string * value)) :
  (forall k v, In (k, v) reducers -> is_function v = false) ->
  kept_reducers reducers keys acc = acc.
Proof.
  intros Hall. induction keys as [|key keys IH]; simpl; [reflexivity|].
  replace (is_function (prop key reducers)) with false; [exact IH|].
  unfold prop. destruct (assoc key reducers) as [v|] eqn:Ha; [|reflexivity].
  symmetry. eapply Hall. apply assoc_In. exact Ha.
Qed.

Section FirstLoop.

Context (fn : fid -> list value -> prog value).
Context (randomString : nat -> string).
Context (production : bool).

Lemma filter_reducers_warnings (n : nat) (reducers : list (string * value))
    (keys : list string) :
  forall (acc : list (string * value)) (w : world),
    run fn randomString (S n) (filter_reducers production reducers keys acc) w
    = (Ok (kept_reducers reducers keys acc),
       set_warnings
         (warnings w ++
          if production then []
          else map msg_no_reducer_provided
                 (List.filter (fun k => is_undefined (prop k reducers)) keys)) w).
Proof.
  induction keys as [|key keys IH]; intros acc w.
  - simpl. destruct production; rewrite app_nil_r; destruct w; reflexivity.
  - change (filter_reducers production reducers (key :: keys) acc)
      with (let* _ :=
              if negb production && is_undefined (prop key reducers)
              then trigger (EWarning (msg_no_reducer_provided key))
              else Ret tt in
            filter_reducers production reducers keys
              (if is_function (prop key reducers)
               then set_prop key (prop key reducers) acc
               else acc)).
    unfold run in *. rewrite interp_bind.
    destruct production; simpl negb; simpl andb.
    + simpl interp at 1. cbv beta iota. rewrite IH. reflexivity.
    + destruct (is_undefined (prop key reducers)) eqn:Hu.
      * rewrite interp_trigger. simpl perform. cbv beta iota. rewrite IH.
        simpl List.filter. rewrite Hu. simpl map.
        destruct w; simpl. rewrite <- app_assoc. reflexivity.
      * simpl interp at 1. cbv beta iota. rewrite IH. simpl List.filter. rewrite Hu. reflexivity.
Qed.

(** X18. The first loop of [combineReducers] keeps the entries whose value
    is a function, in their order, and drops all the others. In the
    development build it prints one warning for each key whose value is
    undefined, in order; other values that are not functions are dropped
    silently, and the production build prints nothing. *)
Theorem combineReducers_keeps_functions (n : nat) (reducers : list (string * value))
    (w : world) :
  NoDup (map fst reducers) ->
  run fn randomString (S n)
    (filter_reducers production reducers (map fst reducers) []) w
  = (Ok (List.filter (fun kv => is_function (snd kv)) reducers),
     set_warnings
       (warnings w ++
        if production then []
        else map msg_no_reducer_provided
               (map fst (List.filter (fun kv => is_undefined (snd kv)) reducers))) w).
Proof.
  intros Hnd. apply NoDup_ListNoDup in Hnd.
  rewrite filter_reducers_warnings.
  pose proof (kept_reducers_filter reducers [] Hnd) as Hk. simpl in Hk. rewrite Hk.
  do 3 f_equal. destruct production; [reflexivity|]. f_equal.
  assert (forall (post pre : list (string * value)),
            List.NoDup (map fst (pre ++ post)) ->
            List.filter (fun k => is_undefined (prop k (pre ++ post))) (map fst post)
            = map fst (List.filter (fun kv => is_undefined (snd kv)) post)) as Hgen.
  { clear. induction post as [|[k v] post IH]; intros pre Hnd; [reflexivity|].
    assert (~ In k (map fst pre)) as Hfresh.
    { rewrite map_app in Hnd. simpl in Hnd.
      apply List.NoDup_remove_2 in Hnd. intros Hin. apply Hnd.
      apply in_or_app. left. exact Hin. }
    simpl. unfold prop at 1. rewrite (assoc_middle k v pre post Hfresh).
    replace (pre ++ (k, v) :: post) with ((pre ++ [(k, v)]) ++ post) in *
      by (rewrite <- app_assoc; reflexivity).
    rewrite (IH (pre ++ [(k, v)]) Hnd).
    destruct (is_undefined v); reflexivity. }
  apply (Hgen reducers []). exact Hnd.
Qed.

End FirstLoop.

(** ** The warnings of the combined reducer *)

Section Warnings.

Context (fn : fid -> list value -> prog value).
Context (randomString : nat -> string).



Lemma perform_warning (n : nat) (message : string) (w : world) :
  perform fn randomString (S n) (EWarning message) w
  = (Ok tt, set_warnings (warnings w ++ [message]) w).
Proof. reflexivity. Qed.

Lemma perform_isPlainObject (n : nat) (v : value) (w : world) :
  perform fn randomString (S n) (EIsPlainObject v) w = (isPlainObject (heap w) v, w).
Proof. reflexivity. Qed.


Lemma action_has_type_run (n : nat) (action : value) (t : string) (w : world) :
  (truthy action = true -> exists v, Get (heap w) action "type" = Ok v) ->
  run fn randomString (S n) (action_has_type action t) w
  = (Ok (action_type_is (heap w) action t), w).
Proof.
  intros Htype. unfold action_has_type, action_type_is, run.
  destruct (truthy action) eqn:Ht; [|reflexivity].
  destruct (Htype eq_refl) as [v Hv].
  rewrite interp_bind, interp_trigger, perform_get, Hv. reflexivity.
Qed.




End Warnings.






Section WarningProperties.

Context (fn : fid -> list value -> prog value).
Context (randomString : nat -> string).

(** Without shape error and for a state that is not undefined, the entry
    of [combination] is the development-only block. *)
Lemma combination_entry_warn (n : nat) (production : bool) (c : combined)
    (state action : value) (w : world) :
  shapeAssertionError c = None -> strict_eq state VUndef = false ->
  run fn randomString (S n) (combination_entry randomString production c state action) w
  = match run fn randomString (S n)
            (combination_warn randomString production c state action) w with
    | (Ok _, w') => (Ok state, w')
    | (Raise e, w') => (Raise e, w')
    | (Diverge, w') => (Diverge, w')
    end.
Proof.
  intros Hc Hs. unfold combination_entry, run. rewrite interp_bind.
  fold (run fn randomString (S n) (combination_state state) w).
  rewrite combination_state_run. unfold default_state. rewrite Hs. simpl fst. simpl snd.
  rewrite interp_bind. unfold combination_rethrow. rewrite Hc.
  simpl interp at 1. cbv beta iota. rewrite interp_bind.
  destruct (interp (@perform fn randomString (S n))
              (combination_warn randomString production c state action) w)
    as [[[]|e|] w']; reflexivity.
Qed.




(** X21. The combined reducer of a mapping without any function ignores
    every action: it returns its state (the fresh [{}] when the state is
    undefined). The production build does nothing else; the development
    build prints "Store does not have a valid reducer", on every call. *)
Theorem combination_without_reducers (n : nat) (production : bool)
    (reducers : list (string * value)) (cache : option nat)
    (state action : value) (w : world) :
  (forall key v, In (key, v) reducers -> is_function v = false) ->
  (production = false -> truthy action = true ->
   exists v, Get (heap (snd (default_state state w))) action "type" = Ok v) ->
  run fn randomString (S n)
    (combination fn randomString production (closure reducers cache None) state action) w
  = (Ok (fst (default_state state w)),
     if production then snd (default_state state w)
     else set_warnings (warnings (snd (default_state state w)) ++ [msg_no_valid_reducer])
            (snd (default_state state w))).
Proof.
  intros Hall Htype.
  assert (final_reducers reducers = []) as Hfinal
    by (apply kept_reducers_none; exact Hall).
  unfold combination, closure, run. rewrite Hfinal. simpl finalReducerKeys.
  rewrite interp_bind.
  fold (run fn randomString (S n) (combination_state state) w).
  rewrite combination_state_run.
  rewrite interp_bind. simpl interp at 1. cbv beta iota.
  rewrite interp_bind. unfold combination_warn.
  destruct production.
  - reflexivity.
  - unfold getUnexpectedStateShapeWarningMessage. simpl finalReducers. cbv zeta.
    rewrite !interp_bind.
    fold (run fn randomString (S n)
            (action_has_type action (ActionTypes_INIT randomString))
            (snd (default_state state w))).
    rewrite action_has_type_run by (apply Htype; reflexivity).
    simpl map. simpl length. simpl Nat.eqb. cbv iota.
    simpl interp at 1. cbv beta iota.
    rewrite interp_trigger, perform_warning. reflexivity.
Qed.

End WarningProperties.

(** ** The combined reducer on a null and on an undefined state *)

Section StateEdges.

Context (fn : fid -> list value -> prog value).
Context (randomString : nat -> string).

(** X22. Only an undefined state gets the default [{}]: called with the
    state [null], a combined reducer that has at least one reducer throws
    the type error of reading a property of [null], before any reducer is
    called. The production build changes nothing; the development build has
    first printed the warning about the unexpected type "Null". *)
Theorem combination_null_state (n : nat) (production : bool)
    (reducers : list (string * value)) (cache : option nat) (action : value) (w : world) :
  final_reducers reducers <> [] ->
  (production = false -> truthy action = true ->
   exists v, Get (heap w) action "type" = Ok v) ->
  run fn randomString (S n)
    (combination fn randomString production (closure reducers cache None) VNull action) w
  = (Raise (TypeError "Cannot read properties of null"),
     if production then w
     else set_warnings
            (warnings w ++
             [msg_unexpected_type
                (argument_name (action_type_is (heap w) action
                                  (ActionTypes_INIT randomString)))
                "Null" (map fst (final_reducers reducers))]) w).
Proof.
  intros Hne Htype.
  rewrite combination_run_entry.
  rewrite combination_entry_warn by reflexivity.
  assert (exists key rest, finalReducerKeys (closure reducers cache None) = key :: rest)
    as (key & rest & Hkeys).
  { simpl. destruct (final_reducers reducers) as [|[k v] r]; [congruence|]. simpl. eauto. }
  assert (forall w0,
            run fn randomString (S n)
              (combination_loop fn (closure reducers cache None) VNull action
                 (finalReducerKeys (closure reducers cache None)) false []) w0
            = (Raise (TypeError "Cannot read properties of null"), w0)) as Hloop.
  { intros w0. rewrite Hkeys, combination_loop_cons. unfold run.
    rewrite interp_bind, interp_trigger, perform_get. reflexivity. }
  unfold combination_warn. destruct production.
  - change (run fn randomString (S n) (Ret tt) w) with (@Ok unit tt, w). cbv beta iota.
    rewrite Hloop. reflexivity.
  - unfold getUnexpectedStateShapeWarningMessage. cbv zeta.
    unfold run at 1. rewrite !interp_bind.
    fold (run fn randomString (S n)
            (action_has_type action (ActionTypes_INIT randomString)) w).
    rewrite action_has_type_run by (apply Htype; reflexivity).
    assert ((length (map fst (finalReducers (closure reducers cache None))) =? 0)%nat = false)
      as Hlen.
    { simpl. destruct (final_reducers reducers); [congruence|reflexivity]. }
    rewrite Hlen.
    rewrite interp_bind, interp_trigger, perform_isPlainObject.
    change (isPlainObject (heap w) VNull) with (@Ok bool false). cbv beta iota.
    simpl negb. cbv iota. simpl interp at 1. cbv beta iota.
    rewrite interp_trigger, perform_warning. cbv beta iota.
    rewrite Hloop. reflexivity.
Qed.




End StateEdges.

(** ** Binding action creators *)





Section Binding.

Context (fn : fid -> list value -> prog value).



End Binding.

Section BindingEdges.

Context (fn : fid -> list value -> prog value).
Context (randomString : nat -> string).

(** X25. For a function, [bindActionCreators] returns one bound function:
    called with arguments, it calls the action creator with them and
    dispatches what the creator returns; if the creator throws, nothing is
    dispatched. For anything that is neither a function nor an object it
    throws, and the message says "null" for [null] and the [typeof]
    otherwise. *)
Theorem bindActionCreators_edges (h : gmap loc object) (actionCreators : value)
    (dispatch : dispatcher) :
  (forall id, actionCreators = VFun id ->
     exists f,
       bindActionCreators fn h actionCreators dispatch = Ok (BoundFunction f) /\
       forall n args w,
         run fn randomString n (f args) w =
         match run fn randomString n (fn id args) w with
         | (Ok action, w1) => run fn randomString n (dispatch action) w1
         | (Raise e, w1) => (Raise e, w1)
         | (Diverge, w1) => (Diverge, w1)
         end) /\
  ((forall id, actionCreators <> VFun id) -> (forall l, actionCreators <> VObj l) ->
   bindActionCreators fn h actionCreators dispatch
   = Raise (Error (msg_bindActionCreators
                     (if bool_decide (actionCreators = VNull) then "null"
                      else typeof actionCreators)))).
Proof.
  split.
  - intros id ->. eexists. split; [reflexivity|].
    intros n args w. unfold bindActionCreator, run. rewrite interp_bind. reflexivity.
  - intros Hf Ho. destruct actionCreators; try reflexivity.
    + exfalso. eapply Hf. reflexivity.
    + exfalso. eapply Ho. reflexivity.
Qed.

End BindingEdges.

(** ** The observable adapter *)

Section Observable.

Context (fn : fid -> list value -> prog value).
Context (randomString : nat -> string).

Lemma perform_getState (n : nat) (w : world) :
  perform fn randomString (S n) EGetState w = getState w.
Proof. reflexivity. Qed.

(** What the closure [observeState] does in an idle store, for an observer
    that has a [next]. *)
Lemma observeState_run (n : nat) (observer next : value) (w : world) :
  Get (heap w) observer "next" = Ok next -> truthy next = true ->
  isDispatching w = false ->
  run fn randomString (S n) (observeState fn observer) w =
  match run fn randomString (S n) (call_fn fn next [currentState w]) w with
  | (Ok _, w1) => (Ok VUndef, w1)
  | (Raise e, w1) => (Raise e, w1)
  | (Diverge, w1) => (Diverge, w1)
  end.
Proof.
  intros Hget Ht Hd. unfold observeState, run.
  rewrite interp_bind, interp_trigger, perform_get, Hget, Ht.
  rewrite interp_bind, interp_trigger, perform_get, Hget.
  rewrite interp_bind, interp_trigger, perform_getState. unfold getState. rewrite Hd.
  rewrite interp_bind.
  destruct (interp (@perform fn randomString (S n)) (call_fn fn next [currentState w]) w)
    as [[x|e|] w1]; reflexivity.
Qed.

(** X26. [observable().subscribe(observer)] throws a type error, and
    subscribes nothing, unless [observer] is an object. For an object in an
    idle store it first calls [observer.next], if there is one, with the
    current state, and then subscribes the closure as a listener of the
    store; if [next] throws, nothing is subscribed. While a reducer is
    executing, an observer with a [next] gets the error of [getState]. *)
Theorem observable_subscribe_behaviour (n : nat) (observe : fid) (observer : value)
    (w : world) :
  ((forall l, observer <> VObj l) ->
   run fn randomString n (observable_subscribe fn observe observer) w
   = (Raise (TypeError "Expected the observer to be an object."), w)) /\
  (forall l next,
     observer = VObj l -> Get (heap w) observer "next" = Ok next ->
     isDispatching w = false ->
     run fn randomString (S n) (observable_subscribe fn observe observer) w =
     if truthy next
     then match run fn randomString (S n) (call_fn fn next [currentState w]) w with
          | (Ok _, w1) => subscribe (VFun observe) w1
          | (Raise e, w1) => (Raise e, w1)
          | (Diverge, w1) => (Diverge, w1)
          end
     else subscribe (VFun observe) w) /\
  (forall l next,
     observer = VObj l -> Get (heap w) observer "next" = Ok next ->
     truthy next = true -> isDispatching w = true ->
     run fn randomString (S n) (observable_subscribe fn observe observer) w
     = (Raise (Error msg_getState_while_dispatching), w)).
Proof.
  split; [|split].
  - intros Hno. destruct observer; try reflexivity. exfalso. eapply Hno. reflexivity.
  - intros l next -> Hget Hd.
    change (observable_subscribe fn observe (VObj l))
      with (let* _ := observeState fn (VObj l) in trigger (ESubscribe (VFun observe))).
    unfold run. rewrite interp_bind.
    destruct (truthy next) eqn:Ht.
    + fold (run fn randomString (S n) (observeState fn (VObj l)) w).
      rewrite (observeState_run n (VObj l) next w Hget Ht Hd). unfold run.
      destruct (interp (@perform fn randomString (S n))
                  (call_fn fn next [currentState w]) w)
        as [[x|e|] w1]; try reflexivity.
      rewrite interp_trigger. reflexivity.
    + unfold observeState.
      rewrite interp_bind, interp_trigger, perform_get, Hget, Ht.
      simpl interp at 1. cbv beta iota.
      rewrite interp_trigger. reflexivity.
  - intros l next -> Hget Ht Hd.
    change (observable_subscribe fn observe (VObj l))
      with (let* _ := observeState fn (VObj l) in trigger (ESubscribe (VFun observe))).
    unfold run. rewrite interp_bind. unfold observeState.
    rewrite interp_bind, interp_trigger, perform_get, Hget, Ht.
    rewrite interp_bind, interp_trigger, perform_get, Hget.
    rewrite interp_bind, interp_trigger, perform_getState. unfold getState. rewrite Hd.
    reflexivity.
Qed.

Context (observe : fid) (observer : value).
Hypothesis observe_closure : fn observe [] = observeState fn observer.

(** X27. When the closure that the observable subscribed is the only
    listener, a dispatch whose reducer returns calls [observer.next] with
    the new state, once, and returns the action if [next] returns. *)
Theorem observable_notifies_observer (n : nat) (w w2 : world) (action s next : value)
    (f : fid) :
  isDispatching w = false -> valid_action (heap w) action ->
  currentReducer w = VFun f ->
  run fn randomString (S (S n)) (fn f [currentState w; action]) (set_isDispatching true w)
  = (Ok s, w2) ->
  arrays w2 !!! nextListeners w2 = [VFun observe] ->
  Get (heap w2) observer "next" = Ok next -> truthy next = true ->
  let w4 := set_currentListeners (Some (nextListeners w2))
              (set_isDispatching false (set_currentState s w2)) in
  run fn randomString (S (S (S n))) (store_dispatch base_store action) w =
  match run fn randomString (S (S n)) (call_fn fn next [s]) w4 with
  | (Ok _, w5) => (Ok action, w5)
  | (Raise e, w5) => (Raise e, w5)
  | (Diverge, w5) => (Diverge, w5)
  end.
Proof.
  intros Hd Hvalid Hred Hrun Hl Hget Ht w4.
  rewrite run_store_dispatch, dispatch_valid by exact Hvalid. rewrite Hd.
  unfold dispatch_reduce.
  replace (currentReducer (set_isDispatching true w)) with (VFun f)
    by (destruct w; symmetry; exact Hred).
  replace (currentState (set_isDispatching true w)) with (currentState w)
    by (destruct w; reflexivity).
  simpl call_function. rewrite Hrun.
  replace (nextListeners (set_isDispatching false (set_currentState s w2)))
    with (nextListeners w2) by (destruct w2; reflexivity).
  fold w4.
  assert (arrays w4 !!! nextListeners w2 = [VFun observe]) as Hl4
    by (destruct w2; exact Hl).
  assert (protected w4 (nextListeners w2)) as Hprot.
  { split.
    - destruct (arrays w4 !! nextListeners w2) as [xs|] eqn:Hx; [eauto|].
      rewrite lookup_total_alt, Hx in Hl4. discriminate Hl4.
    - intros _. destruct w2; reflexivity. }
  rewrite (notify_protected fn randomString (S (S n)) (S (S n)) _ 0 w4 Hprot).
  rewrite Hl4. simpl drop.
  change (notify_snapshot fn (fun R => run fn randomString (S (S n))) (S (S n))
            [VFun observe] w4)
    with (match run fn randomString (S (S n)) (fn observe []) w4 with
          | (Ok _, w') =>
              notify_snapshot fn (fun R => run fn randomString (S (S n))) (S n) [] w'
          | (Raise e, w') => (Raise e, w')
          | (Diverge, w') => (Diverge, w')
          end).
  rewrite observe_closure.
  assert (Get (heap w4) observer "next" = Ok next) as Hget4 by (destruct w2; exact Hget).
  assert (isDispatching w4 = false) as Hd4 by (destruct w2; reflexivity).
  rewrite (observeState_run (S n) observer next w4 Hget4 Ht Hd4).
  replace (currentState w4) with s by (destruct w2; reflexivity).
  destruct (run fn randomString (S (S n)) (call_fn fn next [s]) w4) as [[x|e|] w5];
    reflexivity.
Qed.

End Observable.

(** ** Concrete runs *)

Lemma dispatch_returns_its_action_witness :
  VObj 5%positive = VObj 5%positive /\
  valid_action (heap sample_store_world) (VObj 5%positive) /\
  isDispatching sample_store_world = false /\
  isDispatching sample_dispatched_world = false.
Proof.
  apply (dispatch_returns_its_action sample_fn sample_randomString 1
           (VObj 5%positive) (VObj 5%positive) sample_store_world sample_dispatched_world).
  vm_compute. reflexivity.
Defined.

Lemma reducer_cannot_subscribe_witness :
  run sample_fn sample_randomString 1 (store_subscribe base_store (VFun 1%nat))
    (set_log [VStr "r"] (set_isDispatching true sample_store_world))
  = (Raise (Error msg_subscribe_while_dispatching),
     set_log [VStr "r"] (set_isDispatching true sample_store_world)).
Proof.
  destruct (reducer_cannot_subscribe sample_fn sample_randomString 1 sample_store_world
              unit (trigger (ELog (VStr "r"))) (Ok tt)
              (set_log [VStr "r"] (set_isDispatching true sample_store_world)))
    as [H _].
  - vm_compute. reflexivity.
  - discriminate.
  - apply H. reflexivity.
Defined.

Lemma unsubscribe_is_final_witness :
  exists w1 w2,
    run sample_fn sample_randomString 1 (trigger (EUnsubscribe 0%nat))
      sample_listening_world = (Ok tt, w1) /\
    run sample_fn sample_randomString 8 (store_dispatch base_store (VObj 5%positive)) w1
    = (Ok (VObj 5%positive), w2) /\
    run sample_fn sample_randomString 1 (trigger (EUnsubscribe 0%nat))
      (set_isDispatching true w2)
    = (Ok tt, set_isDispatching true w2).
Proof.
  eexists _, _. split; [vm_compute; reflexivity|].
  split; [vm_compute; reflexivity|].
  eapply (unsubscribe_is_final sample_fn sample_randomString 0 8 0%nat
            sample_listening_world _ value
            (store_dispatch base_store (VObj 5%positive)) (Ok (VObj 5%positive))).
  - vm_compute. reflexivity.
  - vm_compute. reflexivity.
  - discriminate.
Defined.

Lemma listeners_match_subscriptions_witness :
  listeners_inv sample_store_world /\ listeners_inv sample_listening_world.
Proof.
  assert (listeners_inv sample_store_world) as H1.
  { apply (proj1 (listeners_match_subscriptions sample_fn sample_randomString
                    identity_enhancer 2 sample_world) [VFun 0%nat] base_store).
    - reflexivity.
    - reflexivity.
    - reflexivity.
    - vm_compute. reflexivity. }
  split; [exact H1|].
  apply (proj2 (listeners_match_subscriptions sample_fn sample_randomString
                  identity_enhancer 8 sample_store_world) value
           (let* _ := store_subscribe base_store (VFun 3%nat) in
            let* _ := store_subscribe base_store (VFun 1%nat) in
            let* _ := store_subscribe base_store (VFun 2%nat) in
            store_dispatch base_store (VObj 5%positive))
           (Ok (VObj 5%positive))).
  - exact H1.
  - vm_compute. reflexivity.
  - discriminate.
Defined.

Lemma unsubscribe_removes_first_occurrence_witness :
  exists (k : nat) (w' : world),
    run sample_fn sample_randomString 1 (trigger (EUnsubscribe 0%nat))
      sample_listening_world = (Ok tt, w') /\
    (arrays sample_listening_world !!! nextListeners sample_listening_world) !! k
    = Some (VFun 3%nat) /\
    (forall j : nat, (j < k)%nat ->
       (arrays sample_listening_world !!! nextListeners sample_listening_world) !! j
       <> Some (VFun 3%nat)) /\
    arrays w' !!! nextListeners w'
    = delete k (arrays sample_listening_world !!! nextListeners sample_listening_world) /\
    currentListeners w' = None /\ listeners_inv w'.
Proof.
  apply (unsubscribe_removes_first_occurrence sample_fn sample_randomString 0 0%nat
           (VFun 3%nat) sample_listening_world).
  - unfold listeners_inv. vm_compute. reflexivity.
  - vm_compute. reflexivity.
  - vm_compute. reflexivity.
Defined.

Lemma subscribe_then_unsubscribe_witness :
  exists w2,
    run sample_fn sample_randomString 1
      (let* token := store_subscribe base_store (VFun 1%nat) in
       trigger (EUnsubscribe token)) sample_listening_world = (Ok tt, w2) /\
    arrays w2 !!! nextListeners w2
    ≡ₚ arrays sample_listening_world !!! nextListeners sample_listening_world /\
    (VFun 1%nat ∉ arrays sample_listening_world !!! nextListeners sample_listening_world ->
     arrays w2 !!! nextListeners w2
     = arrays sample_listening_world !!! nextListeners sample_listening_world) /\
    live_listeners (subs w2) = live_listeners (subs sample_listening_world).
Proof.
  apply (subscribe_then_unsubscribe sample_fn sample_randomString 0 (VFun 1%nat)
           sample_listening_world).
  - reflexivity.
  - vm_compute. reflexivity.
Defined.

Lemma dispatch_when_listener_throws_witness :
  run sample_fn sample_randomString 2 (store_dispatch base_store (VObj 5%positive))
    sample_throwing_listener_world
  = (Raise (Error "boom"),
     set_currentListeners (Some (nextListeners sample_throwing_listener_world))
       (set_currentState (VNum 1) sample_throwing_listener_world)).
Proof.
  destruct (dispatch_when_listener_throws sample_fn sample_randomString 0
              sample_throwing_listener_world
              (set_isDispatching true sample_throwing_listener_world)
              (set_currentListeners (Some (nextListeners sample_throwing_listener_world))
                 (set_currentState (VNum 1) sample_throwing_listener_world))
              (VObj 5%positive) (VNum 1) 0%nat (VFun 5%nat) [] (Error "boom"))
    as (H & _ & _).
  - vm_compute. reflexivity.
  - split; [vm_compute; reflexivity|].
    exists (VStr "inc"). split; vm_compute; reflexivity.
  - vm_compute. reflexivity.
  - vm_compute. reflexivity.
  - vm_compute. reflexivity.
  - vm_compute. reflexivity.
  - exact H.
Defined.

Lemma replaceReducer_edges_witness :
  exists w'',
    run sample_fn sample_randomString 1 (store_replaceReducer base_store (VFun 6%nat))
      (set_isDispatching true sample_store_world)
    = (Raise (Error msg_reducers_may_not_dispatch), w'') /\
    currentReducer w'' = VFun 6%nat /\
    currentState w'' = currentState (set_isDispatching true sample_store_world) /\
    isDispatching w'' = true.
Proof.
  apply (proj2 (replaceReducer_edges sample_fn sample_randomString 1 sample_store_world)
           (Object None []) unit (Ret tt) (Ok tt)).
  - vm_compute. reflexivity.
  - reflexivity.
  - reflexivity.
  - discriminate.
  - reflexivity.
Defined.

Lemma replaceReducer_recomputes_state_witness :
  exists w',
    run sample_fn sample_randomString 2 (store_replaceReducer base_store (VFun 6%nat))
      sample_dispatched_world = (Ok tt, w') /\
    heap w' !! fresh (dom (heap sample_dispatched_world))
    = Some (action_of_type (ActionTypes_REPLACE sample_randomString)) /\
    currentReducer w' = VFun 6%nat /\
    currentState w'
    = sample_counter (heap w') (currentState sample_dispatched_world)
        (VObj (fresh (dom (heap sample_dispatched_world)))).
Proof.
  apply (replaceReducer_recomputes_state sample_fn sample_randomString 6%nat
           sample_counter (fun s a => eq_refl) 0 sample_dispatched_world (Object None [])).
  - vm_compute. reflexivity.
  - reflexivity.
  - vm_compute. reflexivity.
  - vm_compute. reflexivity.
Defined.

Lemma applyMiddleware_dispatch_while_constructing_witness :
  applyMiddleware sample_fn sample_randomString 1
    ([tag_middleware (VStr "t1")] ++ sample_api_middleware :: [tag_middleware (VStr "t2")])
    (createStore sample_fn sample_randomString identity_enhancer 2)
    [VFun 0%nat] sample_world
  = (Raise (Error msg_dispatch_while_constructing),
     set_mw_dispatch None sample_store_world).
Proof.
  apply (applyMiddleware_dispatch_while_constructing sample_fn sample_randomString 0
           [tag_middleware (VStr "t1")] [tag_middleware (VStr "t2")]
           unit (Ret tt) (fun _ _ => Ret (fun next : dispatcher => next))
           (fun _ => VObj 5%positive)
           (createStore sample_fn sample_randomString identity_enhancer 2)
           [VFun 0%nat] sample_world sample_store_world
           (set_mw_dispatch None sample_store_world)
           (set_mw_dispatch None sample_store_world) base_store
           [fun (next : dispatcher) (action : value) =>
              let* _ := trigger (ELog (VStr "t1")) in next action] tt).
  - vm_compute. reflexivity.
  - reflexivity.
  - reflexivity.
Defined.

Lemma applyMiddleware_api_dispatch_is_enhanced_dispatch_witness :
  exists store w',
    applyMiddleware sample_fn sample_randomString 1
      [tag_middleware (VStr "t1"); tag_middleware (VStr "t2")]
      (createStore sample_fn sample_randomString identity_enhancer 2)
      [VFun 0%nat] sample_world = (Ok store, w') /\
    run sample_fn sample_randomString 3 (trigger (EApiDispatch (VObj 5%positive))) w'
    = run sample_fn sample_randomString 2 (store_dispatch store (VObj 5%positive)) w'.
Proof.
  eexists _, _. split; [vm_compute; reflexivity|].
  eapply (applyMiddleware_api_dispatch_is_enhanced_dispatch sample_fn sample_randomString
            1 0 2 identity_enhancer [tag_middleware (VStr "t1"); tag_middleware (VStr "t2")]
            [VFun 0%nat] sample_world _ _ _ unit (Ret tt) (Ok tt)).
  - reflexivity.
  - reflexivity.
  - vm_compute. reflexivity.
  - reflexivity.
  - discriminate.
Defined.

Lemma combineReducers_keeps_functions_witness :
  run sample_fn sample_randomString 1
    (filter_reducers false sample_sparse_reducers (map fst sample_sparse_reducers) [])
    sample_world
  = (Ok [("a", VFun 10%nat)],
     set_warnings [msg_no_reducer_provided "u"] sample_world).
Proof.
  etrans.
  - apply (combineReducers_keeps_functions sample_fn sample_randomString false 0
             sample_sparse_reducers sample_world).
    apply (bool_decide_unpack _). vm_compute. exact I.
  - vm_compute. reflexivity.
Defined.



Lemma combination_without_reducers_witness :
  run sample_fn sample_randomString 1
    (combination sample_fn sample_randomString false
       (closure [("skip", VNum 3)] (Some 0%nat) None) (VObj 6%positive) (VObj 5%positive))
    sample_dev_world
  = (Ok (VObj 6%positive), set_warnings [msg_no_valid_reducer] sample_dev_world).
Proof.
  etrans.
  - apply (combination_without_reducers sample_fn sample_randomString 0 false
             [("skip", VNum 3)] (Some 0%nat) (VObj 6%positive) (VObj 5%positive)
             sample_dev_world).
    + intros key v [H|[]]. injection H as _ <-. reflexivity.
    + intros _ _. exists (VStr "inc"). vm_compute. reflexivity.
  - vm_compute. reflexivity.
Defined.

Lemma combination_null_state_witness :
  run sample_fn sample_randomString 1
    (combination sample_fn sample_randomString false sample_closure VNull
       (VObj 5%positive)) sample_dev_world
  = (Raise (TypeError "Cannot read properties of null"),
     set_warnings
       [msg_unexpected_type "previous state received by the reducer" "Null" ["a"; "b"]]
       sample_dev_world).
Proof.
  etrans.
  - apply (combination_null_state sample_fn sample_randomString 0 false
             sample_reducers (Some 0%nat) (VObj 5%positive) sample_dev_world).
    + intros H. vm_compute in H. discriminate H.
    + intros _ _. exists (VStr "inc"). vm_compute. reflexivity.
  - vm_compute. reflexivity.
Defined.


Lemma bindActionCreators_edges_witness :
  bindActionCreators sample_fn sample_heap VNull (store_dispatch base_store)
  = Raise (Error (msg_bindActionCreators "null")) /\
  bindActionCreators sample_fn sample_heap (VNum 3) (store_dispatch base_store)
  = Raise (Error (msg_bindActionCreators "number")).
Proof.
  split.
  - apply (proj2 (bindActionCreators_edges sample_fn sample_randomString sample_heap VNull
                    (store_dispatch base_store))); discriminate.
  - apply (proj2 (bindActionCreators_edges sample_fn sample_randomString sample_heap (VNum 3)
                    (store_dispatch base_store))); discriminate.
Defined.

Lemma observable_subscribe_behaviour_witness :
  run sample_fn_observed sample_randomString 0
    (observable_subscribe sample_fn_observed 30%nat (VNum 1)) sample_observer_world
  = (Raise (TypeError "Expected the observer to be an object."), sample_observer_world) /\
  log sample_observed_world = [VNum 0] /\
  arrays sample_observed_world !!! nextListeners sample_observed_world = [VFun 30%nat].
Proof.
  destruct (observable_subscribe_behaviour sample_fn_observed sample_randomString 1
              30%nat (VObj 7%positive) sample_observer_world) as (_ & H & _).
  split.
  - apply (proj1 (observable_subscribe_behaviour sample_fn_observed sample_randomString 0
                    30%nat (VNum 1) sample_observer_world)). discriminate.
  - unfold sample_observed_world.
    rewrite (H 7%positive (VFun 31%nat) eq_refl); [|vm_compute; reflexivity..].
    split; vm_compute; reflexivity.
Defined.

Lemma observable_notifies_observer_witness :
  exists w5,
    run sample_fn_observed sample_randomString 3
      (store_dispatch base_store (VObj 5%positive)) sample_observed_world
    = (Ok (VObj 5%positive), w5) /\
    log w5 = [VNum 0; VNum 1].
Proof.
  eexists.
  rewrite (observable_notifies_observer sample_fn_observed sample_randomString 30%nat
             (VObj 7%positive) eq_refl 0 sample_observed_world
             (set_isDispatching true sample_observed_world)
             (VObj 5%positive) (VNum 1) (VFun 31%nat) 0%nat).
  - split; vm_compute; reflexivity.
  - vm_compute. reflexivity.
  - split; [vm_compute; reflexivity|].
    exists (VStr "inc"). split; vm_compute; reflexivity.
  - vm_compute. reflexivity.
  - vm_compute. reflexivity.
  - vm_compute. reflexivity.
  - vm_compute. reflexivity.
  - reflexivity.
Defined.


Lemma listeners_notified_in_order_witness :
  run sample_fn_next sample_randomString 4 (store_dispatch base_store (VObj 5%positive))
    sample_tagged_world
  = (Ok (VObj 5%positive),
     set_log [VUndef; VStr "L1"]
       (set_currentListeners (Some (nextListeners sample_tagged_world))
          (set_currentState (VNum 1) sample_tagged_world))).
Proof.
  etrans.
  - apply (listeners_notified_in_order sample_fn_next sample_randomString 0
             sample_tagged_world (set_isDispatching true sample_tagged_world)
             (VObj 5%positive) (VNum 1) 0%nat
             [31%nat; 1%nat] (fun id => if Nat.eqb id 1 then VStr "L1" else VUndef)).
    + vm_compute. reflexivity.
    + split; [vm_compute; reflexivity|].
      exists (VStr "inc"). split; vm_compute; reflexivity.
    + vm_compute. reflexivity.
    + vm_compute. reflexivity.
    + vm_compute. reflexivity.
    + intros id [<-|[<-|[]]]; reflexivity.
  - vm_compute. reflexivity.
Defined.

Lemma flag_and_state_are_guarded_witness :
  fst (run sample_fn sample_randomString 2 (store_dispatch base_store (VObj 5%positive))
         sample_throwing_world) = Raise (Error "boom") /\
  isDispatching
    (snd (run sample_fn sample_randomString 2 (store_dispatch base_store (VObj 5%positive))
            sample_throwing_world)) = false.
Proof.
  split; [vm_compute; reflexivity|].
  destruct (flag_and_state_are_guarded sample_fn sample_randomString 2
              sample_throwing_world value
              (store_dispatch base_store (VObj 5%positive))
              (Raise (Error "boom"))
              (snd (run sample_fn sample_randomString 2
                      (store_dispatch base_store (VObj 5%positive))
                      sample_throwing_world))) as [H _].
  - vm_compute. reflexivity.
  - discriminate.
  - apply H. vm_compute. reflexivity.
Defined.
